(** * Gript.js: orbit camera and sprite selection, verified

    A shallow embedding of [src/Gript.js], a browser scene editor written on
    top of three.js.  The script is a set of module-level variables and DOM
    event listeners; here the variables become the fields of a state record
    and every listener becomes a function on that record.

    Modelling conventions
    - JavaScript numbers are read as real numbers ([R]): [Math.max],
      [Math.min], [Math.sin], [Math.cos] and [Math.PI] are [Rmax], [Rmin],
      [sin], [cos] and [PI].  The reading drops rounding, and it is the
      script's arithmetic only while every number stays finite, that is
      within [MAX_VALUE].  The orbit radius is the one number that events
      drive past it; what the wheel listener does there ([Infinity], NaN)
      is replayed on binary64 numbers in [Module Binary64].
    - JavaScript objects live in a store ([gmap ref Object3D]); a variable
      holding an object holds its reference, [null]/[undefined] is [None].
    - The three.js calls the script makes are modelled in [Module THREE].
    - A listener returns a [Status] next to the state: it returned, threw a
      [TypeError], or did not finish (a loop ran out of fuel). *)

From Stdlib Require Import Reals Lra ZArith String.
From Stdlib Require PrimFloat.
From stdpp Require Import gmap list.

(** ** The three.js objects the script touches *)

Module THREE.

(** An object reference (JavaScript object identity). *)
Definition ref := nat.

(** The [type] of an [Object3D], one per constructor the script calls. *)
Inductive ObjectType :=
  | SceneT | GridHelperT | AxesHelperT | TransformControlsT
  | GroupT | MeshT | LineSegmentsT.

Global Instance ObjectType_eq_dec : EqDecision ObjectType.
Proof. solve_decision. Defined.

Inductive TextureFilter :=
  | NearestFilter | LinearFilter | LinearMipMapLinearFilter.

(** The four fields of a texture the script writes.  A filter field holds
    [undefined] ([None]) once [ApplyTextureFilter] has copied it from an
    object that has no such property. *)
Record Texture := mkTexture {
  minFilter : option TextureFilter;
  magFilter : option TextureFilter;
  generateMipmaps : bool;
  needsUpdate : bool
}.

(** [userData] with the four keys the script ever writes; an absent key
    ([undefined]) is [false] / [None]. *)
Record UserData := mkUserData {
  isSprite : bool;
  visiblePlane : option ref;
  filterType : option string;
  selectionOutline : option ref
}.

Definition noUserData : UserData := mkUserData false None None None.

Record Object3D := mkObject3D {
  otype : ObjectType;
  parent : option ref;
  children : list ref;
  userData : UserData;
  material_map : option Texture
}.

Definition newObject (t : ObjectType) : Object3D :=
  mkObject3D t None [] noUserData None.

Global Instance Object3D_inhabited : Inhabited Object3D :=
  populate (newObject GroupT).

Definition set_parent (p : option ref) (o : Object3D) : Object3D :=
  mkObject3D (otype o) p (children o) (userData o) (material_map o).
Definition set_children (c : list ref) (o : Object3D) : Object3D :=
  mkObject3D (otype o) (parent o) c (userData o) (material_map o).
Definition set_userData (u : UserData) (o : Object3D) : Object3D :=
  mkObject3D (otype o) (parent o) (children o) u (material_map o).
Definition set_material_map (t : option Texture) (o : Object3D) : Object3D :=
  mkObject3D (otype o) (parent o) (children o) (userData o) t.
Definition set_isSprite (b : bool) (u : UserData) : UserData :=
  mkUserData b (visiblePlane u) (filterType u) (selectionOutline u).
Definition set_visiblePlane (p : option ref) (u : UserData) : UserData :=
  mkUserData (isSprite u) p (filterType u) (selectionOutline u).
Definition set_filterType (f : option string) (u : UserData) : UserData :=
  mkUserData (isSprite u) (visiblePlane u) f (selectionOutline u).
Definition set_selectionOutline (l : option ref) (u : UserData) : UserData :=
  mkUserData (isSprite u) (visiblePlane u) (filterType u) l.

(** The object store.  Reading a reference never fails in JavaScript, so
    reads use the total lookup [h !!! r]. *)
Abbreviation Heap := (gmap ref Object3D).

Definition modify (f : Object3D → Object3D) (r : ref) (h : Heap) : Heap :=
  <[r := f (h !!! r)]> h.

(** [Array.prototype.indexOf]: the first index holding [x], or [-1]. *)
Fixpoint indexOf (l : list ref) (x : ref) : Z :=
  match l with
  | [] => (-1)%Z
  | y :: l' =>
      if decide (y = x) then 0%Z
      else let i := indexOf l' x in
           if (i <? 0)%Z then (-1)%Z else (i + 1)%Z
  end.

(** [Array.prototype.splice(Index, 1)]: drop the element at [Index]. *)
Definition splice1 (Index : Z) (l : list ref) : list ref :=
  if (Index <? 0)%Z then l else delete (Z.to_nat Index) l.

(** [l[i]] for a number [i]: [undefined] outside the array. *)
Definition at_index (l : list ref) (i : Z) : option ref :=
  if (i <? 0)%Z then None else l !! Z.to_nat i.

(** Modelled from the spec: the scene-graph collaborator's [remove]
    (three.js [Object3D.remove], not under src/): a child found in
    [this.children] loses its parent and is spliced out. *)
Definition remove (this object : ref) (h : Heap) : Heap :=
  let index := indexOf (children (h !!! this)) object in
  if (index =? -1)%Z then h
  else
    let h1 := modify (set_parent None) object h in
    modify (λ o, set_children (splice1 index (children o)) o) this h1.

(** Modelled from the spec: the scene-graph collaborator's [add]
    (three.js [Object3D.add], not under src/): adding an object to itself
    is refused, an object that has a parent is removed from it first, then
    it is pushed onto [this.children]. *)
Definition add (this object : ref) (h : Heap) : Heap :=
  if decide (object = this) then h
  else
    let h1 := match parent (h !!! object) with
              | Some p => remove p object h
              | None => h
              end in
    let h2 := modify (set_parent (Some this)) object h1 in
    modify (λ o, set_children (children o ++ [object]) o) this h2.

(** The transform gizmo, as far as the script observes it. *)
Inductive TransformMode := translate | rotate | scale.

Global Instance TransformMode_eq_dec : EqDecision TransformMode.
Proof. solve_decision. Defined.

Record Controls := mkControls {
  object : option ref;
  mode : option TransformMode
}.

(** Modelled from the spec: the gizmo collaborator's [attach], [detach]
    and [setMode] (three.js [TransformControls], not under src/). *)
Definition attach (o : option ref) (c : Controls) : Controls :=
  mkControls o (mode c).
Definition detach (c : Controls) : Controls :=
  mkControls None (mode c).
Definition setMode (m : option TransformMode) (c : Controls) : Controls :=
  mkControls (object c) m.

(** Camera position and orientation.  [lookAt] derives the orientation
    from the camera's position at the time of the call and the target, so
    the orientation is recorded as that pair. *)
Record Vector3 := mkVector3 { x : R; y : R; z : R }.

Inductive Orientation :=
  | InitialOrientation
  | LookingAt (eye target : Vector3).

Record PerspectiveCamera := mkCamera {
  position : Vector3;
  orientation : Orientation;
  aspect : R
}.

Definition set_position (p : Vector3) (c : PerspectiveCamera) :=
  mkCamera p (orientation c) (aspect c).
Definition set_aspect (a : R) (c : PerspectiveCamera) :=
  mkCamera (position c) (orientation c) a.

(** Modelled from the spec: the camera collaborator's [lookAt]
    (three.js [Object3D.lookAt], not under src/). *)
Definition lookAt (tx ty tz : R) (c : PerspectiveCamera) :=
  mkCamera (position c) (LookingAt (position c) (mkVector3 tx ty tz))
           (aspect c).

End THREE.
Import THREE.

(** ** The sprite editor: module-level state of the second half of the script

    [heap] and [nextRef] are the object store and its allocator; the other
    fields are the script's variables of the same name. *)

Record Editor := mkEditor {
  heap : Heap;
  nextRef : ref;
  TransformControls : Controls;
  CurrentModeIndex : nat;
  Sprites : list ref;
  SelectedSprite : option ref;
  UserTexture : option Texture;
  CurrentFilterType : string
}.

Definition with_heap (h : Heap) (e : Editor) : Editor :=
  mkEditor h (nextRef e) (TransformControls e) (CurrentModeIndex e)
           (Sprites e) (SelectedSprite e) (UserTexture e) (CurrentFilterType e).
Definition with_nextRef (n : ref) (e : Editor) : Editor :=
  mkEditor (heap e) n (TransformControls e) (CurrentModeIndex e)
           (Sprites e) (SelectedSprite e) (UserTexture e) (CurrentFilterType e).
Definition with_TransformControls (c : Controls) (e : Editor) : Editor :=
  mkEditor (heap e) (nextRef e) c (CurrentModeIndex e)
           (Sprites e) (SelectedSprite e) (UserTexture e) (CurrentFilterType e).
Definition with_CurrentModeIndex (i : nat) (e : Editor) : Editor :=
  mkEditor (heap e) (nextRef e) (TransformControls e) i
           (Sprites e) (SelectedSprite e) (UserTexture e) (CurrentFilterType e).
Definition with_Sprites (l : list ref) (e : Editor) : Editor :=
  mkEditor (heap e) (nextRef e) (TransformControls e) (CurrentModeIndex e)
           l (SelectedSprite e) (UserTexture e) (CurrentFilterType e).
Definition with_SelectedSprite (o : option ref) (e : Editor) : Editor :=
  mkEditor (heap e) (nextRef e) (TransformControls e) (CurrentModeIndex e)
           (Sprites e) o (UserTexture e) (CurrentFilterType e).
Definition with_UserTexture (t : option Texture) (e : Editor) : Editor :=
  mkEditor (heap e) (nextRef e) (TransformControls e) (CurrentModeIndex e)
           (Sprites e) (SelectedSprite e) t (CurrentFilterType e).
Definition with_CurrentFilterType (f : string) (e : Editor) : Editor :=
  mkEditor (heap e) (nextRef e) (TransformControls e) (CurrentModeIndex e)
           (Sprites e) (SelectedSprite e) (UserTexture e) f.

(** How a listener ends. *)
Inductive Status := Returned | Threw | Hung.

Global Instance Status_eq_dec : EqDecision Status.
Proof. solve_decision. Defined.

(** The objects created by the top-level statements, in creation order. *)
Definition Scene : ref := 0.
Definition GridHelper : ref := 1.
Definition AxesHelper : ref := 2.
Definition TransformControlsObj : ref := 3.

Definition TransformModes : list TransformMode := [translate; rotate; scale].

(** The store after lines 10-33 and 121-122: the scene with the grid, the
    axes and the gizmo added to it.  The gizmo starts in three.js's default
    mode, [translate]. *)
Definition initialHeap : Heap :=
  THREE.add Scene TransformControlsObj
    (<[TransformControlsObj := newObject TransformControlsT]>
      (THREE.add Scene AxesHelper
        (<[AxesHelper := newObject AxesHelperT]>
          (THREE.add Scene GridHelper
            (<[GridHelper := newObject GridHelperT]>
              (<[Scene := newObject SceneT]> ∅)))))).

Definition initialEditor : Editor :=
  mkEditor initialHeap 4 (mkControls None (Some translate)) 0
           [] None None "Bilinear".

(** *** Texture filtering (lines 186-224) *)

(** The property names an object literal inherits from [Object.prototype];
    none of the inherited values has a [minFilter] or a [magFilter]. *)
Definition ObjectPrototypeKeys : list string :=
  ["constructor"; "hasOwnProperty"; "isPrototypeOf"; "propertyIsEnumerable";
   "toLocaleString"; "toString"; "valueOf"; "__proto__";
   "__defineGetter__"; "__defineSetter__"; "__lookupGetter__";
   "__lookupSetter__"]%string.

(** [TextureFilters[FilterType]], read as line 208 reads it: [None] when
    the lookup is [undefined], otherwise the [minFilter] and [magFilter] of
    the object found.  The lookup is a property access on an object
    literal, so besides the three own keys it finds the inherited ones,
    whose values (functions, and the prototype itself for ["__proto__"])
    are truthy and carry neither field. *)
Definition TextureFilters (FilterType : string)
  : option (option TextureFilter * option TextureFilter) :=
  if String.eqb FilterType "Nearest Neighbor"
  then Some (Some NearestFilter, Some NearestFilter)
  else if String.eqb FilterType "Bilinear"
  then Some (Some LinearFilter, Some LinearFilter)
  else if String.eqb FilterType "Trilinear"
  then Some (Some LinearMipMapLinearFilter, Some LinearFilter)
  else if existsb (String.eqb FilterType) ObjectPrototypeKeys
  then Some (None, None)
  else None.

(** [ApplyTextureFilter(Texture, FilterType)] (lines 206-224): when the
    lookup is truthy, all four fields are written. *)
Definition ApplyTextureFilter (T : Texture) (FilterType : string) : Texture :=
  match TextureFilters FilterType with
  | Some (mn, mg) => mkTexture mn mg (String.eqb FilterType "Trilinear") true
  | None => T
  end.

(** The texture loader's callback (lines 239-251). *)
Definition textureLoaded (T : Texture) (e : Editor) : Editor :=
  with_UserTexture (Some (ApplyTextureFilter T (CurrentFilterType e))) e.

(** [applyFilterBtn] click (lines 255-274); [value] is [FilterSelect.value]. *)
Definition applyFilterBtn_click (value : string) (e : Editor) : Editor :=
  let e1 := with_CurrentFilterType value e in
  let e2 := match UserTexture e1 with
            | Some T => with_UserTexture
                          (Some (ApplyTextureFilter T (CurrentFilterType e1))) e1
            | None => e1
            end in
  match SelectedSprite e2 with
  | Some sel =>
      match visiblePlane (userData (heap e2 !!! sel)) with
      | Some plane =>
          match material_map (heap e2 !!! plane) with
          | Some T =>
              with_heap
                (modify (set_material_map
                           (Some (ApplyTextureFilter T (CurrentFilterType e2))))
                        plane (heap e2)) e2
          | None => e2
          end
      | None => e2
      end
  | None => e2
  end.

(** *** Creating a sprite (lines 276-337) *)

(** [CreatePlaneSprite]: [None] (after the alert) when no texture has been
    loaded, otherwise a fresh group holding the textured plane and the
    invisible selection box. *)
Definition CreatePlaneSprite (e : Editor) : option ref * Editor :=
  match UserTexture e with
  | None => (None, e)
  | Some T =>
      let SpriteGroup := nextRef e in
      let Plane := S SpriteGroup in
      let SelectionBox := S Plane in
      let TextureClone := ApplyTextureFilter T (CurrentFilterType e) in
      let h := <[SpriteGroup := newObject GroupT]> (heap e) in
      let h := <[Plane := set_material_map (Some TextureClone)
                            (newObject MeshT)]> h in
      let h := THREE.add SpriteGroup Plane h in
      let h := <[SelectionBox := newObject MeshT]> h in
      let h := THREE.add SpriteGroup SelectionBox h in
      let h := modify (λ o, set_userData (set_isSprite true (userData o)) o)
                      SpriteGroup h in
      let h := modify (λ o, set_userData
                              (set_visiblePlane (Some Plane) (userData o)) o)
                      SpriteGroup h in
      let h := modify (λ o, set_userData
                              (set_filterType (Some (CurrentFilterType e))
                                              (userData o)) o)
                      SpriteGroup h in
      (Some SpriteGroup, with_heap h (with_nextRef (S SelectionBox) e))
  end.

(** *** Selection (lines 389-463) *)

(** [SelectSprite(Sprite)].  [Sprite] may be [undefined] ([None]): reading
    [Sprite.userData] then throws, after the assignments before it. *)
Definition SelectSprite (Sprite : option ref) (e : Editor) : Status * Editor :=
  let e1 :=
    match SelectedSprite e with
    | Some sel =>
        match selectionOutline (userData (heap e !!! sel)) with
        | Some outline =>
            let h := THREE.remove sel outline (heap e) in
            let h := modify (λ o, set_userData
                                    (set_selectionOutline None (userData o)) o)
                            sel h in
            with_heap h e
        | None => e
        end
    | None => e
    end in
  let e2 := with_SelectedSprite Sprite e1 in
  let e3 := with_TransformControls (attach Sprite (TransformControls e2)) e2 in
  let e4 := with_TransformControls
              (setMode (TransformModes !! CurrentModeIndex e3)
                       (TransformControls e3)) e3 in
  match Sprite with
  | None => (Threw, e4)
  | Some sprite =>
      match visiblePlane (userData (heap e4 !!! sprite)) with
      | None => (Threw, e4)
      | Some VisiblePlane =>
          let OutlineMesh := nextRef e4 in
          let h := <[OutlineMesh := newObject LineSegmentsT]> (heap e4) in
          let h := THREE.add sprite OutlineMesh h in
          let h := modify (λ o, set_userData
                                  (set_selectionOutline (Some OutlineMesh)
                                                        (userData o)) o)
                          sprite h in
          (Returned, with_heap h (with_nextRef (S OutlineMesh) e4))
      end
  end.

(** [DeselectCurrentSprite]. *)
Definition DeselectCurrentSprite (e : Editor) : Editor :=
  match SelectedSprite e with
  | Some sel =>
      let e1 := with_TransformControls (detach (TransformControls e)) e in
      let e2 :=
        match selectionOutline (userData (heap e1 !!! sel)) with
        | Some outline =>
            let h := THREE.remove sel outline (heap e1) in
            let h := modify (λ o, set_userData
                                    (set_selectionOutline None (userData o)) o)
                            sel h in
            with_heap h e1
        | None => e1
        end in
      with_SelectedSprite None e2
  | None => e
  end.

(** [DeleteSelectedSprite]. *)
Definition DeleteSelectedSprite (e : Editor) : Editor :=
  match SelectedSprite e with
  | Some sel =>
      let e1 :=
        match selectionOutline (userData (heap e !!! sel)) with
        | Some outline => with_heap (THREE.remove sel outline (heap e)) e
        | None => e
        end in
      let e2 := with_heap (THREE.remove Scene sel (heap e1)) e1 in
      let Index := indexOf (Sprites e2) sel in
      let e3 := if (Index >? -1)%Z
                then with_Sprites (splice1 Index (Sprites e2)) e2
                else e2 in
      let e4 := with_TransformControls (detach (TransformControls e3)) e3 in
      with_SelectedSprite None e4
  | None => e
  end.

(** [ShowDeleteConfirmation]; [confirmed] is the user's answer to the
    [confirm] dialog. *)
Definition ShowDeleteConfirmation (confirmed : bool) (e : Editor) : Editor :=
  if confirmed then DeleteSelectedSprite e else e.

(** [addSpriteBtn] click (lines 326-337). *)
Definition addSpriteBtn_click (e : Editor) : Status * Editor :=
  match CreatePlaneSprite e with
  | (Some PlaneSprite, e1) =>
      let e2 := with_heap (THREE.add Scene PlaneSprite (heap e1)) e1 in
      let e3 := with_Sprites (Sprites e2 ++ [PlaneSprite]) e2 in
      SelectSprite (Some PlaneSprite) e3
  | (None, e1) => (Returned, e1)
  end.

(** *** Picking (lines 356-385) *)

(** The [while] loop of the click listener: climb from [Parent] while it
    has a parent other than the scene.  [None] when [fuel] iterations do not
    reach the top. *)
Fixpoint topLevelParent (fuel : nat) (h : Heap) (Parent : ref) : option ref :=
  match parent (h !!! Parent) with
  | Some p =>
      if decide (p = Scene) then Some Parent
      else match fuel with
           | 0 => None
           | S fuel' => topLevelParent fuel' h p
           end
  | None => Some Parent
  end.

(** The [for] loop: the first intersected object whose top-level parent is
    marked [isSprite].  The outer [None] is a [while] loop out of fuel. *)
Fixpoint findSpriteToSelect (fuel : nat) (h : Heap) (Intersects : list ref)
  : option (option ref) :=
  match Intersects with
  | [] => Some None
  | hit :: rest =>
      match topLevelParent fuel h hit with
      | None => None
      | Some Parent =>
          if isSprite (userData (h !!! Parent)) then Some (Some Parent)
          else findSpriteToSelect fuel h rest
      end
  end.

(** The click listener from the raycast on; [Intersects] lists the
    [object] of each intersection that [Raycaster.intersectObjects] returned,
    nearest first.  The store holds [nextRef] objects, so a parent chain
    without a cycle is climbed within [nextRef] steps. *)
Definition pick (Intersects : list ref) (e : Editor) : Status * Editor :=
  match findSpriteToSelect (nextRef e) (heap e) Intersects with
  | None => (Hung, e)
  | Some (Some SpriteToSelect) => SelectSprite (Some SpriteToSelect) e
  | Some None => (Returned, DeselectCurrentSprite e)
  end.

(** *** Keyboard and buttons (lines 133-146, 471-535) *)

(** The Space branch, written twice in the script: advance the gizmo mode
    when the gizmo is attached to an object. *)
Definition cycleMode (code : string) (e : Editor) : Editor :=
  if String.eqb code "Space" && bool_decide (is_Some (object (TransformControls e)))
  then
    let e1 := with_CurrentModeIndex
                ((CurrentModeIndex e + 1) mod length TransformModes) e in
    with_TransformControls
      (setMode (TransformModes !! CurrentModeIndex e1) (TransformControls e1)) e1
  else e.

(** The first [keydown] listener (lines 133-146). *)
Definition keydown_first (code : string) (e : Editor) : Editor :=
  let e1 := cycleMode code e in
  if String.eqb code "Escape"
  then with_TransformControls (detach (TransformControls e1)) e1
  else e1.

(** The Tab branch (lines 493-510). *)
Definition cycleNext (e : Editor) : Status * Editor :=
  if (0 <? Z.of_nat (length (Sprites e)))%Z then
    let NextIndex :=
      match SelectedSprite e with
      | Some sel =>
          let CurrentIndex := indexOf (Sprites e) sel in
          Z.rem (CurrentIndex + 1) (Z.of_nat (length (Sprites e)))
      | None => 0%Z
      end in
    SelectSprite (at_index (Sprites e) NextIndex) e
  else (Returned, e).

(** The second [keydown] listener (lines 471-511); [confirmed] answers the
    confirmation dialog if it is shown. *)
Definition keydown_second (code : string) (confirmed : bool) (e : Editor)
  : Status * Editor :=
  let e1 := cycleMode code e in
  let e2 := if String.eqb code "Escape" then DeselectCurrentSprite e1 else e1 in
  let e3 := if (String.eqb code "Delete" || String.eqb code "Backspace")
               && bool_decide (is_Some (SelectedSprite e2))
            then ShowDeleteConfirmation confirmed e2
            else e2 in
  if String.eqb code "Tab" then cycleNext e3 else (Returned, e3).

(** One key press: both listeners are registered on [document] and run in
    registration order. *)
Definition keydown (code : string) (confirmed : bool) (e : Editor)
  : Status * Editor :=
  keydown_second code confirmed (keydown_first code e).

(** The three mode buttons (lines 514-529). *)
Definition ModeButtons : list (string * TransformMode * nat) :=
  [("translateBtn"%string, translate, 0); ("rotateBtn"%string, rotate, 1);
   ("scaleBtn"%string, scale, 2)].

Definition modeBtn_click (Mode : TransformMode) (Index : nat) (e : Editor)
  : Editor :=
  if bool_decide (is_Some (object (TransformControls e)))
  then with_CurrentModeIndex Index
         (with_TransformControls (setMode (Some Mode) (TransformControls e)) e)
  else e.

(** [deleteBtn] click (lines 531-536). *)
Definition deleteBtn_click (confirmed : bool) (e : Editor) : Editor :=
  if bool_decide (is_Some (SelectedSprite e))
  then ShowDeleteConfirmation confirmed e
  else e.

(** ** The whole page: camera control (lines 1-167) around the editor *)

Record State := mkState {
  innerWidth : R;
  innerHeight : R;
  WINDOW_WIDTH : R;
  WINDOW_HEIGHT : R;
  RendererSize : R * R;
  Camera : PerspectiveCamera;
  Radius : R;
  Theta : R;
  Phi : R;
  IsDragging : bool;
  PreviousMousePosition : R * R;
  IsTransformActive : bool;
  Mouse : R * R;
  editor : Editor
}.

Definition with_window (w h : R) (s : State) : State :=
  mkState w h (WINDOW_WIDTH s) (WINDOW_HEIGHT s) (RendererSize s) (Camera s)
    (Radius s) (Theta s) (Phi s) (IsDragging s) (PreviousMousePosition s)
    (IsTransformActive s) (Mouse s) (editor s).
Definition with_RendererSize (d : R * R) (s : State) : State :=
  mkState (innerWidth s) (innerHeight s) (WINDOW_WIDTH s) (WINDOW_HEIGHT s) d
    (Camera s) (Radius s) (Theta s) (Phi s) (IsDragging s)
    (PreviousMousePosition s) (IsTransformActive s) (Mouse s) (editor s).
Definition with_Camera (c : PerspectiveCamera) (s : State) : State :=
  mkState (innerWidth s) (innerHeight s) (WINDOW_WIDTH s) (WINDOW_HEIGHT s)
    (RendererSize s) c (Radius s) (Theta s) (Phi s) (IsDragging s)
    (PreviousMousePosition s) (IsTransformActive s) (Mouse s) (editor s).
Definition with_Radius (r : R) (s : State) : State :=
  mkState (innerWidth s) (innerHeight s) (WINDOW_WIDTH s) (WINDOW_HEIGHT s)
    (RendererSize s) (Camera s) r (Theta s) (Phi s) (IsDragging s)
    (PreviousMousePosition s) (IsTransformActive s) (Mouse s) (editor s).
Definition with_Theta (t : R) (s : State) : State :=
  mkState (innerWidth s) (innerHeight s) (WINDOW_WIDTH s) (WINDOW_HEIGHT s)
    (RendererSize s) (Camera s) (Radius s) t (Phi s) (IsDragging s)
    (PreviousMousePosition s) (IsTransformActive s) (Mouse s) (editor s).
Definition with_Phi (p : R) (s : State) : State :=
  mkState (innerWidth s) (innerHeight s) (WINDOW_WIDTH s) (WINDOW_HEIGHT s)
    (RendererSize s) (Camera s) (Radius s) (Theta s) p (IsDragging s)
    (PreviousMousePosition s) (IsTransformActive s) (Mouse s) (editor s).
Definition with_IsDragging (b : bool) (s : State) : State :=
  mkState (innerWidth s) (innerHeight s) (WINDOW_WIDTH s) (WINDOW_HEIGHT s)
    (RendererSize s) (Camera s) (Radius s) (Theta s) (Phi s) b
    (PreviousMousePosition s) (IsTransformActive s) (Mouse s) (editor s).
Definition with_PreviousMousePosition (p : R * R) (s : State) : State :=
  mkState (innerWidth s) (innerHeight s) (WINDOW_WIDTH s) (WINDOW_HEIGHT s)
    (RendererSize s) (Camera s) (Radius s) (Theta s) (Phi s) (IsDragging s)
    p (IsTransformActive s) (Mouse s) (editor s).
Definition with_IsTransformActive (b : bool) (s : State) : State :=
  mkState (innerWidth s) (innerHeight s) (WINDOW_WIDTH s) (WINDOW_HEIGHT s)
    (RendererSize s) (Camera s) (Radius s) (Theta s) (Phi s) (IsDragging s)
    (PreviousMousePosition s) b (Mouse s) (editor s).
Definition with_Mouse (m : R * R) (s : State) : State :=
  mkState (innerWidth s) (innerHeight s) (WINDOW_WIDTH s) (WINDOW_HEIGHT s)
    (RendererSize s) (Camera s) (Radius s) (Theta s) (Phi s) (IsDragging s)
    (PreviousMousePosition s) (IsTransformActive s) m (editor s).
Definition with_editor (e : Editor) (s : State) : State :=
  mkState (innerWidth s) (innerHeight s) (WINDOW_WIDTH s) (WINDOW_HEIGHT s)
    (RendererSize s) (Camera s) (Radius s) (Theta s) (Phi s) (IsDragging s)
    (PreviousMousePosition s) (IsTransformActive s) (Mouse s) e.

(** *** Orbit camera (lines 35-118) *)

(** The constant [PhiClamped] of line 43. *)
Definition PhiClamped (s : State) : R :=
  Rmax 0.01 (Rmin (PI - 0.01) (Phi s)).

Definition UpdateCameraPosition (s : State) : State :=
  let c := Camera s in
  let c := set_position
             (mkVector3 (Radius s * sin (PhiClamped s) * sin (Theta s))
                        (y (position c)) (z (position c))) c in
  let c := set_position
             (mkVector3 (x (position c)) (Radius s * cos (PhiClamped s))
                        (z (position c))) c in
  let c := set_position
             (mkVector3 (x (position c)) (y (position c))
                        (Radius s * sin (PhiClamped s) * cos (Theta s))) c in
  with_Camera (lookAt 0 0 0 c) s.

(** The spec's formula for the camera position, as a function of the
    radius, the azimuth and the clamped polar angle. *)
Definition sphericalPosition (r azimuth polarClamped : R) : Vector3 :=
  mkVector3 (r * sin polarClamped * sin azimuth)
            (r * cos polarClamped)
            (r * sin polarClamped * cos azimuth).

Definition mousedown (button : Z) (clientX clientY : R) (s : State) : State :=
  if (button =? 2)%Z && negb (IsTransformActive s)
  then with_PreviousMousePosition (clientX, clientY) (with_IsDragging true s)
  else s.

Definition mouseup (s : State) : State := with_IsDragging false s.

Definition mouseleave (s : State) : State := with_IsDragging false s.

Definition mousemove (clientX clientY : R) (s : State) : State :=
  if negb (IsDragging s) || IsTransformActive s then s
  else
    let DeltaMove := ((clientX - fst (PreviousMousePosition s))%R,
                      (clientY - snd (PreviousMousePosition s))%R) in
    let ROTATESPEED := 0.005%R in
    let s1 := with_Theta (Theta s - fst DeltaMove * ROTATESPEED)%R s in
    let s2 := with_Phi (Phi s1 - snd DeltaMove * ROTATESPEED)%R s1 in
    let s3 := UpdateCameraPosition s2 in
    with_PreviousMousePosition (clientX, clientY) s3.

(** The [wheel] listener (lines 99-118), numbers read as reals.  Up to
    rounding this is the listener while [Radius] is a finite number; its
    arithmetic on binary64 numbers is [Binary64.wheel] below. *)
Definition wheel (deltaY : R) (s : State) : State :=
  if IsTransformActive s then s
  else
    let ZOOMINTENSITY := 0.5%R in
    let DELTA := if Rlt_dec 0 deltaY then 1%R else (-1)%R in
    let ZoomFactor := (ZOOMINTENSITY * Rmax 0.1 ((Radius s - 1) / 10))%R in
    let s1 := with_Radius (Radius s + DELTA * ZoomFactor)%R s in
    let s2 := with_Radius (Rmax 1.1 (Radius s1)) s1 in
    UpdateCameraPosition s2.

Definition dragging_changed (value : bool) (s : State) : State :=
  with_IsTransformActive value s.

(** *** The radius in binary64 (lines 36, 102-115) *)

Module Binary64.
Import PrimFloat.
#[local] Set Warnings "-inexact-float".

(** [Math.max(a, b)]: NaN as soon as one argument is NaN, otherwise the
    larger argument, [+0] counting as larger than [-0] (the sum of two
    zeros is [-0] only when both are). *)
Definition Math_max (a b : float) : float :=
  if is_nan a || is_nan b then nan
  else if (a <? b)%float then b
  else if (b <? a)%float then a
  else if (a =? 0)%float then (a + b)%float else a.

(** The wheel listener's arithmetic on [Radius] (lines 102-115), on
    binary64 numbers. *)
Definition wheel (IsTransformActive : bool) (deltaY Radius : float) : float :=
  if IsTransformActive then Radius
  else
    let ZOOMINTENSITY := 0.5%float in
    let DELTA := if (0 <? deltaY)%float then 1%float else (-1)%float in
    let ZoomFactor :=
      (ZOOMINTENSITY * Math_max 0.1 ((Radius - 1) / 10))%float in
    let Radius := (Radius + DELTA * ZoomFactor)%float in
    Math_max 1.1 Radius.

(** The successive values of [Radius] under wheel events with the given
    [deltaY]s, the gizmo idle. *)
Fixpoint radii (deltaYs : list float) (Radius : float) : list float :=
  match deltaYs with
  | [] => []
  | deltaY :: rest =>
      let Radius := wheel false deltaY Radius in Radius :: radii rest Radius
  end.

(** [Radius >= 1.1], as JavaScript evaluates it. *)
Definition aboveFloor (Radius : float) : bool := (1.1 <=? Radius)%float.

(** The initial [Radius] (line 36), one notch of scrolling down and one of
    scrolling up. *)
Definition Radius0 : float := 10%float.
Definition down : float := 100%float.
Definition up : float := (-100)%float.

End Binary64.

(** The [resize] listener; the event has already changed the window's
    [innerWidth] and [innerHeight]. *)
Definition resize (s : State) : State :=
  let NewWidth := innerWidth s in
  let NewHeight := innerHeight s in
  let s1 := with_Camera (set_aspect (NewWidth / NewHeight)%R (Camera s)) s in
  with_RendererSize (NewWidth, NewHeight) s1.

(** The [click] listener (lines 344-386). *)
Definition click (button : Z) (clientX clientY : R) (Intersects : list ref)
    (s : State) : Status * State :=
  if (button =? 2)%Z || IsTransformActive s then (Returned, s)
  else
    let s1 := with_Mouse ((clientX / WINDOW_WIDTH s * 2 - 1)%R,
                          snd (Mouse s)) s in
    let s2 := with_Mouse (fst (Mouse s1),
                          (- (clientY / WINDOW_HEIGHT s1) * 2 + 1)%R) s1 in
    let r := pick Intersects (editor s2) in
    (fst r, with_editor (snd r) s2).

(** The state once the script has run to its end in a window of the given
    inner size. *)
Definition initialState (width height : R) : State :=
  UpdateCameraPosition
    (mkState width height width height (width, height)
       (mkCamera (mkVector3 0 0 0) InitialOrientation (width / height)%R)
       10%R (PI / 4)%R (PI / 4)%R false (0%R, 0%R) false (0%R, 0%R)
       initialEditor).

(** ** Events *)

Inductive Event :=
  | MouseDown (button : Z) (clientX clientY : R)
  | MouseUp
  | MouseLeave
  | MouseMove (clientX clientY : R)
  | Wheel (deltaY : R)
  | DraggingChanged (value : bool)
  | KeyDown (code : string) (confirmed : bool)
  | Resize (width height : R)
  | TextureLoaded (T : Texture)
  | ApplyFilterClick (value : string)
  | AddSpriteClick
  | Click (button : Z) (clientX clientY : R) (Intersects : list ref)
  | ModeButtonClick (i : nat)
  | DeleteClick (confirmed : bool).

Definition onEditor (f : Editor → Status * Editor) (s : State)
  : Status * State :=
  let r := f (editor s) in (fst r, with_editor (snd r) s).

Definition dispatch (ev : Event) (s : State) : Status * State :=
  match ev with
  | MouseDown button clientX clientY =>
      (Returned, mousedown button clientX clientY s)
  | MouseUp => (Returned, mouseup s)
  | MouseLeave => (Returned, mouseleave s)
  | MouseMove clientX clientY => (Returned, mousemove clientX clientY s)
  | Wheel deltaY => (Returned, wheel deltaY s)
  | DraggingChanged value => (Returned, dragging_changed value s)
  | KeyDown code confirmed => onEditor (keydown code confirmed) s
  | Resize width height => (Returned, resize (with_window width height s))
  | TextureLoaded T => onEditor (λ e, (Returned, textureLoaded T e)) s
  | ApplyFilterClick value =>
      onEditor (λ e, (Returned, applyFilterBtn_click value e)) s
  | AddSpriteClick => onEditor addSpriteBtn_click s
  | Click button clientX clientY Intersects =>
      click button clientX clientY Intersects s
  | ModeButtonClick i =>
      match ModeButtons !! i with
      | Some (_, Mode, Index) =>
          onEditor (λ e, (Returned, modeBtn_click Mode Index e)) s
      | None => (Returned, s)
      end
  | DeleteClick confirmed =>
      onEditor (λ e, (Returned, deleteBtn_click confirmed e)) s
  end.

(** The objects below [r], [r] included, to depth [fuel]. *)
Fixpoint subtree (fuel : nat) (h : Heap) (r : ref) : list ref :=
  r :: match fuel with
       | 0 => []
       | S fuel' => children (h !!! r) ≫= subtree fuel' h
       end.

(** What [Raycaster.intersectObjects(Scene.children, true)] tests: the
    children of the scene and everything below them. *)
Definition sceneObjects (e : Editor) : list ref :=
  children (heap e !!! Scene) ≫= subtree (nextRef e) (heap e).

(** The selection outlines in the scene, as a list. *)
Definition sceneOutlines (e : Editor) : list ref :=
  filter (λ r, otype (heap e !!! r) = LineSegmentsT) (sceneObjects e).

(** An event the browser can deliver in state [s]: a click reports
    intersections with objects of the scene only.  The handles inside the
    gizmo are not modelled; a hit on one of them is a hit on
    [TransformControlsObj], the top-level parent the click listener climbs
    to. *)
Definition valid_event (ev : Event) (s : State) : Prop :=
  match ev with
  | Click _ _ _ Intersects => ∀ r, r ∈ Intersects → r ∈ sceneObjects (editor s)
  | _ => True
  end.

(** [steps s0 s]: valid events lead from [s0] to [s], no listener hanging
    on the way. *)
Inductive steps (s0 : State) : State → Prop :=
  | steps_refl : steps s0 s0
  | steps_step s ev st s' :
      steps s0 s →
      valid_event ev s →
      dispatch ev s = (st, s') →
      st ≠ Hung →
      steps s0 s'.

(** States the page can be in when it starts in a window of the given
    inner size. *)
Definition reachable (width height : R) : State → Prop :=
  steps (initialState width height).

(** Running a list of events, stopping at a listener that hangs. *)
Fixpoint run (events : list Event) (s : State) : Status * State :=
  match events with
  | [] => (Returned, s)
  | ev :: rest =>
      match dispatch ev s with
      | (Hung, s') => (Hung, s')
      | (_, s') => run rest s'
      end
  end.

(** ** The shape of the store *)

(** [c] is a childless object of type [t] whose parent is [g]. *)
Definition is_leaf (h : Heap) (t : ObjectType) (g c : ref) : Prop :=
  otype (h !!! c) = t ∧ parent (h !!! c) = Some g ∧ children (h !!! c) = [].

(** A sprite group as [CreatePlaneSprite] builds it; it carries an outline
    exactly when it is [sel]. *)
Definition sprite_ok (h : Heap) (n : ref) (sel : option ref) (g : ref) : Prop :=
  g < n ∧ otype (h !!! g) = GroupT ∧ parent (h !!! g) = Some Scene ∧
  isSprite (userData (h !!! g)) = true ∧
  ∃ p b, visiblePlane (userData (h !!! g)) = Some p ∧ p < n ∧ b < n ∧
    is_leaf h MeshT g p ∧ is_leaf h MeshT g b ∧
    if decide (sel = Some g)
    then ∃ ol, ol < n ∧ selectionOutline (userData (h !!! g)) = Some ol ∧
               children (h !!! g) = [p; b; ol] ∧ is_leaf h LineSegmentsT g ol
    else selectionOutline (userData (h !!! g)) = None ∧
         children (h !!! g) = [p; b].

(** The scene holds the grid, the axes, the gizmo and the sprites of the
    collection, in that order; [n] bounds the allocated references. *)
Record Shape (h : Heap) (n : ref) (sprites : list ref) (sel : option ref)
  : Prop := mkShape {
  shape_scene_type : otype (h !!! Scene) = SceneT;
  shape_scene_children :
    children (h !!! Scene)
    = [GridHelper; AxesHelper; TransformControlsObj] ++ sprites;
  shape_grid : is_leaf h GridHelperT Scene GridHelper;
  shape_axes : is_leaf h AxesHelperT Scene AxesHelper;
  shape_controls : is_leaf h TransformControlsT Scene TransformControlsObj;
  shape_grid_data : isSprite (userData (h !!! GridHelper)) = false;
  shape_axes_data : isSprite (userData (h !!! AxesHelper)) = false;
  shape_controls_data :
    isSprite (userData (h !!! TransformControlsObj)) = false;
  shape_next : 4 ≤ n;
  shape_nodup : NoDup sprites;
  shape_sprites : ∀ g, g ∈ sprites → sprite_ok h n sel g
}.

(** The invariant of the editor. *)
Record Inv (e : Editor) : Prop := mkInv {
  inv_shape : Shape (heap e) (nextRef e) (Sprites e) (SelectedSprite e);
  inv_selected : ∀ g, SelectedSprite e = Some g → g ∈ Sprites e;
  inv_attached : object (TransformControls e) = SelectedSprite e;
  inv_mode_index : CurrentModeIndex e < length TransformModes;
  inv_mode :
    mode (TransformControls e) = TransformModes !! CurrentModeIndex e
}.

(** The outline removal shared by [SelectSprite] and
    [DeselectCurrentSprite]. *)
Definition clearOutline (g ol : ref) (h : Heap) : Heap :=
  modify (λ o, set_userData (set_selectionOutline None (userData o)) o) g
         (THREE.remove g ol h).

(** The outline creation at the end of [SelectSprite]. *)
Definition addOutline (g n : ref) (h : Heap) : Heap :=
  modify (λ o, set_userData (set_selectionOutline (Some n) (userData o)) o) g
         (THREE.add g n (<[n := newObject LineSegmentsT]> h)).

(** The two removals of [DeleteSelectedSprite]. *)
Definition deleteFromScene (g ol : ref) (h : Heap) : Heap :=
  THREE.remove Scene g (THREE.remove g ol h).

(** [e'] comes after [e]: references are only ever added, an allocated
    object keeps its type, and the collection gains fresh sprites only. *)
Definition extends (e e' : Editor) : Prop :=
  nextRef e ≤ nextRef e' ∧
  (∀ r, r < nextRef e → otype (heap e' !!! r) = otype (heap e !!! r)) ∧
  (∀ g, g ∈ Sprites e' → g ∈ Sprites e ∨ nextRef e ≤ g).

(** The store once the outline of the current selection, if any, is gone. *)
Definition outlineCleared (e : Editor) : Heap :=
  match SelectedSprite e with
  | Some sel =>
      match selectionOutline (userData (heap e !!! sel)) with
      | Some ol => clearOutline sel ol (heap e)
      | None => heap e
      end
  | None => heap e
  end.

(** The sprite that Tab moves the selection to. *)
Definition nextSprite (e : Editor) : option ref :=
  match SelectedSprite e with
  | Some sel =>
      at_index (Sprites e)
        (Z.rem (indexOf (Sprites e) sel + 1) (Z.of_nat (length (Sprites e))))
  | None => Sprites e !! 0
  end.

(** [g] carries an outline decoration: one of its children is a
    [LineSegments] object. *)
Definition hasOutline (e : Editor) (g : ref) : Prop :=
  ∃ ol, ol ∈ children (heap e !!! g) ∧ otype (heap e !!! ol) = LineSegmentsT.

(** The invariant of the selection manager in the spec's words: at most one
    object of the scene is marked selected by an outline, an object carries an
    outline exactly when it is the selected one (as a child, and as the
    [selectionOutline] entry of its [userData]), the gizmo is attached
    exactly when something is selected, and the scene holds one outline when
    there is a selection and none otherwise. *)
Definition SelectionInvariant (e : Editor) : Prop :=
  (∀ g1 g2, g1 ∈ sceneObjects e → g2 ∈ sceneObjects e →
            hasOutline e g1 → hasOutline e g2 → g1 = g2) ∧
  (∀ g, g ∈ sceneObjects e → hasOutline e g ↔ SelectedSprite e = Some g) ∧
  (∀ g, g ∈ Sprites e →
        is_Some (selectionOutline (userData (heap e !!! g)))
        ↔ SelectedSprite e = Some g) ∧
  (is_Some (object (TransformControls e)) ↔ is_Some (SelectedSprite e)) ∧
  length (sceneOutlines e)
  = match SelectedSprite e with Some _ => 1 | None => 0 end.

(** The four operations of the selection manager. *)
Inductive SelectionOp :=
  | OpSelect (g : ref)
  | OpDeselect
  | OpDelete
  | OpCycle.

Definition applyOp (op : SelectionOp) (e : Editor) : Status * Editor :=
  match op with
  | OpSelect g => SelectSprite (Some g) e
  | OpDeselect => (Returned, DeselectCurrentSprite e)
  | OpDelete => (Returned, DeleteSelectedSprite e)
  | OpCycle => cycleNext e
  end.

(** [SelectSprite] is only ever called on a sprite of the collection. *)
Definition op_enabled (op : SelectionOp) (e : Editor) : Prop :=
  match op with
  | OpSelect g => g ∈ Sprites e
  | _ => True
  end.

(** [k] presses of Tab in a row. *)
Fixpoint cycleTimes (k : nat) (e : Editor) : Status * Editor :=
  match k with
  | 0 => (Returned, e)
  | S k' =>
      match cycleNext e with
      | (Returned, e1) => cycleTimes k' e1
      | r => r
      end
  end.

(** ** Sample states *)

(** A freshly loaded texture. *)
Definition sampleTexture : Texture :=
  mkTexture (Some LinearFilter) (Some LinearFilter) true false.

(** One sprite, added and therefore selected. *)
Definition oneSprite : Editor :=
  (addSpriteBtn_click (textureLoaded sampleTexture initialEditor)).2.

(** Two sprites, the second one selected. *)
Definition twoSprites : Editor := (addSpriteBtn_click oneSprite).2.

(** Three sprites and no selection. *)
Definition threeSpritesIdle : Editor :=
  DeselectCurrentSprite (addSpriteBtn_click twoSprites).2.

(** A page with one sprite, selected, while the gizmo reports a drag. *)
Definition draggingState : State :=
  with_IsTransformActive true
    (with_editor oneSprite (initialState 800 600)).

(** ** Further notions: camera sync, number range, drags, repeated keys,
    textures *)

(** The camera follows the orbit values and faces the origin. *)
Definition CameraSync (s : State) : Prop :=
  (1.1 <= Radius s)%R ∧
  position (Camera s) = sphericalPosition (Radius s) (Theta s) (PhiClamped s) ∧
  orientation (Camera s) = LookingAt (position (Camera s)) (mkVector3 0 0 0).

(** [Number.MAX_VALUE], the largest finite binary64 number. *)
Definition MAX_VALUE : R := IZR ((2 ^ 53 - 1) * 2 ^ 971).

(** The number of wheel events in a list of events. *)
Fixpoint wheelEvents (events : list Event) : nat :=
  match events with
  | [] => 0
  | Wheel _ :: rest => S (wheelEvents rest)
  | _ :: rest => wheelEvents rest
  end.

(** The number of wheel events after which the real-number reading of
    [Radius] is still below [MAX_VALUE]. *)
Definition MAX_WHEEL_EVENTS : nat := Z.to_nat 14000.

(** The events of a drag with the right button: the press at [(x0, y0)],
    then one [mousemove] per point of [moves]. *)
Definition dragEvents (x0 y0 : R) (moves : list (R * R)) : list Event :=
  MouseDown 2 x0 y0 :: map (λ p, MouseMove p.1 p.2) moves.

(** [k] presses of the same key in a row. *)
Fixpoint keydownTimes (code : string) (confirmed : bool) (k : nat) (e : Editor)
  : Status * Editor :=
  match k with
  | 0 => (Returned, e)
  | S k' =>
      match keydown code confirmed e with
      | (Returned, e1) => keydownTimes code confirmed k' e1
      | r => r
      end
  end.

(** What the selection code never writes: an object's texture and the
    [userData] keys set by [CreatePlaneSprite]. *)
Definition texturePart (o : Object3D)
  : option Texture * option ref * option string * bool :=
  (material_map o, visiblePlane (userData o), filterType (userData o),
   isSprite (userData o)).

(** Every sprite of the collection shows a plane that carries a texture. *)
Definition TexInv (e : Editor) : Prop :=
  ∀ g : ref, g ∈ Sprites e →
       ∃ (p : ref) T, visiblePlane (userData (heap e !!! g)) = Some p ∧
              material_map (heap e !!! p) = Some T.

(** * Properties *)

(** ** Orbit camera *)

Section OrbitCamera.
Local Open Scope R_scope.

Lemma PI_lower_bound : 3 < PI.
Proof. pose proof PI2_3_2. unfold PI2 in *. lra. Qed.

Lemma Rmax_cases (a b : R) : (a <= b ∧ Rmax a b = b) ∨ (b < a ∧ Rmax a b = a).
Proof. unfold Rmax. destruct (Rle_dec a b); [left | right]; split; lra. Qed.

Lemma Rmin_cases (a b : R) : (a <= b ∧ Rmin a b = a) ∨ (b < a ∧ Rmin a b = b).
Proof. unfold Rmin. destruct (Rle_dec a b); [left | right]; split; lra. Qed.

Lemma PhiClamped_bounds (s : State) : 0.01 <= PhiClamped s <= PI - 0.01.
Proof.
  unfold PhiClamped. pose proof PI_lower_bound.
  destruct (Rmin_cases (PI - 0.01) (Phi s)) as [[? ->] | [? ->]];
    destruct (Rmax_cases 0.01 (PI - 0.01)) as [[? Hm] | [? Hm]];
    destruct (Rmax_cases 0.01 (Phi s)) as [[? Hp] | [? Hp]];
    rewrite ?Hm, ?Hp; lra.
Qed.

Lemma UpdateCameraPosition_position (s : State) :
  position (Camera (UpdateCameraPosition s))
  = sphericalPosition (Radius s) (Theta s) (PhiClamped s).
Proof. reflexivity. Qed.

Lemma UpdateCameraPosition_idempotent (s : State) :
  UpdateCameraPosition (UpdateCameraPosition s) = UpdateCameraPosition s.
Proof. reflexivity. Qed.

End OrbitCamera.


Lemma modify_lookup f r h r' :
  modify f r h !!! r' = if decide (r' = r) then f (h !!! r) else h !!! r'.
Proof.
  unfold modify. case_decide as Hd.
  - subst. apply lookup_total_insert_eq.
  - apply lookup_total_insert_ne. congruence.
Qed.

Lemma insert_lookup (h : Heap) r o r' :
  <[r := o]> h !!! r' = if decide (r' = r) then o else h !!! r'.
Proof.
  case_decide as Hd.
  - subst. apply lookup_total_insert_eq.
  - apply lookup_total_insert_ne. congruence.
Qed.

Lemma remove_lookup h this obj r :
  indexOf (children (h !!! this)) obj ≠ (-1)%Z →
  this ≠ obj →
  remove this obj h !!! r =
    if decide (r = this)
    then set_children (splice1 (indexOf (children (h !!! this)) obj)
                               (children (h !!! this))) (h !!! this)
    else if decide (r = obj) then set_parent None (h !!! obj)
    else h !!! r.
Proof.
  intros Hi Hne. unfold remove.
  destruct (Z.eqb_spec (indexOf (children (h !!! this)) obj) (-1)); [done|].
  rewrite !modify_lookup. repeat case_decide; subst; try done.
Qed.

Lemma add_lookup h this obj r :
  parent (h !!! obj) = None →
  obj ≠ this →
  add this obj h !!! r =
    if decide (r = this)
    then set_children (children (h !!! this) ++ [obj]) (h !!! this)
    else if decide (r = obj) then set_parent (Some this) (h !!! obj)
    else h !!! r.
Proof.
  intros Hp Hne. unfold add. rewrite decide_False by done. rewrite Hp.
  rewrite !modify_lookup. repeat case_decide; subst; try done.
Qed.

(** Distinct objects are told apart by their type, their parent or their
    age. *)
Ltac ref_ne :=
  unfold Scene, GridHelper, AxesHelper, TransformControlsObj in *;
  first [ done | lia | congruence
        | let E := fresh in intros E; subst; first [ lia | congruence ]
        | let E := fresh in intros E; rewrite E in *; congruence
        | let E := fresh in intros E; rewrite <- E in *; congruence ].

Lemma indexOf_third (p b ol : ref) :
  ol ≠ p → ol ≠ b → indexOf [p; b; ol] ol = 2%Z.
Proof.
  intros. simpl. rewrite (decide_False (P := p = ol)) by done.
  rewrite (decide_False (P := b = ol)) by done.
  rewrite decide_True by done. reflexivity.
Qed.


Lemma is_leaf_frame h h' t g c :
  h' !!! c = h !!! c → is_leaf h t g c → is_leaf h' t g c.
Proof. unfold is_leaf. intros ->. done. Qed.

Lemma clearOutline_lookup h g p b ol r :
  children (h !!! g) = [p; b; ol] → ol ≠ p → ol ≠ b → ol ≠ g →
  clearOutline g ol h !!! r =
    if decide (r = g)
    then set_userData (set_selectionOutline None (userData (h !!! g)))
           (set_children [p; b] (h !!! g))
    else if decide (r = ol) then set_parent None (h !!! ol)
    else h !!! r.
Proof.
  intros Hc ? ? ?. unfold clearOutline. rewrite modify_lookup.
  rewrite !remove_lookup; rewrite ?Hc, ?indexOf_third; try done.
  case_decide; [|done]. rewrite decide_True by done. reflexivity.
Qed.

Lemma shape_clear h n sp g :
  Shape h n sp (Some g) → g ∈ sp →
  ∃ ol, selectionOutline (userData (h !!! g)) = Some ol ∧
        Shape (clearOutline g ol h) n sp None ∧
        ∀ r, otype (clearOutline g ol h !!! r) = otype (h !!! r).
Proof.
  intros HS Hg. destruct HS as [Hst Hsc Hgr Hax Hco Hgd Had Hcd Hn Hnd Hspr].
  destruct (Hspr g Hg)
    as (Hlt & Hty & Hpar & Hsp & p & b & Hvp & Hp & Hb & Lp & Lb & Hsel).
  rewrite decide_True in Hsel by done.
  destruct Hsel as (ol & Hol & Hso & Hch & Lol).
  exists ol. split; [done|].
  destruct Lp as (Tp & Pp & Cp), Lb as (Tb & Pb & Cb), Lol as (Tol & Pol & Col).
  assert (ol ≠ p) by ref_ne. assert (ol ≠ b) by ref_ne.
  assert (ol ≠ g) by ref_ne.
  pose proof (clearOutline_lookup h g p b ol) as L.
  specialize (λ r, L r Hch ltac:(done) ltac:(done) ltac:(done)).
  destruct Hgr as (? & ? & ?), Hax as (? & ? & ?),
    Hco as (? & ? & ?).
  split; [|intros r; rewrite L; repeat case_decide; subst; done].
  split; unfold is_leaf; rewrite ?L; try done.
  all: try (rewrite !decide_False by ref_ne; done).
  intros g' Hg'.
  destruct (Hspr g' Hg')
    as (Hlt' & Hty' & Hpar' & Hsp' & p' & b' & Hvp' & Hp' & Hb' & Lp' & Lb' & Hsel').
  destruct Lp' as (Tp' & Pp' & Cp'), Lb' as (Tb' & Pb' & Cb').
  unfold sprite_ok, is_leaf. rewrite !L.
  destruct (decide (g' = g)) as [->|Hne].
  - simplify_eq. simpl. do 4 (split; [done|]).
    exists p, b. rewrite !L. rewrite !decide_False by ref_ne. done.
  - rewrite decide_False in Hsel' by congruence.
    rewrite (decide_False (P := g' = ol)) by ref_ne.
    do 4 (split; [done|]).
    exists p', b'. rewrite !L. rewrite !decide_False by ref_ne. done.
Qed.


Lemma addOutline_lookup h g n r :
  n ≠ g →
  addOutline g n h !!! r =
    if decide (r = g)
    then set_userData (set_selectionOutline (Some n) (userData (h !!! g)))
           (set_children (children (h !!! g) ++ [n]) (h !!! g))
    else if decide (r = n) then set_parent (Some g) (newObject LineSegmentsT)
    else h !!! r.
Proof.
  intros Hne. unfold addOutline. rewrite modify_lookup.
  rewrite !add_lookup; rewrite ?insert_lookup; rewrite ?decide_True by done;
    try done.
  case_decide.
  - subst. rewrite decide_True by done. rewrite decide_False by done. done.
  - repeat case_decide; done.
Qed.

Lemma shape_outline h n sp g :
  Shape h n sp None → g ∈ sp →
  Shape (addOutline g n h) (S n) sp (Some g) ∧
  ∀ r, r < n → otype (addOutline g n h !!! r) = otype (h !!! r).
Proof.
  intros HS Hg.
  destruct HS as [Hst Hsc Hgr Hax Hco Hgd Had Hcd Hn Hnd Hspr].
  destruct (Hspr g Hg)
    as (Hlt & Hty & Hpar & Hsp & p & b & Hvp & Hp & Hb & Lp & Lb & Hsel).
  rewrite decide_False in Hsel by done. destruct Hsel as (Hso & Hch).
  destruct Lp as (Tp & Pp & Cp), Lb as (Tb & Pb & Cb).
  assert (n ≠ g) as Hng by lia.
  pose proof (λ r, addOutline_lookup h g n r Hng) as L.
  destruct Hgr as (? & ? & ?), Hax as (? & ? & ?), Hco as (? & ? & ?).
  split; [|intros r ?; rewrite L; repeat case_decide; subst; first [done|lia]].
  split; unfold is_leaf; rewrite ?L; try done; try lia.
  all: try (rewrite !decide_False by ref_ne; done).
  intros g' Hg'.
  destruct (Hspr g' Hg')
    as (Hlt' & Hty' & Hpar' & Hsp' & p' & b' & Hvp' & Hp' & Hb' & Lp' & Lb' & Hsel').
  destruct Lp' as (Tp' & Pp' & Cp'), Lb' as (Tb' & Pb' & Cb').
  rewrite decide_False in Hsel' by done. destruct Hsel' as (Hso' & Hch').
  unfold sprite_ok, is_leaf. rewrite !L.
  destruct (decide (g' = g)) as [->|Hne].
  - simplify_eq. simpl. split; [lia|]. do 3 (split; [done|]).
    exists p, b. rewrite !L. rewrite !(decide_False (P := _ = g)) by ref_ne.
    rewrite !(decide_False (P := _ = n)) by ref_ne.
    rewrite decide_True by done.
    do 3 (split; [first [done|lia]|]). do 2 (split; [done|]).
    exists n. rewrite Hch, !L. rewrite decide_False by done.
    rewrite decide_True by done. simpl. repeat split; first [done | lia].
  - rewrite (decide_False (P := g' = n)) by ref_ne.
    split; [lia|]. do 3 (split; [done|]).
    exists p', b'. rewrite !L. rewrite !decide_False by ref_ne.
    repeat split; first [done | lia].
Qed.

(** *** [indexOf] and [splice] *)

Lemma indexOf_ge (l : list ref) x : (-1 ≤ indexOf l x)%Z.
Proof.
  induction l as [|y l IH]; simpl; [lia|].
  case_decide; [lia|]. destruct (Z.ltb_spec (indexOf l x) 0); lia.
Qed.

Lemma indexOf_not_elem (l : list ref) x : x ∉ l → indexOf l x = (-1)%Z.
Proof.
  induction l as [|y l IH]; simpl; [done|].
  intros Hx. apply not_elem_of_cons in Hx as [? ?].
  rewrite decide_False by done. rewrite IH by done. reflexivity.
Qed.

Lemma indexOf_elem (l : list ref) x : x ∈ l → (0 ≤ indexOf l x)%Z.
Proof.
  induction l as [|y l IH]; simpl; [by intros ?%elem_of_nil|].
  intros Hx. case_decide; [lia|].
  apply elem_of_cons in Hx as [?|Hx]; [congruence|].
  specialize (IH Hx). destruct (Z.ltb_spec (indexOf l x) 0); lia.
Qed.

Lemma indexOf_lookup (l : list ref) i x :
  NoDup l → l !! i = Some x → indexOf l x = Z.of_nat i.
Proof.
  intros Hnd. revert i. induction Hnd as [|y l Hy Hnd IH]; intros i Hi.
  - by rewrite lookup_nil in Hi.
  - destruct i as [|i]; simpl in *.
    + simplify_eq. by rewrite decide_True.
    + rewrite decide_False.
      * rewrite (IH i Hi). destruct (Z.ltb_spec (Z.of_nat i) 0); lia.
      * intros ->. apply Hy. eapply list_elem_of_lookup_2. done.
Qed.

Lemma filter_ne_id (l : list ref) x : x ∉ l → filter (λ y, y ≠ x) l = l.
Proof.
  induction l as [|y l IH]; [done|].
  intros Hx. apply not_elem_of_cons in Hx as [? ?].
  rewrite filter_cons_True by done. by rewrite IH.
Qed.

Lemma splice1_indexOf (l : list ref) x :
  NoDup l → splice1 (indexOf l x) l = filter (λ y, y ≠ x) l.
Proof.
  induction 1 as [|y l Hy Hnd IH]; [done|].
  simpl. case_decide as Hd.
  - subst. rewrite filter_cons_False by (intros ?; done).
    rewrite filter_ne_id by done. reflexivity.
  - rewrite filter_cons_True by done. rewrite <- IH.
    pose proof (indexOf_ge l x).
    unfold splice1. destruct (Z.ltb_spec (indexOf l x) 0) as [Hn|Hn]; simpl.
    + reflexivity.
    + destruct (Z.ltb_spec (indexOf l x + 1) 0); [lia|].
      replace (Z.to_nat (indexOf l x + 1)) with (S (Z.to_nat (indexOf l x)))
        by lia.
      reflexivity.
Qed.


Lemma shape_sprite_not_fixed h n sp sel g :
  Shape h n sp sel → g ∈ sp →
  g ≠ Scene ∧ g ≠ GridHelper ∧ g ≠ AxesHelper ∧ g ≠ TransformControlsObj.
Proof.
  intros [Hst Hsc Hgr Hax Hco Hgd Had Hcd Hn Hnd Hspr] Hg.
  destruct (Hspr g Hg) as (_ & Hty & _).
  destruct Hgr as (? & _), Hax as (? & _), Hco as (? & _).
  repeat split; ref_ne.
Qed.

Lemma shape_scene_nodup h n sp sel :
  Shape h n sp sel →
  NoDup ([GridHelper; AxesHelper; TransformControlsObj] ++ sp).
Proof.
  intros HS. pose proof (λ g, shape_sprite_not_fixed _ _ _ _ g HS) as Hf.
  apply NoDup_app. split; [|split].
  - by apply (bool_decide_unpack _).
  - intros r Hr Hr'. destruct (Hf r Hr') as (? & ? & ? & ?).
    repeat (apply elem_of_cons in Hr as [->|Hr]); try done.
    by apply elem_of_nil in Hr.
  - by destruct HS.
Qed.


Lemma shape_delete h n sp g :
  Shape h n sp (Some g) → g ∈ sp →
  ∃ ol, selectionOutline (userData (h !!! g)) = Some ol ∧
        Shape (deleteFromScene g ol h) n (filter (λ y, y ≠ g) sp) None ∧
        (∀ r, otype (deleteFromScene g ol h !!! r) = otype (h !!! r)) ∧
        (ol ∈ children (h !!! g)) ∧
        (ol ∉ children (deleteFromScene g ol h !!! g)) ∧
        parent (deleteFromScene g ol h !!! ol) = None ∧
        parent (deleteFromScene g ol h !!! g) = None.
Proof.
  intros HS Hg. pose proof (shape_scene_nodup _ _ _ _ HS) as Hnds.
  destruct (shape_sprite_not_fixed _ _ _ _ _ HS Hg) as (Hg0 & Hg1 & Hg2 & Hg3).
  pose proof (λ g, shape_sprite_not_fixed _ _ _ _ g HS) as Hfix.
  destruct HS as [Hst Hsc Hgr Hax Hco Hgd Had Hcd Hn Hnd Hspr].
  destruct (Hspr g Hg)
    as (Hlt & Hty & Hpar & Hsp & p & b & Hvp & Hp & Hb & Lp & Lb & Hsel).
  rewrite decide_True in Hsel by done.
  destruct Hsel as (ol & Hol & Hso & Hch & Lol).
  exists ol. split; [done|].
  destruct Lp as (Tp & Pp & Cp), Lb as (Tb & Pb & Cb), Lol as (Tol & Pol & Col).
  assert (ol ≠ p) by ref_ne. assert (ol ≠ b) by ref_ne.
  assert (ol ≠ g) by ref_ne. assert (Scene ≠ ol) by ref_ne.
  assert (∀ r, deleteFromScene g ol h !!! r =
    if decide (r = Scene)
    then set_children ([GridHelper; AxesHelper; TransformControlsObj]
                         ++ filter (λ y, y ≠ g) sp) (h !!! Scene)
    else if decide (r = g)
    then set_parent None (set_children [p; b] (h !!! g))
    else if decide (r = ol) then set_parent None (h !!! ol)
    else h !!! r) as L.
  { intros r. unfold deleteFromScene.
    assert (children (remove g ol h !!! Scene) = children (h !!! Scene)) as Hcs.
    { rewrite remove_lookup; rewrite ?Hch, ?indexOf_third; try done.
      rewrite !decide_False by done. done. }
    rewrite remove_lookup; rewrite ?Hcs, ?Hsc; [|
      pose proof (indexOf_elem
        ([GridHelper; AxesHelper; TransformControlsObj] ++ sp) g
        (proj2 (elem_of_app _ _ _) (or_intror Hg))); lia | done].
    rewrite splice1_indexOf by done.
    rewrite filter_app.
    replace (filter (λ y, y ≠ g) [GridHelper; AxesHelper; TransformControlsObj])
      with [GridHelper; AxesHelper; TransformControlsObj].
    2:{ rewrite !filter_cons_True by done. done. }
    rewrite !remove_lookup; rewrite ?Hch, ?indexOf_third; try done.
    rewrite (decide_False (P := Scene = g)) by done.
    rewrite (decide_False (P := Scene = ol)) by done.
    rewrite (decide_True (P := g = g)) by done.
    repeat case_decide; subst; done. }
  destruct Hgr as (? & ? & ?), Hax as (? & ? & ?), Hco as (? & ? & ?).
  split; [|split; [intros r; rewrite L; repeat case_decide; subst; done|]].
  2:{ rewrite !L, Hch. rewrite !(decide_False (P := _ = Scene)) by done.
      rewrite (decide_True (P := g = g)) by done.
      rewrite (decide_False (P := ol = g)) by done.
      rewrite (decide_True (P := ol = ol)) by done. simpl.
      split_and!; try done.
      - by do 2 right; left.
      - intros [?|[?|?%elem_of_nil]%elem_of_cons]%elem_of_cons; done. }
  split; unfold is_leaf; rewrite ?L; try done.
  all: try (rewrite (decide_False (P := _ = Scene)) by done;
            rewrite !decide_False by ref_ne; done).
  - by apply NoDup_filter.
  - intros g' [Hne Hg']%list_elem_of_filter.
    destruct (Hfix g' Hg') as (? & ? & ? & ?).
    destruct (Hspr g' Hg')
      as (Hlt' & Hty' & Hpar' & Hsp' & p' & b' & Hvp' & Hp' & Hb' & Lp' & Lb' & Hsel').
    destruct Lp' as (Tp' & Pp' & Cp'), Lb' as (Tb' & Pb' & Cb').
    rewrite decide_False in Hsel' by congruence.
    unfold sprite_ok, is_leaf. rewrite !L.
    rewrite !(decide_False (P := g' = _)) by ref_ne.
    do 4 (split; [done|]).
    exists p', b'. rewrite !L. rewrite !decide_False by ref_ne. done.
Qed.

(** The store after [CreatePlaneSprite] and [Scene.add]. *)
Lemma create_lookup (e : Editor) T e1 g r :
  UserTexture e = Some T →
  CreatePlaneSprite e = (Some g, e1) →
  4 ≤ nextRef e →
  g = nextRef e ∧ nextRef e1 = S (S (S (nextRef e))) ∧
  THREE.add Scene g (heap e1) !!! r =
    if decide (r = Scene)
    then set_children (children (heap e !!! Scene) ++ [g]) (heap e !!! Scene)
    else if decide (r = g)
    then mkObject3D GroupT (Some Scene) [S g; S (S g)]
           (mkUserData true (Some (S g)) (Some (CurrentFilterType e)) None) None
    else if decide (r = S g)
    then mkObject3D MeshT (Some g) [] noUserData
           (Some (ApplyTextureFilter T (CurrentFilterType e)))
    else if decide (r = S (S g))
    then mkObject3D MeshT (Some g) [] noUserData None
    else heap e !!! r.
Proof.
  intros HT Hc Hn. unfold CreatePlaneSprite in Hc. rewrite HT in Hc.
  simplify_eq. split; [done|]. split; [done|].
  cbn [heap with_heap with_nextRef].
  set (n := nextRef e) in *. set (h0 := heap e).
  set (P := set_material_map _ _).
  set (h2 := <[S n := P]> (<[n := newObject GroupT]> h0)).
  assert (∀ r, h2 !!! r = if decide (r = S n) then P
                          else if decide (r = n) then newObject GroupT
                          else h0 !!! r) as L2
    by (intros; unfold h2; by rewrite !insert_lookup).
  set (h3 := add n (S n) h2).
  assert (∀ r, h3 !!! r =
            if decide (r = n)
            then set_children [S n] (newObject GroupT)
            else if decide (r = S n) then set_parent (Some n) P
            else h0 !!! r) as L3.
  { intros r0. unfold h3. rewrite add_lookup; rewrite ?L2.
    - rewrite (decide_False (P := n = S n)) by lia.
      rewrite (decide_True (P := n = n)) by done.
      rewrite (decide_True (P := S n = S n)) by done.
      repeat case_decide; subst; try done; lia.
    - by rewrite decide_True.
    - lia. }
  set (h4 := <[S (S n) := newObject MeshT]> h3).
  set (h5 := add n (S (S n)) h4).
  assert (∀ r, h5 !!! r =
            if decide (r = n)
            then set_children [S n; S (S n)] (newObject GroupT)
            else if decide (r = S (S n))
            then set_parent (Some n) (newObject MeshT)
            else if decide (r = S n) then set_parent (Some n) P
            else h0 !!! r) as L5.
  { intros r0. unfold h5, h4. rewrite add_lookup; rewrite ?insert_lookup, ?L3.
    - rewrite (decide_False (P := n = S (S n))) by lia.
      rewrite (decide_True (P := n = n)) by done.
      rewrite (decide_True (P := S (S n) = S (S n))) by done.
      repeat case_decide; subst; try done; lia.
    - by rewrite decide_True.
    - lia. }
  match goal with
  | |- add Scene n (modify ?f3 n (modify ?f2 n (modify ?f1 n _))) !!! _ = _ =>
      set (h8 := modify f3 n (modify f2 n (modify f1 n h5)))
  end.
  assert (∀ r, h8 !!! r =
            if decide (r = n)
            then mkObject3D GroupT None [S n; S (S n)]
                   (mkUserData true (Some (S n)) (Some (CurrentFilterType e))
                      None) None
            else h5 !!! r) as L8.
  { intros r0. unfold h8. rewrite !modify_lookup, !L5.
    rewrite !(decide_True (P := n = n)) by done.
    case_decide; done. }
  assert (Scene ≠ n) by (unfold Scene; lia).
  rewrite add_lookup; rewrite ?L8, ?L5.
  - rewrite (decide_False (P := Scene = n)) by done.
    rewrite (decide_True (P := n = n)) by done.
    rewrite !(decide_False (P := Scene = _)) by (unfold Scene; lia).
    repeat case_decide; subst; try done; lia.
  - by rewrite decide_True.
  - done.
Qed.

Lemma shape_create (e : Editor) sel T e1 g :
  Shape (heap e) (nextRef e) (Sprites e) sel →
  (∀ g0, sel = Some g0 → g0 ∈ Sprites e) →
  UserTexture e = Some T →
  CreatePlaneSprite e = (Some g, e1) →
  g = nextRef e ∧
  Shape (THREE.add Scene g (heap e1)) (nextRef e1) (Sprites e ++ [g]) sel ∧
  ∀ r, r < nextRef e →
       otype (THREE.add Scene g (heap e1) !!! r) = otype (heap e !!! r).
Proof.
  intros HS Hsel HT Hc.
  pose proof (λ g, shape_sprite_not_fixed _ _ _ _ g HS) as Hfix.
  destruct HS as [Hst Hsc Hgr Hax Hco Hgd Had Hcd Hn Hnd Hspr].
  pose proof (λ r, create_lookup e T e1 g r HT Hc Hn) as L.
  destruct (L 0) as (-> & Hn1 & _).
  assert (∀ r, add Scene (nextRef e) (heap e1) !!! r = _) as L'
    by (intros r; apply (L r)).
  clear L. rewrite Hn1. set (n := nextRef e) in *.
  destruct Hgr as (? & ? & ?), Hax as (? & ? & ?), Hco as (? & ? & ?).
  split; [done|].
  split; [|intros r ?; rewrite L'; repeat case_decide; subst; first [done|lia]].
  split; unfold is_leaf; rewrite ?L'; try done; try lia.
  all: try (rewrite ?decide_True by done; rewrite ?decide_False by ref_ne;
            simpl; done).
  - rewrite decide_True by done. simpl. rewrite Hsc. by rewrite <- app_assoc.
  - apply NoDup_app. split; [done|]. split; [|apply NoDup_singleton].
    intros r Hr ->%list_elem_of_singleton.
    destruct (Hspr n Hr) as (? & _). lia.
  - intros g' [Hg'| ->%list_elem_of_singleton]%elem_of_app.
    + destruct (Hfix g' Hg') as (? & ? & ? & ?).
      destruct (Hspr g' Hg')
        as (Hlt' & Hty' & Hpar' & Hsp' & p' & b' & Hvp' & Hp' & Hb' & Lp' & Lb' & Hsel').
      destruct Lp' as (Tp' & Pp' & Cp'), Lb' as (Tb' & Pb' & Cb').
      unfold sprite_ok, is_leaf. rewrite !L'.
      rewrite !(decide_False (P := g' = _)) by ref_ne.
      split; [lia|]. do 3 (split; [done|]).
      exists p', b'. rewrite !L'. rewrite !decide_False by ref_ne.
      do 3 (split; [first [done|lia]|]). do 2 (split; [done|]).
      case_decide; [|done].
      destruct Hsel' as (ol & ? & ? & ? & Tol & Pol & Col).
      exists ol. rewrite !L'. rewrite !decide_False by ref_ne.
      repeat split; first [done|lia].
    + unfold sprite_ok, is_leaf. rewrite !L'.
      rewrite !(decide_False (P := n = Scene)) by ref_ne.
      rewrite !(decide_True (P := n = n)) by done. simpl.
      split; [lia|]. do 3 (split; [done|]).
      exists (S n), (S (S n)). rewrite !L'.
      rewrite !(decide_False (P := _ = Scene)) by ref_ne.
      rewrite !(decide_False (P := _ = n)) by lia.
      rewrite !(decide_True (P := S n = S n)) by done.
      rewrite !(decide_False (P := S (S n) = S n)) by lia.
      rewrite !(decide_True (P := S (S n) = S (S n))) by done. simpl.
      do 3 (split; [first [done|lia]|]). do 2 (split; [done|]).
      rewrite decide_False; [done|].
      intros E. specialize (Hsel _ E). destruct (Hspr n Hsel) as (? & _). lia.
Qed.

Lemma shape_material h n sp sel T r :
  Shape h n sp sel → Shape (modify (set_material_map T) r h) n sp sel.
Proof.
  intros [Hst Hsc Hgr Hax Hco Hgd Had Hcd Hn Hnd Hspr].
  assert (∀ r', otype (modify (set_material_map T) r h !!! r')
                = otype (h !!! r')) as Lt
    by (intros; rewrite modify_lookup; case_decide; subst; done).
  assert (∀ r', parent (modify (set_material_map T) r h !!! r')
                = parent (h !!! r')) as Lp
    by (intros; rewrite modify_lookup; case_decide; subst; done).
  assert (∀ r', children (modify (set_material_map T) r h !!! r')
                = children (h !!! r')) as Lc
    by (intros; rewrite modify_lookup; case_decide; subst; done).
  assert (∀ r', userData (modify (set_material_map T) r h !!! r')
                = userData (h !!! r')) as Lu
    by (intros; rewrite modify_lookup; case_decide; subst; done).
  split; unfold sprite_ok, is_leaf in *; try done.
  all: rewrite ?Lt, ?Lp, ?Lc, ?Lu; try done.
  intros g Hg. specialize (Hspr g Hg).
  rewrite ?Lt, ?Lp, ?Lc, ?Lu.
  destruct Hspr as (? & ? & ? & ? & p & b & Hrest).
  do 4 (split; [done|]). exists p, b.
  rewrite ?Lt, ?Lp, ?Lc, ?Lu.
  destruct Hrest as (? & ? & ? & ? & ? & Hsel).
  do 5 (split; [done|]).
  case_decide; [|done].
  destruct Hsel as (ol & ?). exists ol. by rewrite ?Lt, ?Lp, ?Lc, ?Lu.
Qed.



Lemma extends_refl e : extends e e.
Proof. repeat split; auto. Qed.

Lemma extends_trans e1 e2 e3 : extends e1 e2 → extends e2 e3 → extends e1 e3.
Proof.
  intros (Hn & Ht & Hs) (Hn' & Ht' & Hs'). repeat split.
  - lia.
  - intros r Hr. rewrite Ht' by lia. by apply Ht.
  - intros g Hg. destruct (Hs' g Hg) as [?|?]; [|right; lia].
    destruct (Hs g) as [?|?]; auto.
Qed.

Lemma Shape_initial : Shape initialHeap 4 [] None.
Proof.
  split; unfold is_leaf; try (vm_compute; done).
  - constructor.
  - intros g Hg. by apply elem_of_nil in Hg.
Qed.

Lemma Inv_initial : Inv initialEditor.
Proof.
  split; simpl; try done.
  - apply Shape_initial.
  - lia.
Qed.


Lemma outlineCleared_shape e :
  Inv e →
  Shape (outlineCleared e) (nextRef e) (Sprites e) None ∧
  ∀ r, otype (outlineCleared e !!! r) = otype (heap e !!! r).
Proof.
  intros [HS Hsel Hatt Hmi Hm]. unfold outlineCleared.
  destruct (SelectedSprite e) as [g0|] eqn:E; [|done].
  destruct (shape_clear _ _ _ _ HS (Hsel _ eq_refl)) as (ol & -> & ? & ?).
  done.
Qed.

Lemma SelectSprite_spec e g :
  Inv e → g ∈ Sprites e →
  ∃ e', SelectSprite (Some g) e = (Returned, e') ∧ Inv e' ∧
        SelectedSprite e' = Some g ∧ Sprites e' = Sprites e ∧
        CurrentModeIndex e' = CurrentModeIndex e ∧
        UserTexture e' = UserTexture e ∧
        heap e' = addOutline g (nextRef e) (outlineCleared e) ∧
        nextRef e' = S (nextRef e) ∧
        extends e e'.
Proof.
  intros HI Hg. destruct (outlineCleared_shape e HI) as (HS1 & Ht1).
  destruct HI as [HS Hsel Hatt Hmi Hm].
  assert (SelectSprite (Some g) e =
    let e4 := with_TransformControls
                (setMode (TransformModes !! CurrentModeIndex e)
                   (attach (Some g) (TransformControls e)))
                (with_SelectedSprite (Some g)
                   (with_heap (outlineCleared e) e)) in
    match visiblePlane (userData (outlineCleared e !!! g)) with
    | None => (Threw, e4)
    | Some _ =>
        (Returned,
         with_heap (addOutline g (nextRef e) (outlineCleared e))
           (with_nextRef (S (nextRef e)) e4))
    end) as ->.
  { unfold SelectSprite, outlineCleared.
    destruct (SelectedSprite e) as [g0|]; [|done].
    destruct (selectionOutline (userData (heap e !!! g0))); done. }
  destruct (shape_sprites _ _ _ _ HS1 g Hg) as (_ & _ & _ & _ & p & b & -> & _).
  destruct (shape_outline _ _ _ _ HS1 Hg) as (HS2 & Ht2).
  simpl. eexists. split; [done|]. simpl.
  split; [|repeat split; simpl; try done; try lia].
  - split; simpl; try done. by intros ? [= <-].
  - intros r Hr. rewrite Ht2 by done. apply Ht1.
  - auto.
Qed.

Lemma DeselectCurrentSprite_spec e :
  Inv e →
  let e' := DeselectCurrentSprite e in
  Inv e' ∧ SelectedSprite e' = None ∧ Sprites e' = Sprites e ∧
  CurrentModeIndex e' = CurrentModeIndex e ∧
  UserTexture e' = UserTexture e ∧
  heap e' = outlineCleared e ∧ nextRef e' = nextRef e ∧ extends e e'.
Proof.
  intros HI. destruct (outlineCleared_shape e HI) as (HS1 & Ht1).
  destruct HI as [HS Hsel Hatt Hmi Hm].
  assert (DeselectCurrentSprite e =
    match SelectedSprite e with
    | Some _ =>
        with_SelectedSprite None
          (with_heap (outlineCleared e)
             (with_TransformControls (detach (TransformControls e)) e))
    | None => e
    end) as ->.
  { unfold DeselectCurrentSprite, outlineCleared.
    destruct (SelectedSprite e) as [g0|]; [|done]. simpl.
    destruct (selectionOutline (userData (heap e !!! g0))); done. }
  unfold outlineCleared in *.
  destruct (SelectedSprite e) as [g0|] eqn:E; simpl.
  - split; [|repeat split; simpl; auto].
    split; simpl; try done.
  - rewrite E. split; [|repeat split; simpl; auto].
    split; simpl; try done; by rewrite ?E.
Qed.

Lemma DeleteSelectedSprite_spec e g :
  Inv e → SelectedSprite e = Some g →
  let e' := DeleteSelectedSprite e in
  Inv e' ∧ SelectedSprite e' = None ∧
  Sprites e' = filter (λ y, y ≠ g) (Sprites e) ∧
  CurrentModeIndex e' = CurrentModeIndex e ∧
  UserTexture e' = UserTexture e ∧
  nextRef e' = nextRef e ∧ extends e e' ∧
  ∃ ol, selectionOutline (userData (heap e !!! g)) = Some ol ∧
        (ol ∈ children (heap e !!! g)) ∧
        (ol ∉ children (heap e' !!! g)) ∧
        parent (heap e' !!! ol) = None ∧ parent (heap e' !!! g) = None.
Proof.
  intros [HS Hsel Hatt Hmi Hm] E.
  pose proof (Hsel g E) as Hg.
  destruct (shape_delete _ _ _ _ (eq_rect _ (Shape _ _ _) HS _ E) Hg)
    as (ol & Hol & HS' & Ht' & Hin & Hout & Hpo & Hpg).
  assert (DeleteSelectedSprite e =
    with_SelectedSprite None
      (with_TransformControls (detach (TransformControls e))
         (with_Sprites (filter (λ y, y ≠ g) (Sprites e))
            (with_heap (deleteFromScene g ol (heap e)) e)))) as ->.
  { unfold DeleteSelectedSprite. rewrite E, Hol. simpl.
    pose proof (indexOf_elem _ _ Hg).
    destruct (Z.gtb_spec (indexOf (Sprites e) g) (-1)); [|lia].
    rewrite splice1_indexOf by (by destruct HS). done. }
  simpl. split; [|split_and!; simpl; auto].
  - split; simpl; try done.
  - repeat split; simpl; auto.
    intros g' [_ ?]%list_elem_of_filter. auto.
  - by exists ol.
Qed.

Lemma addSpriteBtn_click_spec e :
  Inv e →
  ∃ e', addSpriteBtn_click e = (Returned, e') ∧ Inv e' ∧ extends e e' ∧
        CurrentModeIndex e' = CurrentModeIndex e ∧
        match UserTexture e with
        | None => e' = e
        | Some _ =>
            Sprites e' = Sprites e ++ [nextRef e] ∧
            SelectedSprite e' = Some (nextRef e)
        end.
Proof.
  intros HI. unfold addSpriteBtn_click.
  destruct (UserTexture e) as [T|] eqn:HT.
  2:{ unfold CreatePlaneSprite. rewrite HT. exists e.
      split_and!; auto using extends_refl. }
  destruct (CreatePlaneSprite e) as [[g|] e1] eqn:Hc;
    [|unfold CreatePlaneSprite in Hc; rewrite HT in Hc; done].
  destruct HI as [HS Hsel Hatt Hmi Hm].
  destruct (shape_create e _ T e1 g HS Hsel HT Hc) as (-> & HS' & Ht').
  assert (Sprites e1 = Sprites e ∧ SelectedSprite e1 = SelectedSprite e ∧
          TransformControls e1 = TransformControls e ∧
          CurrentModeIndex e1 = CurrentModeIndex e ∧
          UserTexture e1 = UserTexture e ∧
          nextRef e1 = S (S (S (nextRef e)))) as (Hs1 & Hse1 & Htc1 & Hm1 & Hu1 & Hn1).
  { unfold CreatePlaneSprite in Hc. rewrite HT in Hc. by simplify_eq. }
  set (e3 := with_Sprites _ _).
  assert (Inv e3) as HI3.
  { split; subst e3; simpl; rewrite ?Hs1, ?Hse1, ?Htc1, ?Hm1; try done.
    intros g0 Hg0. apply elem_of_app. left. by apply Hsel. }
  destruct (SelectSprite_spec e3 (nextRef e) HI3) as (e' & -> & HI' & Hsel' & Hsp' & Hmi' & _ & _ & _ & Hext).
  { subst e3. simpl. rewrite Hs1. apply elem_of_app. right. by left. }
  exists e'. split; [done|]. split; [done|].
  subst e3; simpl in *. rewrite Hs1 in Hsp'.
  split; [|by rewrite Hmi', Hm1].
  destruct Hext as (Hn & Ht & Hs). simpl in *. repeat split.
  - lia.
  - intros r Hr. rewrite Ht by lia. by apply Ht'.
  - intros g Hg. destruct (Hs g Hg) as [Hin|?]; [|right; lia].
    rewrite Hs1 in Hin.
    apply elem_of_app in Hin as [?| ->%list_elem_of_singleton]; auto.
Qed.


(** *** The scene graph under the invariant *)

Lemma subtree_leaf fuel h r : children (h !!! r) = [] → subtree fuel h r = [r].
Proof. intros Hc. destruct fuel; simpl; [done|]. by rewrite Hc. Qed.

Lemma bind_leaves fuel h (l : list ref) :
  (∀ c, c ∈ l → children (h !!! c) = []) → l ≫= subtree fuel h = l.
Proof.
  induction l as [|c l IH]; intros Hl; [done|].
  rewrite bind_cons. rewrite subtree_leaf by (apply Hl; by left).
  simpl. f_equal. apply IH. intros c' Hc'. apply Hl. by right.
Qed.

Lemma sprite_children_leaves h n sel g c :
  sprite_ok h n sel g → c ∈ children (h !!! g) →
  parent (h !!! c) = Some g ∧ children (h !!! c) = [] ∧
  otype (h !!! c) ≠ GroupT ∧
  (otype (h !!! c) = LineSegmentsT ↔
     sel = Some g ∧ selectionOutline (userData (h !!! g)) = Some c).
Proof.
  intros (_ & _ & _ & _ & p & b & _ & _ & _ & (Tp & Pp & Cp) & (Tb & Pb & Cb) & Hsel) Hc.
  case_decide as Hd.
  - destruct Hsel as (ol & _ & Hso & Hch & (Tol & Pol & Col)).
    rewrite Hch in Hc. rewrite Hso.
    apply elem_of_cons in Hc as [->|Hc]; [|apply elem_of_cons in Hc as [->|Hc]];
      [| |apply list_elem_of_singleton in Hc as ->].
    + split_and!; try done; try congruence. split; [congruence|].
      intros [_ [= <-]]. congruence.
    + split_and!; try done; try congruence. split; [congruence|].
      intros [_ [= <-]]. congruence.
    + split_and!; try done; congruence.
  - destruct Hsel as (Hso & Hch). rewrite Hch in Hc. rewrite Hso.
    apply elem_of_cons in Hc as [->|Hc];
      [|apply list_elem_of_singleton in Hc as ->].
    + split_and!; try done; try congruence. split; [congruence|]. by intros [? ?].
    + split_and!; try done; try congruence. split; [congruence|]. by intros [? ?].
Qed.

Lemma subtree_sprite fuel h n sel g :
  sprite_ok h n sel g → subtree (S fuel) h g = g :: children (h !!! g).
Proof.
  intros Hok. simpl. f_equal. apply bind_leaves.
  intros c Hc. by destruct (sprite_children_leaves _ _ _ _ _ Hok Hc) as (_ & ? & _).
Qed.

Lemma sceneObjects_shape e :
  Shape (heap e) (nextRef e) (Sprites e) (SelectedSprite e) →
  sceneObjects e
  = [GridHelper; AxesHelper; TransformControlsObj]
    ++ (Sprites e ≫= λ g, g :: children (heap e !!! g)).
Proof.
  intros [Hst Hsc (_ & _ & Cg) (_ & _ & Ca) (_ & _ & Cc) _ _ _ Hn Hnd Hspr].
  unfold sceneObjects. rewrite Hsc.
  destruct (nextRef e) as [|fuel] eqn:En; [lia|].
  rewrite bind_app. f_equal.
  - rewrite !bind_cons. simpl. by rewrite Cg, Ca, Cc.
  - apply Forall_bind_ext, Forall_forall. intros g Hg.
    eapply subtree_sprite. by apply Hspr.
Qed.

Lemma elem_of_sceneObjects e r :
  Shape (heap e) (nextRef e) (Sprites e) (SelectedSprite e) →
  r ∈ sceneObjects e ↔
    r ∈ [GridHelper; AxesHelper; TransformControlsObj] ∨
    ∃ g, g ∈ Sprites e ∧ (r = g ∨ r ∈ children (heap e !!! g)).
Proof.
  intros HS. rewrite (sceneObjects_shape e HS), elem_of_app, list_elem_of_bind.
  split; (intros [?|(g & ? & ?)]; [by left|right; exists g]).
  - rewrite elem_of_cons in *. tauto.
  - rewrite elem_of_cons. tauto.
Qed.

Lemma topLevelParent_spec e r :
  Shape (heap e) (nextRef e) (Sprites e) (SelectedSprite e) →
  r ∈ sceneObjects e →
  ∃ T, topLevelParent (nextRef e) (heap e) r = Some T ∧
       ((r = T ∧ isSprite (userData (heap e !!! T)) = false) ∨
        (T ∈ Sprites e ∧ r ∈ subtree (nextRef e) (heap e) T ∧
         isSprite (userData (heap e !!! T)) = true)).
Proof.
  intros HS Hr. apply (elem_of_sceneObjects e r HS) in Hr.
  pose proof (λ g, shape_sprite_not_fixed _ _ _ _ g HS) as Hfix.
  destruct HS as [Hst Hsc (_ & Pg & _) (_ & Pa & _) (_ & Pc & _) Hgd Had Hcd Hn Hnd Hspr].
  destruct (nextRef e) as [|fuel] eqn:En; [lia|].
  destruct Hr as [Hr|(g & Hg & Hr)].
  - exists r. split; [|left; split; [done|]];
      repeat (apply elem_of_cons in Hr as [->|Hr]); try by apply elem_of_nil in Hr.
    all: try done.
    all: simpl; rewrite ?Pg, ?Pa, ?Pc; by rewrite decide_True.
  - exists g. pose proof (Hspr g Hg) as Hok.
    destruct (Hfix g Hg) as (Hg0 & _).
    assert (parent (heap e !!! g) = Some Scene ∧
            isSprite (userData (heap e !!! g)) = true) as (Pg' & Sg)
      by (destruct Hok as (_ & _ & ? & ? & _); done).
    rewrite (subtree_sprite fuel _ _ _ _ Hok).
    destruct Hr as [->|Hr].
    + split; [|right; split_and!; [done|by left|done]].
      simpl. rewrite Pg'. by rewrite decide_True.
    + destruct (sprite_children_leaves _ _ _ _ _ Hok Hr) as (Pr & _).
      split; [|right; split_and!; [done|by right|done]].
      simpl. rewrite Pr. rewrite decide_False by done.
      destruct fuel; simpl; rewrite Pg'; by rewrite decide_True.
Qed.

Lemma findSpriteToSelect_spec e Intersects :
  Shape (heap e) (nextRef e) (Sprites e) (SelectedSprite e) →
  (∀ r, r ∈ Intersects → r ∈ sceneObjects e) →
  ∃ x, findSpriteToSelect (nextRef e) (heap e) Intersects = Some x ∧
       ∀ T, x = Some T →
            T ∈ Sprites e ∧
            ∃ r, r ∈ Intersects ∧ r ∈ subtree (nextRef e) (heap e) T.
Proof.
  intros HS. induction Intersects as [|hit rest IH]; intros Hv.
  - exists None. by split.
  - destruct (topLevelParent_spec e hit HS (Hv hit ltac:(by left)))
      as (T & HT & Hcase).
    simpl. rewrite HT.
    destruct Hcase as [(-> & ->)|(HTs & Hsub & ->)].
    + destruct IH as (x & -> & Hx); [intros r Hr; apply Hv; by right|].
      exists x. split; [done|]. intros T' ->.
      destruct (Hx T' eq_refl) as (? & r & ? & ?).
      split; [done|]. exists r. split; [by right|done].
    + exists (Some T). split; [done|]. intros ? [= <-].
      split; [done|]. exists hit. split; [by left|done].
Qed.

Lemma pick_spec e Intersects :
  Inv e →
  (∀ r, r ∈ Intersects → r ∈ sceneObjects e) →
  ∃ e', pick Intersects e = (Returned, e') ∧ Inv e' ∧ extends e e' ∧
        Sprites e' = Sprites e ∧ CurrentModeIndex e' = CurrentModeIndex e ∧
        UserTexture e' = UserTexture e ∧
        ((∀ r g, r ∈ Intersects → g ∈ Sprites e →
                 r ∉ subtree (nextRef e) (heap e) g) →
         e' = DeselectCurrentSprite e).
Proof.
  intros HI Hv.
  destruct (findSpriteToSelect_spec e Intersects (inv_shape e HI) Hv)
    as (x & Hx & HT).
  unfold pick. rewrite Hx. destruct x as [T|].
  - destruct (HT T eq_refl) as (HTs & r & Hr & Hsub).
    destruct (SelectSprite_spec e T HI HTs)
      as (e' & -> & ? & ? & ? & ? & ? & ? & ? & ?).
    exists e'. split_and!; try done.
    intros Hno. by destruct (Hno r T Hr HTs).
  - destruct (DeselectCurrentSprite_spec e HI)
      as (? & ? & ? & ? & ? & ? & ? & ?).
    eexists. split_and!; done.
Qed.


(** *** Tab, Space and the other keys *)

Lemma at_index_of_nat (l : list ref) (k : nat) : at_index l (Z.of_nat k) = l !! k.
Proof.
  unfold at_index. destruct (Z.ltb_spec (Z.of_nat k) 0); [lia|].
  by rewrite Nat2Z.id.
Qed.

Lemma rem_of_nat (a b : nat) :
  b ≠ 0 → Z.rem (Z.of_nat a) (Z.of_nat b) = Z.of_nat (a mod b).
Proof.
  intros Hb. rewrite Z.rem_mod_nonneg by lia. by rewrite Nat2Z.inj_mod.
Qed.


Lemma nextSprite_Selected e i x :
  NoDup (Sprites e) → SelectedSprite e = Some x → Sprites e !! i = Some x →
  nextSprite e = Sprites e !! ((i + 1) mod length (Sprites e)).
Proof.
  intros Hnd Hs Hi. unfold nextSprite. rewrite Hs.
  rewrite (indexOf_lookup _ _ _ Hnd Hi).
  pose proof (lookup_lt_Some _ _ _ Hi).
  replace (Z.of_nat i + 1)%Z with (Z.of_nat (i + 1)) by lia.
  rewrite rem_of_nat by lia. apply at_index_of_nat.
Qed.

Lemma nextSprite_is_Some e :
  Inv e → Sprites e ≠ [] → ∃ g, nextSprite e = Some g ∧ g ∈ Sprites e.
Proof.
  intros HI Hne.
  assert (0 < length (Sprites e)) by (destruct (Sprites e); simpl; [done|lia]).
  destruct (SelectedSprite e) as [x|] eqn:Hs.
  - destruct (proj1 (list_elem_of_lookup _ _) (inv_selected e HI x Hs)) as (i & Hi).
    rewrite (nextSprite_Selected e i x (shape_nodup _ _ _ _ (inv_shape e HI)) Hs Hi).
    destruct (lookup_lt_is_Some_2 (Sprites e) ((i + 1) mod length (Sprites e)))
      as (g & Hg); [apply Nat.mod_upper_bound; lia|].
    exists g. split; [done|]. by eapply list_elem_of_lookup_2.
  - unfold nextSprite. rewrite Hs.
    destruct (lookup_lt_is_Some_2 (Sprites e) 0) as (g & Hg); [done|].
    exists g. split; [done|]. by eapply list_elem_of_lookup_2.
Qed.

Lemma cycleNext_unfold e :
  cycleNext e =
    match Sprites e with
    | [] => (Returned, e)
    | _ => SelectSprite (nextSprite e) e
    end.
Proof.
  unfold cycleNext, nextSprite.
  destruct (Sprites e) as [|g l] eqn:E; [done|].
  destruct (Z.ltb_spec 0 (Z.of_nat (length (g :: l)))); [|simpl in *; lia].
  destruct (SelectedSprite e); [done|].
  by rewrite <- (at_index_of_nat (g :: l) 0).
Qed.

Lemma cycleNext_spec e :
  Inv e →
  ∃ e', cycleNext e = (Returned, e') ∧ Inv e' ∧ extends e e' ∧
        Sprites e' = Sprites e ∧ CurrentModeIndex e' = CurrentModeIndex e ∧
        UserTexture e' = UserTexture e ∧
        (Sprites e = [] → e' = e) ∧
        (Sprites e ≠ [] → SelectedSprite e' = nextSprite e).
Proof.
  intros HI. rewrite cycleNext_unfold.
  destruct (Sprites e) as [|g0 l] eqn:E.
  - exists e. split_and!; auto using extends_refl. done.
  - destruct (nextSprite_is_Some e HI) as (g & Hg & Hin); [by rewrite E|].
    rewrite Hg.
    destruct (SelectSprite_spec e g HI Hin)
      as (e' & -> & ? & Hse & Hs & ? & ? & ? & ? & ?).
    exists e'. rewrite <- E. split_and!; try done.
    rewrite E. done.
Qed.

Lemma Inv_controls e e' :
  Inv e →
  heap e' = heap e → nextRef e' = nextRef e → Sprites e' = Sprites e →
  SelectedSprite e' = SelectedSprite e →
  object (TransformControls e') = object (TransformControls e) →
  CurrentModeIndex e' < length TransformModes →
  mode (TransformControls e') = TransformModes !! CurrentModeIndex e' →
  Inv e' ∧ extends e e'.
Proof.
  intros [HS Hsel Hatt Hmi Hm] Hh Hn Hs Hse Ho Hi Hmo.
  split; [split|]; rewrite ?Hh, ?Hn, ?Hs, ?Hse, ?Ho; try done.
  repeat split; rewrite ?Hh, ?Hn, ?Hs; auto.
Qed.

Lemma cycleMode_spec code e :
  Inv e →
  let e' := cycleMode code e in
  Inv e' ∧ extends e e' ∧ heap e' = heap e ∧ nextRef e' = nextRef e ∧
  Sprites e' = Sprites e ∧ SelectedSprite e' = SelectedSprite e ∧
  UserTexture e' = UserTexture e.
Proof.
  intros HI. unfold cycleMode.
  destruct (_ && _); [|split_and!; auto using extends_refl].
  match goal with |- Inv ?x ∧ _ => destruct (Inv_controls e x HI) as [? ?] end;
    try done.
  cbv [CurrentModeIndex with_TransformControls with_CurrentModeIndex].
  apply Nat.mod_upper_bound. done.
Qed.

Lemma detach_idle e :
  object (TransformControls e) = None →
  with_TransformControls (detach (TransformControls e)) e = e.
Proof. destruct e as [? ? [? ?] ? ? ? ? ?]. simpl. by intros ->. Qed.

Lemma DeselectCurrentSprite_detached e :
  Inv e →
  DeselectCurrentSprite (with_TransformControls (detach (TransformControls e)) e)
  = DeselectCurrentSprite e.
Proof.
  intros HI. unfold DeselectCurrentSprite. simpl.
  destruct (SelectedSprite e) eqn:E; [done|].
  apply detach_idle. by rewrite (inv_attached e HI).
Qed.

Lemma ShowDeleteConfirmation_spec confirmed e :
  Inv e →
  let e' := ShowDeleteConfirmation confirmed e in
  Inv e' ∧ extends e e' ∧ CurrentModeIndex e' = CurrentModeIndex e.
Proof.
  intros HI. unfold ShowDeleteConfirmation.
  destruct confirmed; [|split_and!; auto using extends_refl].
  destruct (SelectedSprite e) as [g|] eqn:E.
  - by destruct (DeleteSelectedSprite_spec e g HI E)
      as (? & ? & ? & ? & ? & ? & ? & _).
  - unfold DeleteSelectedSprite. rewrite E. split_and!; auto using extends_refl.
Qed.

Lemma keydown_spec code confirmed e :
  Inv e →
  ∃ e', keydown code confirmed e = (Returned, e') ∧ Inv e' ∧ extends e e'.
Proof.
  intros HI. unfold keydown, keydown_first, keydown_second.
  destruct (String.eqb_spec code "Escape") as [->|HnE].
  - change (cycleMode "Escape" e) with e.
    change (cycleMode "Escape" ?x) with x. simpl.
    rewrite (DeselectCurrentSprite_detached e HI).
    destruct (DeselectCurrentSprite_spec e HI) as (HI' & Hs & _ & _ & _ & _ & _ & Hext).
    simpl in *. by eexists.
  - destruct (cycleMode_spec code e HI) as (HI1 & Hx1 & _).
    destruct (cycleMode_spec code _ HI1) as (HI2 & Hx2 & _).
    set (e2 := cycleMode code (cycleMode code e)) in *.
    pose proof (extends_trans _ _ _ Hx1 Hx2) as Hx.
    set (e3 := if (_ || _) && _ then _ else e2).
    assert (Inv e3 ∧ extends e e3) as [HI3 Hx3].
    { subst e3. destruct (_ && _); [|done].
      destruct (ShowDeleteConfirmation_spec confirmed e2 HI2) as (? & ? & _).
      split; [done|]. by eapply extends_trans. }
    destruct (String.eqb code "Tab").
    + destruct (cycleNext_spec e3 HI3) as (e' & -> & ? & ? & _).
      exists e'. split_and!; try done. by eapply extends_trans.
    + by exists e3.
Qed.

Lemma modeBtn_click_spec Mode Index e :
  Inv e → (∃ Id, (Id, Mode, Index) ∈ ModeButtons) →
  let e' := modeBtn_click Mode Index e in Inv e' ∧ extends e e'.
Proof.
  intros HI (Id & Hin). unfold modeBtn_click.
  destruct (bool_decide _); [|auto using extends_refl].
  apply (Inv_controls e); simpl; try done;
    repeat (apply elem_of_cons in Hin as [[= -> -> ->]|Hin]);
    try (by apply elem_of_nil in Hin); simpl; try done; lia.
Qed.

Lemma deleteBtn_click_spec confirmed e :
  Inv e → let e' := deleteBtn_click confirmed e in Inv e' ∧ extends e e'.
Proof.
  intros HI. unfold deleteBtn_click.
  destruct (bool_decide _); [|auto using extends_refl].
  by destruct (ShowDeleteConfirmation_spec confirmed e HI) as (? & ? & _).
Qed.

Lemma textureLoaded_spec T e :
  Inv e → let e' := textureLoaded T e in Inv e' ∧ extends e e'.
Proof.
  intros [HS Hsel Hatt Hmi Hm]. split; [by split|repeat split; simpl; auto].
Qed.

Lemma applyFilterBtn_click_spec value e :
  Inv e → let e' := applyFilterBtn_click value e in Inv e' ∧ extends e e'.
Proof.
  intros [HS Hsel Hatt Hmi Hm]. unfold applyFilterBtn_click.
  set (e1 := with_CurrentFilterType value e).
  set (e2 := match UserTexture e1 with
             | Some T => with_UserTexture
                           (Some (ApplyTextureFilter T (CurrentFilterType e1))) e1
             | None => e1
             end).
  assert (heap e2 = heap e ∧ nextRef e2 = nextRef e ∧ Sprites e2 = Sprites e ∧
          SelectedSprite e2 = SelectedSprite e ∧
          TransformControls e2 = TransformControls e ∧
          CurrentModeIndex e2 = CurrentModeIndex e)
    as (Hh & Hn & Hs & Hse & Htc & Hci)
    by (subst e2 e1; simpl; destruct (UserTexture e); done).
  assert (Inv e2) as HI2 by (split; rewrite ?Hh, ?Hn, ?Hs, ?Hse, ?Htc, ?Hci; done).
  assert (extends e e2) as Hx2
    by (repeat split; rewrite ?Hh, ?Hn, ?Hs; auto).
  destruct (SelectedSprite e2) as [sel|] eqn:E; [|done].
  destruct (visiblePlane _) as [plane|]; [|done].
  destruct (material_map _) as [T|]; [|done].
  split.
  - destruct HI2 as [HS2 Hsel2 Hatt2 Hmi2 Hm2].
    split; simpl; try done. by apply shape_material.
  - destruct Hx2 as (? & Ht & ?). repeat split; simpl; try done.
    intros r Hr. rewrite modify_lookup. case_decide; subst; simpl; by apply Ht.
Qed.


(** *** Every listener keeps the invariant *)

Lemma dispatch_spec ev s :
  Inv (editor s) → valid_event ev s →
  ∃ s', dispatch ev s = (Returned, s') ∧ Inv (editor s') ∧
        extends (editor s) (editor s').
Proof.
  intros HI Hv. destruct ev; simpl;
    try (eexists; split; [reflexivity|]; split; [exact HI|apply extends_refl]).
  - unfold mousedown. destruct (_ && _); eexists; (split; [reflexivity|]);
      split; first [exact HI | apply extends_refl].
  - unfold mousemove. destruct (_ || _); eexists; (split; [reflexivity|]);
      split; first [exact HI | apply extends_refl].
  - unfold wheel. destruct (IsTransformActive s); eexists;
      (split; [reflexivity|]); split; first [exact HI | apply extends_refl].
  - destruct (keydown_spec code confirmed _ HI) as (e' & He & ? & ?).
    unfold onEditor. rewrite He. by eexists.
  - destruct (textureLoaded_spec T _ HI). by eexists.
  - destruct (applyFilterBtn_click_spec value _ HI). by eexists.
  - destruct (addSpriteBtn_click_spec _ HI) as (e' & He & ? & ? & _).
    unfold onEditor. rewrite He. by eexists.
  - unfold click. destruct (_ || _).
    + eexists. split; [reflexivity|]. split; [exact HI|apply extends_refl].
    + simpl. destruct (pick_spec _ Intersects HI Hv) as (e' & He & ? & ? & _).
      rewrite He. by eexists.
  - destruct (ModeButtons !! i) as [[[Id Mode] Index]|] eqn:E.
    + destruct (modeBtn_click_spec Mode Index _ HI).
      { exists Id. by eapply list_elem_of_lookup_2. }
      by eexists.
    + eexists. split; [reflexivity|]. split; [exact HI|apply extends_refl].
  - destruct (deleteBtn_click_spec confirmed _ HI). by eexists.
Qed.

Lemma reachable_Inv width height s : reachable width height s → Inv (editor s).
Proof.
  unfold reachable. induction 1 as [|s ev st s' _ IH Hv Hd _].
  - apply Inv_initial.
  - destruct (dispatch_spec ev s IH Hv) as (s'' & Hd' & ? & _).
    rewrite Hd in Hd'. by simplify_eq.
Qed.

Lemma reachable_Returned width height s ev :
  reachable width height s → valid_event ev s →
  ∃ s', dispatch ev s = (Returned, s') ∧ reachable width height s'.
Proof.
  intros Hr Hv.
  destruct (dispatch_spec ev s (reachable_Inv _ _ _ Hr) Hv) as (s' & Hd & _).
  exists s'. split; [done|]. by eapply steps_step.
Qed.

(** *** The orbit state *)

Section Orbit.
Local Open Scope R_scope.


Lemma wheel_Radius deltaY s :
  IsTransformActive s = false →
  Radius (wheel deltaY s)
  = Rmax 1.1 (Radius s + (if Rlt_dec 0 deltaY then 1 else -1)
                         * (0.5 * Rmax 0.1 ((Radius s - 1) / 10))).
Proof. intros H. unfold wheel. rewrite H. reflexivity. Qed.

Lemma dispatch_WINDOW ev s :
  WINDOW_WIDTH (dispatch ev s).2 = WINDOW_WIDTH s ∧
  WINDOW_HEIGHT (dispatch ev s).2 = WINDOW_HEIGHT s.
Proof.
  destruct ev; simpl; try done.
  - unfold mousedown. by destruct (_ && _).
  - unfold mousemove. by destruct (_ || _).
  - unfold wheel. by destruct (IsTransformActive s).
  - unfold click. by destruct (_ || _).
  - by destruct (ModeButtons !! i) as [[[? ?] ?]|].
Qed.

Lemma run_invariant (P : State → Prop) events s :
  (∀ ev s, P s → P (dispatch ev s).2) → P s → P (run events s).2.
Proof.
  intros Hstep. revert s. induction events as [|ev rest IH]; intros s Hs.
  - done.
  - simpl. pose proof (Hstep ev s Hs) as Hs'.
    destruct (dispatch ev s) as [[] s']; simpl in *; auto.
Qed.

Lemma sphericalPosition_not_origin r azimuth polar :
  1.1 <= r → sphericalPosition r azimuth polar ≠ mkVector3 0 0 0.
Proof.
  intros Hr [= Hx Hy Hz].
  pose proof (sin2_cos2 polar) as Hp. pose proof (sin2_cos2 azimuth) as Ha.
  unfold Rsqr in *.
  assert (cos polar = 0) as Hc by nra.
  assert (sin polar * sin azimuth = 0) as H1 by nra.
  assert (sin polar * cos azimuth = 0) as H2 by nra.
  assert (sin polar * sin polar = 1) as H3 by nra.
  assert (sin polar * sin polar * (sin azimuth * sin azimuth
                                   + cos azimuth * cos azimuth) = 0) by nra.
  nra.
Qed.

End Orbit.




Lemma sprite_outlines h n sel g :
  sprite_ok h n sel g →
  filter (λ r, otype (h !!! r) = LineSegmentsT) (g :: children (h !!! g))
  = if decide (sel = Some g)
    then option_list (selectionOutline (userData (h !!! g)))
    else [].
Proof.
  intros (_ & Tg & _ & _ & p & b & _ & _ & _ & (Tp & _) & (Tb & _) & Hsel).
  rewrite filter_cons_False by congruence.
  case_decide.
  - destruct Hsel as (ol & _ & -> & -> & (Tol & _)).
    rewrite filter_cons_False by congruence.
    rewrite filter_cons_False by congruence.
    rewrite filter_cons_True by done. done.
  - destruct Hsel as (_ & ->).
    rewrite filter_cons_False by congruence.
    rewrite filter_cons_False by congruence. done.
Qed.

Lemma filter_bind_outlines h n sel (l : list ref) :
  (∀ g, g ∈ l → sprite_ok h n sel g) → NoDup l →
  filter (λ r, otype (h !!! r) = LineSegmentsT)
         (l ≫= λ g, g :: children (h !!! g))
  = match sel with
    | Some g => if decide (g ∈ l)
                then option_list (selectionOutline (userData (h !!! g)))
                else []
    | None => []
    end.
Proof.
  intros Hok Hnd. induction Hnd as [|g l Hg Hnd IH].
  - by destruct sel.
  - rewrite bind_cons, filter_app.
    rewrite (sprite_outlines h n sel g) by (apply Hok; by left).
    rewrite IH by (intros g' Hg'; apply Hok; by right).
    destruct sel as [g0|]; [|by rewrite decide_False].
    destruct (decide (g0 = g)) as [->|Hne].
    + rewrite decide_True by done. rewrite (decide_False (P := g ∈ l)) by done.
      rewrite decide_True by (by left). by rewrite app_nil_r.
    + rewrite decide_False by congruence. simpl.
      destruct (decide (g0 ∈ l)).
      * rewrite decide_True by (by right). done.
      * rewrite decide_False; [done|]. by intros [?|?]%elem_of_cons.
Qed.

Lemma sceneOutlines_Inv e :
  Inv e →
  sceneOutlines e
  = match SelectedSprite e with
    | Some g => option_list (selectionOutline (userData (heap e !!! g)))
    | None => []
    end.
Proof.
  intros HI. pose proof (inv_shape e HI) as HS.
  unfold sceneOutlines. rewrite (sceneObjects_shape e HS), filter_app.
  rewrite (filter_bind_outlines _ (nextRef e) (SelectedSprite e));
    [|apply HS|apply HS].
  destruct HS as [_ _ (Tg & _) (Ta & _) (Tc & _) _ _ _ _ _ _].
  rewrite !filter_cons_False by congruence. rewrite filter_nil. simpl.
  destruct (SelectedSprite e) as [g|] eqn:E; [|done].
  by rewrite decide_True by (by apply (inv_selected e HI)).
Qed.

Lemma selected_outline e g :
  Inv e → SelectedSprite e = Some g →
  ∃ ol, selectionOutline (userData (heap e !!! g)) = Some ol ∧
        ol ∈ children (heap e !!! g) ∧
        otype (heap e !!! ol) = LineSegmentsT ∧ ol < nextRef e ∧
        sceneOutlines e = [ol].
Proof.
  intros HI E. rewrite (sceneOutlines_Inv e HI), E.
  destruct (shape_sprites _ _ _ _ (inv_shape e HI) g (inv_selected e HI g E))
    as (_ & _ & _ & _ & p & b & _ & _ & _ & _ & _ & Hsel).
  rewrite decide_True in Hsel by done.
  destruct Hsel as (ol & ? & Hso & Hch & (? & _)).
  exists ol. rewrite Hso, Hch. split_and!; try done. by do 2 right; left.
Qed.

Lemma Inv_SelectionInvariant e : Inv e → SelectionInvariant e.
Proof.
  intros HI. pose proof (inv_shape e HI) as HS.
  pose proof (λ g, shape_sprite_not_fixed _ _ _ _ g HS) as Hfix.
  assert (∀ g, g ∈ sceneObjects e →
               hasOutline e g ↔ SelectedSprite e = Some g) as Hout;
    [|split; [|split; [exact Hout|]]].
  2:{ intros g1 g2 H1 H2 O1 O2. apply (Hout g1 H1) in O1.
      apply (Hout g2 H2) in O2. congruence. }
  2: split_and!.
  - intros g Hg. apply (elem_of_sceneObjects e g HS) in Hg.
    destruct Hg as [Hg|(g' & Hg' & [->|Hg])].
    + assert (children (heap e !!! g) = []) as Hc.
      { destruct HS as [_ _ (_ & _ & ?) (_ & _ & ?) (_ & _ & ?) _ _ _ _ _ _].
        repeat (apply elem_of_cons in Hg as [->|Hg]); try done.
        by apply elem_of_nil in Hg. }
      split.
      * intros (ol & Hol & _). rewrite Hc in Hol. by apply elem_of_nil in Hol.
      * intros E. destruct (Hfix g (inv_selected e HI g E)) as (? & ? & ? & ?).
        repeat (apply elem_of_cons in Hg as [->|Hg]); try done.
        by apply elem_of_nil in Hg.
    + pose proof (shape_sprites _ _ _ _ HS g' Hg') as Hok. split.
      * intros (ol & Hol & Tol).
        by destruct (proj1 (proj2 (proj2 (proj2
             (sprite_children_leaves _ _ _ _ _ Hok Hol))) ) Tol).
      * intros E. destruct (selected_outline e g' HI E) as (ol & _ & ? & ? & _).
        by exists ol.
    + pose proof (shape_sprites _ _ _ _ HS g' Hg') as Hok.
      destruct (sprite_children_leaves _ _ _ _ _ Hok Hg) as (_ & Hc & Tn & _).
      split.
      * intros (ol & Hol & _). rewrite Hc in Hol. by apply elem_of_nil in Hol.
      * intros E.
        destruct (shape_sprites _ _ _ _ HS g (inv_selected e HI g E))
          as (_ & ? & _). done.
  - intros g Hg.
    destruct (shape_sprites _ _ _ _ HS g Hg)
      as (_ & _ & _ & _ & p & b & _ & _ & _ & _ & _ & Hsel).
    case_decide.
    + destruct Hsel as (ol & _ & -> & _). split; [done|]. by eexists.
    + destruct Hsel as (-> & _). split; [by intros [? ?]|done].
  - by rewrite (inv_attached e HI).
  - rewrite (sceneOutlines_Inv e HI).
    destruct (SelectedSprite e) as [g|] eqn:E; [|done].
    destruct (selected_outline e g HI E) as (ol & -> & _). done.
Qed.

(** * The specification, property by property *)

(** ** Orbit camera *)

Section OrbitProperties.
Local Open Scope R_scope.




(** C3: [UpdateCameraPosition] reads only [Radius], [Theta] and [Phi]; it
    puts the camera at (r sin p sin a, r cos p, r sin p cos a) for the clamped
    polar angle p, turns it toward the origin, changes nothing but the
    camera, and calling it again on its result changes nothing. *)
Theorem C3_UpdateCameraPosition_pure_idempotent (s : State) :
  let s' := UpdateCameraPosition s in
  let p := Rmax 0.01 (Rmin (PI - 0.01) (Phi s)) in
  position (Camera s')
  = mkVector3 (Radius s * sin p * sin (Theta s))
              (Radius s * cos p)
              (Radius s * sin p * cos (Theta s)) ∧
  position (Camera s') = sphericalPosition (Radius s) (Theta s) p ∧
  orientation (Camera s') = LookingAt (position (Camera s')) (mkVector3 0 0 0) ∧
  aspect (Camera s') = aspect (Camera s) ∧
  s' = with_Camera (Camera s') s ∧
  UpdateCameraPosition s' = s'.
Proof. repeat split. Qed.

(** C4: whatever the polar angle [Phi] is, the clamped value that the
    position is computed from lies between 0.01 and pi - 0.01. *)
Theorem C4_polar_clamped (phi : R) (s : State) :
  let s' := with_Phi phi s in
  0 < 0.01 ∧
  0.01 <= PhiClamped s' <= PI - 0.01 ∧
  position (Camera (UpdateCameraPosition s'))
  = sphericalPosition (Radius s) (Theta s) (PhiClamped s').
Proof.
  simpl. split; [lra|]. split; [apply PhiClamped_bounds|reflexivity].
Qed.

(** C5: the code fails the claim.  The listener clamps the radius with
    [Math.max(1.1, Radius)] (line 115), which is NaN for a NaN argument.
    Replayed on binary64 numbers from the initial radius 10: each of 14503
    scroll-down events leaves the radius at or above 1.1 and the last of
    them takes it to [Infinity]; one scroll-up event then subtracts
    [Infinity] from [Infinity], the radius is NaN and [Radius >= 1.1] is
    false; no later wheel event changes it. *)
Theorem C5_radius_floor_lost_on_overflow :
  let downs := repeat Binary64.down (Z.to_nat 14503) in
  let events := downs ++ [Binary64.up] in
  forallb Binary64.aboveFloor (Binary64.radii downs Binary64.Radius0) = true ∧
  List.last (Binary64.radii downs Binary64.Radius0) Binary64.Radius0
  = PrimFloat.infinity ∧
  List.last (Binary64.radii events Binary64.Radius0) Binary64.Radius0
  = PrimFloat.nan ∧
  forallb Binary64.aboveFloor (Binary64.radii events Binary64.Radius0)
  = false ∧
  Binary64.aboveFloor PrimFloat.nan = false ∧
  (∀ deltaY, Binary64.wheel false deltaY PrimFloat.nan = PrimFloat.nan).
Proof.
  cbv zeta. split_and!.
  - vm_compute. reflexivity.
  - vm_compute. reflexivity.
  - vm_compute. reflexivity.
  - vm_compute. reflexivity.
  - vm_compute. reflexivity.
  - intros deltaY. unfold Binary64.wheel.
    destruct (PrimFloat.ltb _ deltaY); vm_compute; reflexivity.
Qed.

(** C10: the click listener divides the pointer coordinates by
    [WINDOW_WIDTH] and [WINDOW_HEIGHT], which keep the window size of the
    start of the script whatever events follow; a resize changes the camera
    aspect and the renderer size only.  After the 800x600 window has been
    resized to 400x300, a click at its centre (200,150) is therefore picked
    at (-0.5, 0.5) instead of (0, 0). *)
Theorem C10_pick_uses_startup_size
    (width height : R) (events : list Event)
    (button : Z) (clientX clientY : R) (Intersects : list ref) :
  let s := (run events (initialState width height)).2 in
  WINDOW_WIDTH s = width ∧ WINDOW_HEIGHT s = height ∧
  Mouse (dispatch (Click button clientX clientY Intersects) s).2
  = (if (button =? 2)%Z || IsTransformActive s then Mouse s
     else (clientX / width * 2 - 1, - (clientY / height) * 2 + 1)) ∧
  (∀ w h s0,
     let s1 := (dispatch (Resize w h) s0).2 in
     innerWidth s1 = w ∧ innerHeight s1 = h ∧
     aspect (Camera s1) = w / h ∧ RendererSize s1 = (w, h) ∧
     WINDOW_WIDTH s1 = WINDOW_WIDTH s0 ∧ WINDOW_HEIGHT s1 = WINDOW_HEIGHT s0) ∧
  (let s1 := (run [Resize 400 300; Click 0 200 150 []]
                  (initialState 800 600)).2 in
   innerWidth s1 = 400 ∧ innerHeight s1 = 300 ∧
   fst (Mouse s1) = -0.5 ∧ snd (Mouse s1) = 0.5).
Proof.
  simpl.
  pose proof (run_invariant
    (λ s, WINDOW_WIDTH s = width ∧ WINDOW_HEIGHT s = height) events
    (initialState width height)) as [Hw Hh].
  { intros ev s0 [<- <-]. apply dispatch_WINDOW. }
  { by split. }
  split; [exact Hw|]. split; [exact Hh|]. split; [|split].
  - unfold click. destruct (_ || _); [done|]. simpl. by rewrite Hw, Hh.
  - intros w h s0. repeat split.
  - repeat split; simpl; lra.
Qed.

End OrbitProperties.

(** ** Selection and picking *)


Lemma addSpriteBtn_click_Inv e : Inv e → Inv (addSpriteBtn_click e).2.
Proof.
  intros HI. by destruct (addSpriteBtn_click_spec e HI) as (e' & -> & ? & _).
Qed.

Lemma Inv_oneSprite : Inv oneSprite.
Proof.
  apply addSpriteBtn_click_Inv.
  apply (textureLoaded_spec sampleTexture initialEditor Inv_initial).
Qed.

Lemma Inv_twoSprites : Inv twoSprites.
Proof. apply addSpriteBtn_click_Inv, Inv_oneSprite. Qed.

Lemma Inv_threeSpritesIdle : Inv threeSpritesIdle.
Proof.
  apply DeselectCurrentSprite_spec, addSpriteBtn_click_Inv, Inv_twoSprites.
Qed.

Lemma cycleMode_idle code e :
  object (TransformControls e) = None → cycleMode code e = e.
Proof.
  intros H. unfold cycleMode. rewrite H.
  by rewrite andb_false_r.
Qed.

Lemma cycleMode_other code e : code ≠ "Space"%string → cycleMode code e = e.
Proof.
  intros H. unfold cycleMode. by destruct (String.eqb_spec code "Space").
Qed.

Lemma keydown_Space_idle confirmed e :
  object (TransformControls e) = None →
  keydown "Space" confirmed e = (Returned, e).
Proof.
  intros H. unfold keydown, keydown_first, keydown_second.
  rewrite !(cycleMode_idle "Space" e H). simpl.
  by rewrite !(cycleMode_idle "Space" e H).
Qed.

Lemma cycleMode_attached e :
  is_Some (object (TransformControls e)) →
  cycleMode "Space" e
  = with_TransformControls
      (setMode (TransformModes !! ((CurrentModeIndex e + 1) mod 3))
               (TransformControls e))
      (with_CurrentModeIndex ((CurrentModeIndex e + 1) mod 3) e).
Proof.
  intros H. unfold cycleMode. rewrite (bool_decide_eq_true_2 _ H). reflexivity.
Qed.

(** With a selection, one press of Space is two steps of the rotation. *)
Lemma keydown_Space_selected confirmed e :
  Inv e → is_Some (SelectedSprite e) →
  ∃ e', keydown "Space" confirmed e = (Returned, e') ∧
        CurrentModeIndex e' = (CurrentModeIndex e + 2) mod 3 ∧
        mode (TransformControls e')
        = TransformModes !! ((CurrentModeIndex e + 2) mod 3) ∧
        SelectedSprite e' = SelectedSprite e.
Proof.
  intros HI Hsel. rewrite <- (inv_attached e HI) in Hsel.
  unfold keydown, keydown_first, keydown_second.
  rewrite (cycleMode_attached e Hsel).
  rewrite cycleMode_attached by done.
  change (String.eqb "Space" "Escape") with false.
  change (String.eqb "Space" "Delete") with false.
  change (String.eqb "Space" "Backspace") with false.
  change (String.eqb "Space" "Tab") with false.
  cbn [orb andb].
  eexists. split; [reflexivity|].
  cbn [CurrentModeIndex TransformControls SelectedSprite mode
       with_TransformControls with_CurrentModeIndex setMode].
  rewrite Nat.Div0.add_mod_idemp_l.
  replace (CurrentModeIndex e + 1 + 1) with (CurrentModeIndex e + 2) by lia.
  done.
Qed.

(** The mode in force is put back on the gizmo whenever a sprite is
    selected. *)
Lemma SelectSprite_reapplies_mode e g :
  Inv e → g ∈ Sprites e →
  ∃ e', SelectSprite (Some g) e = (Returned, e') ∧
        CurrentModeIndex e' = CurrentModeIndex e ∧
        mode (TransformControls e') = TransformModes !! CurrentModeIndex e ∧
        object (TransformControls e') = Some g.
Proof.
  intros HI Hg.
  destruct (SelectSprite_spec e g HI Hg) as (e' & ? & HI' & Hs & _ & Hm & _).
  exists e'. split_and!; try done.
  - by rewrite (inv_mode e' HI'), Hm.
  - by rewrite (inv_attached e' HI').
Qed.

(** C2: the code fails the claim.  With a sprite selected and the gizmo in
    Translate, one Space key press runs both [keydown] listeners: each of
    them advances the mode by one step, so the press takes the gizmo to
    Scale (mode index 2) and not to Rotate (mode index 1).  Each listener on
    its own does the single step the claim describes. *)
Theorem C2_space_runs_both_listeners :
  SelectedSprite oneSprite = Some 4 ∧
  object (TransformControls oneSprite) = Some 4 ∧
  CurrentModeIndex oneSprite = 0 ∧
  mode (TransformControls oneSprite) = Some translate ∧
  CurrentModeIndex (keydown_first "Space" oneSprite) = 1 ∧
  mode (TransformControls (keydown_first "Space" oneSprite)) = Some rotate ∧
  (keydown "Space" false oneSprite).1 = Returned ∧
  CurrentModeIndex (keydown "Space" false oneSprite).2 = 2 ∧
  mode (TransformControls (keydown "Space" false oneSprite).2) = Some scale.
Proof. vm_compute. repeat split. Qed.

Lemma applyOp_spec op e :
  Inv e → op_enabled op e →
  ∃ e', applyOp op e = (Returned, e') ∧ Inv e' ∧ extends e e'.
Proof.
  intros HI Hen. destruct op as [g| | |]; simpl in *.
  - destruct (SelectSprite_spec e g HI Hen)
      as (e' & ? & ? & _ & _ & _ & _ & _ & _ & ?).
    by exists e'.
  - destruct (DeselectCurrentSprite_spec e HI) as (? & _ & _ & _ & _ & _ & _ & ?).
    by eexists.
  - destruct (SelectedSprite e) as [g|] eqn:E.
    + destruct (DeleteSelectedSprite_spec e g HI E)
        as (? & _ & _ & _ & _ & _ & ? & _).
      by eexists.
    + exists e. unfold DeleteSelectedSprite. rewrite E.
      split_and!; auto using extends_refl.
  - destruct (cycleNext_spec e HI) as (e' & ? & ? & ? & _). by exists e'.
Qed.

Lemma extends_dead_outline e e' ol :
  Inv e' → extends e e' →
  ol < nextRef e → otype (heap e !!! ol) = LineSegmentsT →
  ol ∈ sceneObjects e' → ol ∈ sceneOutlines e'.
Proof.
  intros HI' (_ & Ht & _) Hlt Hty Hin.
  unfold sceneOutlines. apply list_elem_of_filter. split; [|done].
  rewrite Ht by done. done.
Qed.

Lemma select_then_select e A B :
  Inv e → A ∈ Sprites e → B ∈ Sprites e →
  ∃ eA eB olA olB,
    SelectSprite (Some A) e = (Returned, eA) ∧
    SelectSprite (Some B) eA = (Returned, eB) ∧
    sceneOutlines eA = [olA] ∧ (olA ∈ children (heap eA !!! A)) ∧
    sceneOutlines eB = [olB] ∧ (olB ∈ children (heap eB !!! B)) ∧
    olA ≠ olB ∧ (olA ∉ sceneObjects eB) ∧
    SelectedSprite eB = Some B ∧ Sprites eB = Sprites e ∧ Inv eB.
Proof.
  intros HI HA HB.
  destruct (SelectSprite_spec e A HI HA)
    as (eA & HeA & HIA & HsA & HspA & _ & _ & _ & _ & _).
  destruct (SelectSprite_spec eA B HIA) as
    (eB & HeB & HIB & HsB & HspB & _ & _ & HhB & HnB & HxB); [by rewrite HspA|].
  destruct (selected_outline eA A HIA HsA) as (olA & _ & HinA & HtA & HltA & HoA).
  destruct (selected_outline eB B HIB HsB) as (olB & HsoB & HinB & _ & _ & HoB).
  assert (olB = nextRef eA) as HolB.
  { rewrite HhB in HsoB. rewrite addOutline_lookup in HsoB.
    - rewrite decide_True in HsoB by done. simpl in HsoB. congruence.
    - destruct (shape_sprites _ _ _ _ (inv_shape eA HIA) B) as (? & _);
        [by rewrite HspA|]. lia. }
  assert (olA ≠ olB) by lia.
  exists eA, eB, olA, olB. split_and!; try done; [|by rewrite HspB].
  intros Hin.
  pose proof (extends_dead_outline eA eB olA HIB HxB HltA HtA Hin) as Hin'.
  rewrite HoB in Hin'. by apply list_elem_of_singleton in Hin'.
Qed.

(** C6: the invariant of the selection manager (an object of the scene
    carries an outline exactly when it is the selected one, the gizmo is
    attached exactly when there is a selection, the scene holds one outline
    when there is a selection and none otherwise) holds in the initial state
    and in every reachable state, and select, deselect, delete and cycle
    preserve it; selecting A and then B leaves B's outline as the only
    outline of the scene, A's being gone from it. *)
Theorem C6_selection_invariant_preserved :
  Inv initialEditor ∧
  (∀ width height s, reachable width height s → Inv (editor s)) ∧
  (∀ e, Inv e → SelectionInvariant e) ∧
  (∀ e op, Inv e → op_enabled op e →
     ∃ e', applyOp op e = (Returned, e') ∧ Inv e' ∧ SelectionInvariant e') ∧
  (∀ e A B, Inv e → A ∈ Sprites e → B ∈ Sprites e → A ≠ B →
     ∃ eA eB olA olB,
       SelectSprite (Some A) e = (Returned, eA) ∧
       SelectSprite (Some B) eA = (Returned, eB) ∧
       sceneOutlines eA = [olA] ∧ (olA ∈ children (heap eA !!! A)) ∧
       sceneOutlines eB = [olB] ∧ (olB ∈ children (heap eB !!! B)) ∧
       olA ≠ olB ∧ (olA ∉ sceneObjects eB) ∧ ¬ hasOutline eB A ∧
       SelectedSprite eB = Some B).
Proof.
  split; [apply Inv_initial|]. split; [apply reachable_Inv|].
  split; [apply Inv_SelectionInvariant|]. split.
  - intros e op HI Hen.
    destruct (applyOp_spec op e HI Hen) as (e' & ? & ? & _).
    exists e'. split_and!; try done. by apply Inv_SelectionInvariant.
  - intros e A B HI HA HB Hne.
    destruct (select_then_select e A B HI HA HB)
      as (eA & eB & olA & olB & HeA & HeB & ? & ? & ? & ? & ? & ? & HsB
          & HspB & HIB).
    exists eA, eB, olA, olB. split_and!; try done.
    destruct (Inv_SelectionInvariant eB HIB) as (_ & Hout & _).
    intros Hhas. apply Hout in Hhas; [congruence|].
    apply (elem_of_sceneObjects eB A (inv_shape eB HIB)). right. exists A.
    split; [by rewrite HspB|by left].
Qed.

(** C6, witness: the invariant on a page with two sprites, before and
    after a press of Tab. *)
Lemma C6_selection_invariant_witness :
  SelectionInvariant twoSprites ∧
  ∃ e', applyOp OpCycle twoSprites = (Returned, e') ∧ SelectionInvariant e'.
Proof.
  destruct C6_selection_invariant_preserved as (_ & _ & H3 & H4 & _).
  split; [exact (H3 twoSprites Inv_twoSprites)|].
  destruct (H4 twoSprites OpCycle Inv_twoSprites I) as (e' & He' & _ & HS').
  exists e'. split; [exact He'|exact HS'].
Defined.

(** *** Cycling *)

Lemma cycleNext_Selected e i x :
  Inv e → SelectedSprite e = Some x → Sprites e !! i = Some x →
  ∃ e', cycleNext e = (Returned, e') ∧ Inv e' ∧ Sprites e' = Sprites e ∧
        SelectedSprite e' = Sprites e !! ((i + 1) mod length (Sprites e)).
Proof.
  intros HI Hs Hi.
  destruct (cycleNext_spec e HI) as (e' & ? & ? & _ & ? & _ & _ & _ & Hn).
  exists e'. split_and!; try done.
  rewrite Hn by (intros E; by rewrite E in Hi).
  apply (nextSprite_Selected e i x); [|done|done].
  apply (shape_nodup _ _ _ _ (inv_shape e HI)).
Qed.

Lemma cycleNext_Idle e :
  Inv e → SelectedSprite e = None → Sprites e ≠ [] →
  ∃ e', cycleNext e = (Returned, e') ∧ Inv e' ∧ Sprites e' = Sprites e ∧
        SelectedSprite e' = Sprites e !! 0.
Proof.
  intros HI Hs Hne.
  destruct (cycleNext_spec e HI) as (e' & ? & ? & _ & ? & _ & _ & _ & Hn).
  exists e'. split_and!; try done.
  rewrite Hn by done. unfold nextSprite. by rewrite Hs.
Qed.

Lemma cycleTimes_Selected k e i x :
  Inv e → SelectedSprite e = Some x → Sprites e !! i = Some x →
  ∃ e', cycleTimes k e = (Returned, e') ∧ Inv e' ∧ Sprites e' = Sprites e ∧
        SelectedSprite e' = Sprites e !! ((i + k) mod length (Sprites e)).
Proof.
  revert e i x. induction k as [|k IH]; intros e i x HI Hs Hi.
  - exists e. pose proof (lookup_lt_Some _ _ _ Hi).
    split_and!; try done.
    rewrite Nat.add_0_r, Nat.mod_small by done. congruence.
  - pose proof (lookup_lt_Some _ _ _ Hi) as Hlt.
    destruct (cycleNext_Selected e i x HI Hs Hi) as (e1 & He1 & HI1 & Hsp1 & Hs1).
    destruct (lookup_lt_is_Some_2 (Sprites e) ((i + 1) mod length (Sprites e)))
      as (x1 & Hx1); [apply Nat.mod_upper_bound; lia|].
    rewrite Hx1 in Hs1.
    destruct (IH e1 ((i + 1) mod length (Sprites e)) x1 HI1 Hs1)
      as (e' & He' & HI' & Hsp' & Hs'); [by rewrite Hsp1|].
    exists e'. simpl. rewrite He1. split_and!; try done; [congruence|].
    rewrite Hs', Hsp1. f_equal.
    rewrite Nat.Div0.add_mod_idemp_l. f_equal. lia.
Qed.

Lemma cycleTimes_Idle k e :
  Inv e → SelectedSprite e = None → Sprites e ≠ [] →
  ∃ e', cycleTimes (S k) e = (Returned, e') ∧ Inv e' ∧
        Sprites e' = Sprites e ∧
        SelectedSprite e' = Sprites e !! (k mod length (Sprites e)).
Proof.
  intros HI Hs Hne.
  destruct (cycleNext_Idle e HI Hs Hne) as (e1 & He1 & HI1 & Hsp1 & Hs1).
  destruct (lookup_lt_is_Some_2 (Sprites e) 0) as (x & Hx).
  { destruct (Sprites e); simpl; [done|lia]. }
  rewrite Hx in Hs1.
  destruct (cycleTimes_Selected k e1 0 x HI1 Hs1) as (e' & He' & HI' & Hsp' & Hs');
    [by rewrite Hsp1|].
  exists e'. simpl. rewrite He1. split_and!; try done; [congruence|].
  by rewrite Hs', Hsp1.
Qed.

(** C7, as stated, fails: with three sprites and nothing selected, three
    presses of Tab end on the third sprite, not back on the first. *)
Lemma C7_cycle_length_counterexample :
  SelectedSprite threeSpritesIdle = None ∧
  Sprites threeSpritesIdle = [4; 8; 12] ∧
  (cycleTimes 3 threeSpritesIdle).1 = Returned ∧
  SelectedSprite (cycleTimes 3 threeSpritesIdle).2 = Some 12 ∧
  SelectedSprite (cycleTimes 3 threeSpritesIdle).2
  ≠ Sprites threeSpritesIdle !! 0.
Proof. vm_compute. repeat split. discriminate. Qed.

(** C7, amended: Tab runs [cycleNext]; with an empty collection it changes
    nothing; from Idle it selects the sprite at index 0; from the sprite at
    index i it selects the one at index (i+1) mod count.  So from Idle the
    first press selects index 0 and count further presses (count + 1 in
    all) come back to index 0, while count presses from Idle end on the
    last sprite. *)
Theorem C7_cycleNext (e : Editor) :
  Inv e →
  (∀ confirmed, keydown "Tab" confirmed e = cycleNext e) ∧
  (Sprites e = [] → cycleNext e = (Returned, e)) ∧
  (SelectedSprite e = None → Sprites e ≠ [] →
   ∃ e', cycleNext e = (Returned, e') ∧ Sprites e' = Sprites e ∧
         is_Some (SelectedSprite e') ∧
         SelectedSprite e' = Sprites e !! 0) ∧
  (∀ i x, SelectedSprite e = Some x → Sprites e !! i = Some x →
   ∃ e', cycleNext e = (Returned, e') ∧ Sprites e' = Sprites e ∧
         is_Some (SelectedSprite e') ∧
         SelectedSprite e' = Sprites e !! ((i + 1) mod length (Sprites e))) ∧
  (∀ i x, SelectedSprite e = Some x → Sprites e !! i = Some x →
   ∃ e', cycleTimes (length (Sprites e)) e = (Returned, e') ∧
         Sprites e' = Sprites e ∧ SelectedSprite e' = Some x) ∧
  (SelectedSprite e = None → Sprites e ≠ [] →
   ∃ e', cycleTimes (S (length (Sprites e))) e = (Returned, e') ∧
         Sprites e' = Sprites e ∧ SelectedSprite e' = Sprites e !! 0) ∧
  (SelectedSprite e = None → Sprites e ≠ [] →
   ∃ e', cycleTimes (length (Sprites e)) e = (Returned, e') ∧
         Sprites e' = Sprites e ∧
         SelectedSprite e' = Sprites e !! (length (Sprites e) - 1)).
Proof.
  intros HI. split_and!.
  - intros confirmed. unfold keydown, keydown_first, keydown_second.
    reflexivity.
  - intros E. rewrite cycleNext_unfold. by rewrite E.
  - intros Hs Hne.
    destruct (cycleNext_Idle e HI Hs Hne) as (e' & ? & HI' & ? & Hs').
    exists e'. split_and!; try done. rewrite Hs'.
    apply lookup_lt_is_Some_2. destruct (Sprites e); simpl; [done|lia].
  - intros i x Hs Hi. pose proof (lookup_lt_Some _ _ _ Hi).
    destruct (cycleNext_Selected e i x HI Hs Hi) as (e' & ? & HI' & ? & Hs').
    exists e'. split_and!; try done. rewrite Hs'.
    apply lookup_lt_is_Some_2, Nat.mod_upper_bound. lia.
  - intros i x Hs Hi. pose proof (lookup_lt_Some _ _ _ Hi).
    destruct (cycleTimes_Selected (length (Sprites e)) e i x HI Hs Hi)
      as (e' & ? & _ & ? & Hs').
    exists e'. split_and!; try done. rewrite Hs', <- Hi. f_equal.
    rewrite <- Nat.Div0.add_mod_idemp_r, Nat.Div0.mod_same, Nat.add_0_r.
    by apply Nat.mod_small.
  - intros Hs Hne.
    destruct (cycleTimes_Idle (length (Sprites e)) e HI Hs Hne)
      as (e' & ? & _ & ? & Hs').
    exists e'. split_and!; try done. by rewrite Hs', Nat.Div0.mod_same.
  - intros Hs Hne.
    assert (0 < length (Sprites e)) by (destruct (Sprites e); simpl; [done|lia]).
    destruct (cycleTimes_Idle (length (Sprites e) - 1) e HI Hs Hne)
      as (e' & He' & _ & ? & Hs').
    replace (S (length (Sprites e) - 1)) with (length (Sprites e)) in He' by lia.
    exists e'. split_and!; try done. rewrite Hs'. f_equal.
    apply Nat.mod_small. lia.
Qed.

(** C7, witness: three sprites, nothing selected, four presses of Tab. *)
Lemma C7_cycleNext_witness :
  ∃ e', cycleTimes 4 threeSpritesIdle = (Returned, e') ∧
        Sprites e' = [4; 8; 12] ∧ SelectedSprite e' = Some 4.
Proof.
  destruct (C7_cycleNext threeSpritesIdle Inv_threeSpritesIdle)
    as (_ & _ & _ & _ & _ & H & _).
  destruct H as (e' & He' & Hsp & Hsel);
    [vm_compute; reflexivity|vm_compute; discriminate|].
  exists e'. split; [exact He'|]. split; [rewrite Hsp|rewrite Hsel];
    vm_compute; reflexivity.
Defined.

(** *** Deleting *)

Lemma steps_Inv s0 s :
  Inv (editor s0) → steps s0 s →
  Inv (editor s) ∧ extends (editor s0) (editor s).
Proof.
  intros HI0. induction 1 as [|s ev st s' _ [HI Hx] Hv Hd _].
  - split; [done|apply extends_refl].
  - destruct (dispatch_spec ev s HI Hv) as (s'' & Hd' & ? & ?).
    rewrite Hd in Hd'. simplify_eq. split; [done|]. by eapply extends_trans.
Qed.

(** An object that is a group, yet not in the collection, is referenced by
    nothing the selection manager consults. *)
Lemma stray_group_unreferenced e g :
  Inv e → g ∉ Sprites e → otype (heap e !!! g) = GroupT →
  SelectedSprite e ≠ Some g ∧ object (TransformControls e) ≠ Some g ∧
  (g ∉ children (heap e !!! Scene)) ∧ (g ∉ sceneObjects e).
Proof.
  intros HI Hg Hty. pose proof (inv_shape e HI) as HS.
  assert (SelectedSprite e ≠ Some g) as Hsel
    by (intros E; by apply Hg, (inv_selected e HI)).
  assert (g ∉ sceneObjects e) as Hns.
  { intros Hin. apply (elem_of_sceneObjects e g HS) in Hin.
    destruct Hin as [Hin|(g' & Hg' & [->|Hin])]; [|done|].
    - destruct HS as [_ _ (? & _) (? & _) (? & _) _ _ _ _ _ _].
      repeat (apply elem_of_cons in Hin as [->|Hin]); try congruence.
      by apply elem_of_nil in Hin.
    - by destruct (sprite_children_leaves _ _ _ _ _
                     (shape_sprites _ _ _ _ HS g' Hg') Hin) as (_ & _ & ? & _). }
  split_and!; try done.
  - by rewrite (inv_attached e HI).
  - intros Hin. apply Hns. unfold sceneObjects.
    apply list_elem_of_bind. exists g. split; [|done].
    destruct (nextRef e); simpl; by left.
Qed.

Lemma extends_stray_group e e' g :
  extends e e' → g < nextRef e →
  g ∉ Sprites e → otype (heap e !!! g) = GroupT →
  (g ∉ Sprites e') ∧ otype (heap e' !!! g) = GroupT.
Proof.
  intros (Hn & Ht & Hs) Hlt Hg Hty. split.
  - intros Hin. destruct (Hs g Hin); [done|lia].
  - by rewrite Ht.
Qed.

(** C8: with a sprite selected, [DeleteSelectedSprite] takes its outline
    off it, takes the sprite out of the scene and out of [Sprites], detaches
    the gizmo and leaves nothing selected; whatever events follow, the
    deleted sprite is never selected, attached or listed again.  With
    nothing selected, it and the two triggers that lead to it change
    nothing. *)
Theorem C8_delete_selected (e : Editor) :
  Inv e →
  let e' := DeleteSelectedSprite e in
  (∀ g, SelectedSprite e = Some g →
     SelectedSprite e' = None ∧
     object (TransformControls e') = None ∧
     Sprites e' = filter (λ y, y ≠ g) (Sprites e) ∧
     (g ∈ children (heap e !!! Scene)) ∧ (g ∈ Sprites e) ∧
     (g ∉ Sprites e') ∧
     (g ∉ children (heap e' !!! Scene)) ∧ (g ∉ sceneObjects e') ∧
     sceneOutlines e' = [] ∧
     (∃ ol, selectionOutline (userData (heap e !!! g)) = Some ol ∧
            (ol ∈ children (heap e !!! g)) ∧
            (ol ∉ children (heap e' !!! g)) ∧
            parent (heap e' !!! ol) = None) ∧
     ∀ s s'', editor s = e' → steps s s'' →
            SelectedSprite (editor s'') ≠ Some g ∧
            object (TransformControls (editor s'')) ≠ Some g ∧
            (g ∉ Sprites (editor s'')) ∧
            (g ∉ sceneObjects (editor s''))) ∧
  (SelectedSprite e = None →
     e' = e ∧
     ∀ confirmed,
       deleteBtn_click confirmed e = e ∧
       keydown "Delete" confirmed e = (Returned, e) ∧
       keydown "Backspace" confirmed e = (Returned, e)).
Proof.
  intros HI e'. split.
  - intros g E.
    destruct (DeleteSelectedSprite_spec e g HI E)
      as (HI' & Hs' & Hsp' & _ & _ & Hn' & Hx' & ol & Hso & Hin & Hout & Hpo & _).
    fold e' in HI', Hs', Hsp', Hn', Hx', Hout, Hpo.
    pose proof (inv_selected e HI g E) as Hg.
    pose proof (inv_shape e HI) as HS.
    destruct (shape_sprites _ _ _ _ HS g Hg) as (Hlt & Hty & _).
    assert (g ∉ Sprites e') as Hg'
      by (rewrite Hsp'; by intros [? _]%list_elem_of_filter).
    assert (otype (heap e' !!! g) = GroupT) as Hty'
      by (destruct Hx' as (_ & Ht & _); by rewrite Ht).
    destruct (stray_group_unreferenced e' g HI' Hg' Hty') as (_ & _ & ? & ?).
    split_and!; try done.
    + by rewrite (inv_attached e' HI').
    + rewrite (shape_scene_children _ _ _ _ HS).
      apply elem_of_app. by right.
    + by rewrite (sceneOutlines_Inv e' HI'), Hs'.
    + by exists ol.
    + intros s s'' Hs Hsteps. rewrite <- Hs in HI'.
      destruct (steps_Inv s s'' HI' Hsteps) as (HI'' & Hx'').
      rewrite Hs in Hx''.
      destruct (extends_stray_group e' (editor s'') g Hx'') as (Hg'' & Hty'');
        [lia|done|done|].
      by destruct (stray_group_unreferenced _ g HI'' Hg'' Hty'')
        as (? & ? & _ & ?).
  - intros E.
    assert (e' = e) as He by (subst e'; unfold DeleteSelectedSprite; by rewrite E).
    split; [done|]. intros confirmed. split_and!.
    + unfold deleteBtn_click. by rewrite E.
    + unfold keydown, keydown_first, keydown_second.
      rewrite !(cycleMode_other "Delete") by done. simpl. by rewrite E.
    + unfold keydown, keydown_first, keydown_second.
      rewrite !(cycleMode_other "Backspace") by done. simpl. by rewrite E.
Qed.

(** C8, witness: deleting the selected one of two sprites. *)
Lemma C8_delete_selected_witness :
  SelectedSprite (DeleteSelectedSprite twoSprites) = None ∧
  Sprites (DeleteSelectedSprite twoSprites) = [4] ∧
  sceneOutlines (DeleteSelectedSprite twoSprites) = [].
Proof.
  destruct (C8_delete_selected twoSprites Inv_twoSprites) as (H & _).
  destruct (H 8) as (H1 & _ & H3 & _ & _ & _ & _ & _ & H9 & _);
    [vm_compute; reflexivity|].
  split; [exact H1|]. split; [|exact H9].
  rewrite H3. vm_compute. reflexivity.
Defined.

(** *** Picking *)

Lemma dispatch_onEditor_with_editor f e s :
  onEditor f (with_editor e s) = ((f e).1, with_editor (f e).2 s).
Proof. reflexivity. Qed.

Lemma reachable_draggingState : reachable 800 600 draggingState.
Proof.
  unfold reachable, draggingState, oneSprite.
  set (s0 := initialState 800 600).
  set (e1 := textureLoaded sampleTexture initialEditor).
  assert (steps s0 (with_editor e1 s0)) as H1.
  { apply (steps_step s0 s0 (TextureLoaded sampleTexture) Returned);
      [apply steps_refl|exact I|reflexivity|discriminate]. }
  assert (steps s0 (with_editor (addSpriteBtn_click e1).2 s0)) as H2.
  { apply (steps_step s0 (with_editor e1 s0) AddSpriteClick
             (addSpriteBtn_click e1).1); [exact H1|exact I| |].
    - apply (dispatch_onEditor_with_editor addSpriteBtn_click e1 s0).
    - subst e1. vm_compute. discriminate. }
  apply (steps_step s0 (with_editor (addSpriteBtn_click e1).2 s0)
           (DraggingChanged true) Returned);
    [exact H2|exact I|reflexivity|discriminate].
Qed.

(** C9, as stated, fails: while the gizmo reports a drag
    ([IsTransformActive]), a primary-button click that hits nothing returns
    at once and the sprite stays selected. *)
Lemma C9_click_during_drag_counterexample :
  reachable 800 600 draggingState ∧
  IsTransformActive draggingState = true ∧
  SelectedSprite (editor draggingState) = Some 4 ∧
  dispatch (Click 0 400 300 []) draggingState = (Returned, draggingState) ∧
  SelectedSprite (editor (dispatch (Click 0 400 300 []) draggingState).2)
  ≠ None.
Proof.
  split; [apply reachable_draggingState|].
  split; [reflexivity|].
  assert (SelectedSprite (editor draggingState) = Some 4) as E.
  { change (SelectedSprite oneSprite = Some 4).
    vm_compute. reflexivity. }
  split; [exact E|]. split; [reflexivity|].
  change (dispatch (Click 0 400 300 []) draggingState).2 with draggingState.
  rewrite E. discriminate.
Qed.

(** C9, amended: a primary-button click that arrives while no gizmo drag is
    in progress, and whose ray meets no object of a sprite group, returns
    normally and leaves nothing selected: the gizmo is detached and no
    outline remains.  A click with button 2, or during a gizmo drag, changes
    nothing. *)
Theorem C9_pick_nothing_deselects
    (s : State) (e : Editor)
    (button : Z) (clientX clientY : R) (Intersects : list ref) :
  Inv e →
  (∀ r, r ∈ Intersects → r ∈ sceneObjects e) →
  (∀ r g, r ∈ Intersects → g ∈ Sprites e →
          r ∉ subtree (nextRef e) (heap e) g) →
  (button ≠ 2%Z → IsTransformActive s = false →
   ∃ s', dispatch (Click button clientX clientY Intersects) (with_editor e s)
         = (Returned, s') ∧
         editor s' = DeselectCurrentSprite e ∧
         SelectedSprite (editor s') = None ∧
         object (TransformControls (editor s')) = None ∧
         sceneOutlines (editor s') = [] ∧
         Sprites (editor s') = Sprites e) ∧
  (button = 2%Z ∨ IsTransformActive s = true →
   dispatch (Click button clientX clientY Intersects) (with_editor e s)
   = (Returned, with_editor e s)).
Proof.
  intros HI Hv Hno. split.
  - intros Hb Hact. simpl. unfold click. simpl.
    destruct (Z.eqb_spec button 2) as [?|_]; [done|]. rewrite Hact. simpl.
    destruct (pick_spec e Intersects HI Hv)
      as (e' & -> & HI' & _ & _ & _ & _ & He').
    specialize (He' Hno). subst e'.
    destruct (DeselectCurrentSprite_spec e HI) as (_ & Hs & Hsp & _).
    eexists. split; [reflexivity|]. simpl. split_and!; try done.
    + by rewrite (inv_attached _ HI').
    + by rewrite (sceneOutlines_Inv _ HI'), Hs.
  - intros [->|Hact]; simpl; unfold click; simpl; [done|].
    rewrite Hact. by rewrite orb_true_r.
Qed.

(** C9, witness: with one sprite selected, a click that hits the grid
    only. *)
Lemma C9_pick_nothing_deselects_witness :
  ∃ s', dispatch (Click 0 400 300 [GridHelper])
          (with_editor oneSprite (initialState 800 600)) = (Returned, s') ∧
        SelectedSprite (editor s') = None.
Proof.
  destruct (C9_pick_nothing_deselects (initialState 800 600) oneSprite
              0 400 300 [GridHelper] Inv_oneSprite) as (H & _).
  - intros r ->%list_elem_of_singleton.
    apply (bool_decide_unpack _). vm_compute. exact I.
  - intros r g ->%list_elem_of_singleton Hg.
    assert (Sprites oneSprite = [4]) as E by (vm_compute; reflexivity).
    rewrite E in Hg. apply list_elem_of_singleton in Hg as ->.
    apply (bool_decide_unpack _). vm_compute. exact I.
  - destruct H as (s' & Hd & _ & Hs & _); [discriminate|reflexivity|].
    exists s'. split; [exact Hd|exact Hs].
Defined.

(** * Further properties of the listeners *)

(** ** Orbit camera and pointer input *)

Section OrbitExtras.
Local Open Scope R_scope.

Lemma CameraSync_initial width height : CameraSync (initialState width height).
Proof. split; [simpl; lra|]. split; reflexivity. Qed.

Lemma dispatch_CameraSync ev s : CameraSync s → CameraSync (dispatch ev s).2.
Proof.
  intros (Hr & Hp & Ho). destruct ev; simpl; try (split_and!; assumption).
  - unfold mousedown. destruct (_ && _); split_and!; assumption.
  - unfold mousemove. destruct (_ || _); [split_and!; assumption|].
    split_and!; [exact Hr|reflexivity|reflexivity].
  - unfold wheel. destruct (IsTransformActive s); [split_and!; assumption|].
    split_and!; [|reflexivity|reflexivity]. simpl. apply Rmax_l.
  - unfold click. destruct (_ || _); split_and!; assumption.
  - destruct (ModeButtons !! i) as [[[? ?] ?]|]; split_and!; assumption.
Qed.

Lemma MAX_VALUE_bound : 10 * 1.05 ^ MAX_WHEEL_EVENTS <= MAX_VALUE.
Proof.
  assert (MAX_WHEEL_EVENTS = (14 * 1000)%nat) as ->
    by (vm_compute; reflexivity).
  rewrite pow_mult.
  assert (0 < 2) as H2 by lra.
  pose proof (pow_lt 2 1000 H2) as Hpos. clear H2.
  assert (0 <= 1.05 ^ 14 <= 2) as H14 by (clear Hpos; simpl; lra).
  pose proof (pow_incr _ _ 1000 H14) as H. clear H14.
  assert (IZR (16 * 2 ^ Z.of_nat 1000) <= MAX_VALUE) as HM.
  { unfold MAX_VALUE. apply IZR_le. apply Z.leb_le. vm_compute. reflexivity. }
  rewrite mult_IZR, <- pow_IZR in HM.
  revert H Hpos HM.
  generalize ((1.05 ^ 14) ^ 1000) (2 ^ 1000) MAX_VALUE.
  intros a b m H Hpos HM. lra.
Qed.

Lemma wheel_growth deltaY s :
  1.1 <= Radius s → 1.1 <= Radius (wheel deltaY s) <= 1.05 * Radius s.
Proof.
  intros Hr. unfold wheel. destruct (IsTransformActive s); [lra|]. simpl.
  split; [apply Rmax_l|].
  apply Rmax_lub; [lra|].
  destruct (Rmax_cases 0.1 ((Radius s - 1) / 10)) as [[? ->]|[? ->]];
    destruct (Rlt_dec 0 deltaY); lra.
Qed.

Lemma dispatch_Radius ev s :
  (∃ deltaY, ev = Wheel deltaY) ∨ Radius (dispatch ev s).2 = Radius s.
Proof.
  destruct ev; simpl; try (by right).
  - right. unfold mousedown. by destruct (_ && _).
  - right. unfold mousemove. by destruct (_ || _).
  - left. by eexists.
  - right. unfold click. by destruct (_ || _).
  - right. by destruct (ModeButtons !! i) as [[[? ?] ?]|].
Qed.

Lemma run_Radius_bound events s k :
  CameraSync s → Radius s <= 10 * 1.05 ^ k →
  CameraSync (run events s).2 ∧
  Radius (run events s).2 <= 10 * 1.05 ^ (k + wheelEvents events).
Proof.
  revert s k. induction events as [|ev rest IH]; intros s k Hs Hk.
  - simpl. by rewrite Nat.add_0_r.
  - pose proof (dispatch_CameraSync ev s Hs) as Hs'.
    assert (Radius (dispatch ev s).2
            <= 10 * 1.05 ^ (k + (wheelEvents (ev :: rest)
                                 - wheelEvents rest))) as Hk'.
    { destruct (dispatch_Radius ev s) as [[deltaY ->]| ->].
      - cbn [wheelEvents].
        replace (k + (S (wheelEvents rest) - wheelEvents rest))%nat
          with (S k) by lia.
        destruct Hs as (Hr & _).
        pose proof (wheel_growth deltaY s Hr) as [_ Hg].
        cbn [dispatch snd]. rewrite <- tech_pow_Rmult.
        revert Hk Hg. generalize (1.05 ^ k) (Radius (wheel deltaY s)) (Radius s).
        clear. intros p a r Hk Hg. lra.
      - apply Rle_trans with (10 * 1.05 ^ k); [exact Hk|].
        apply Rmult_le_compat_l; [lra|].
        apply Rle_pow; [lra|lia]. }
    assert (wheelEvents rest ≤ wheelEvents (ev :: rest))%nat as Hle
      by (destruct ev; simpl; lia).
    destruct (IH (dispatch ev s).2 _ Hs' Hk') as [Hc Hb].
    replace (k + (wheelEvents (ev :: rest) - wheelEvents rest)
             + wheelEvents rest)%nat
      with (k + wheelEvents (ev :: rest))%nat in Hb by lia.
    cbn [run]. destruct (dispatch ev s) as [[] s']; cbn [snd] in *.
    + by split.
    + by split.
    + split; [exact Hs'|].
      apply Rle_trans
        with (10 * 1.05 ^ (k + (wheelEvents (ev :: rest)
                                - wheelEvents rest))); [exact Hk'|].
      apply Rmult_le_compat_l; [lra|]. apply Rle_pow; [lra|lia].
Qed.

(** X4: the camera follows the orbit values for as long as the radius is a
    finite number.  After any sequence of events that holds at most
    [MAX_WHEEL_EVENTS] (14000) wheel events, in the real-number reading of
    the script, the radius lies between the floor 1.1 and
    [10 * 1.05 ^ n] for [n] wheel events, which is below
    [Number.MAX_VALUE]; the camera is where the orbit values put it, at
    distance [Radius] from the origin, at height
    [Radius * cos PhiClamped], off the vertical axis and so not at the
    origin, and turned toward the origin from that very position. *)
Theorem X4_camera_follows_orbit (width height : R) (events : list Event) :
  wheelEvents events ≤ MAX_WHEEL_EVENTS →
  let s := (run events (initialState width height)).2 in
  let c := position (Camera s) in
  1.1 <= Radius s <= 10 * 1.05 ^ wheelEvents events ∧
  Radius s <= MAX_VALUE ∧
  c = sphericalPosition (Radius s) (Theta s) (PhiClamped s) ∧
  orientation (Camera s) = LookingAt c (mkVector3 0 0 0) ∧
  x c * x c + y c * y c + z c * z c = Radius s * Radius s ∧
  y c = Radius s * cos (PhiClamped s) ∧
  0 < x c * x c + z c * z c ∧
  c ≠ mkVector3 0 0 0.
Proof.
  intros Hn. cbv zeta.
  destruct (run_Radius_bound events (initialState width height) 0)
    as [(Hr & Hp & Ho) Hb].
  { apply CameraSync_initial. }
  { simpl. lra. }
  rewrite Nat.add_0_l in Hb.
  set (s := (run events (initialState width height)).2) in *.
  assert (Radius s <= MAX_VALUE) as HM.
  { apply Rle_trans with (10 * 1.05 ^ wheelEvents events); [exact Hb|].
    apply Rle_trans with (10 * 1.05 ^ MAX_WHEEL_EVENTS);
      [|apply MAX_VALUE_bound].
    apply Rmult_le_compat_l; [lra|]. apply Rle_pow; [lra|exact Hn]. }
  split; [by split|]. split; [exact HM|]. clear HM Hb Hn.
  split; [exact Hp|]. split; [exact Ho|]. rewrite Hp.
  split_and!.
  4: by apply sphericalPosition_not_origin.
  all: simpl.
  all: pose proof (sin2_cos2 (PhiClamped s)) as H1.
  all: pose proof (sin2_cos2 (Theta s)) as H2; unfold Rsqr in *.
  all: pose proof (PhiClamped_bounds s) as [Hlo Hhi].
  all: assert (0 < sin (PhiClamped s)) as Hs by (apply sin_gt_0; lra).
  - replace (Radius s * sin (PhiClamped s) * sin (Theta s) *
             (Radius s * sin (PhiClamped s) * sin (Theta s))
             + Radius s * cos (PhiClamped s) * (Radius s * cos (PhiClamped s))
             + Radius s * sin (PhiClamped s) * cos (Theta s) *
               (Radius s * sin (PhiClamped s) * cos (Theta s)))
      with (Radius s * Radius s
            * (sin (PhiClamped s) * sin (PhiClamped s)
               * (sin (Theta s) * sin (Theta s) + cos (Theta s) * cos (Theta s))
               + cos (PhiClamped s) * cos (PhiClamped s))) by ring.
    rewrite H2, Rmult_1_r, H1. ring.
  - reflexivity.
  - replace (Radius s * sin (PhiClamped s) * sin (Theta s) *
             (Radius s * sin (PhiClamped s) * sin (Theta s))
             + Radius s * sin (PhiClamped s) * cos (Theta s) *
               (Radius s * sin (PhiClamped s) * cos (Theta s)))
      with ((Radius s * sin (PhiClamped s)) * (Radius s * sin (PhiClamped s))
            * (sin (Theta s) * sin (Theta s) + cos (Theta s) * cos (Theta s)))
      by ring.
    rewrite H2, Rmult_1_r.
    assert (0 < Radius s * sin (PhiClamped s))
      by (apply Rmult_lt_0_compat; lra).
    by apply Rmult_lt_0_compat.
Qed.

(** X4, witness: a zoom-out followed by a short drag on the fresh page. *)
Lemma X4_camera_follows_orbit_witness :
  let s := (run [Wheel 100; MouseDown 2 0 0; MouseMove 10 10]
              (initialState 800 600)).2 in
  1.1 <= Radius s <= 10 * 1.05 ^ 1 ∧ Radius s <= MAX_VALUE.
Proof.
  destruct (X4_camera_follows_orbit 800 600
              [Wheel 100; MouseDown 2 0 0; MouseMove 10 10])
    as (H1 & H2 & _).
  - apply Nat.leb_le. vm_compute. reflexivity.
  - split; [exact H1|exact H2].
Defined.

Lemma last_cons {A} (a d : A) (l : list A) :
  List.last (a :: l) d = List.last l a.
Proof.
  revert a d. induction l as [|b l IH]; intros a d; [reflexivity|].
  change (List.last (a :: b :: l) d) with (List.last (b :: l) d).
  by rewrite !IH.
Qed.

Lemma run_moves_dragging (moves : list (R * R)) (s : State) :
  IsDragging s = true → IsTransformActive s = false →
  let s' := (run (map (λ p, MouseMove p.1 p.2) moves) s).2 in
  let final := List.last moves (PreviousMousePosition s) in
  Theta s' = Theta s - (fst final - fst (PreviousMousePosition s)) * 0.005 ∧
  Phi s' = Phi s - (snd final - snd (PreviousMousePosition s)) * 0.005 ∧
  Radius s' = Radius s ∧ editor s' = editor s ∧
  IsDragging s' = true ∧ PreviousMousePosition s' = final.
Proof.
  revert s. induction moves as [|[mx my] rest IH]; intros s Hd Ha.
  - simpl. split_and!; try done; lra.
  - cbn [map run dispatch fst snd].
    assert (mousemove mx my s
            = with_PreviousMousePosition (mx, my)
                (UpdateCameraPosition
                   (with_Phi (Phi s - (my - snd (PreviousMousePosition s)) * 0.005)
                      (with_Theta
                         (Theta s - (mx - fst (PreviousMousePosition s)) * 0.005)
                         s)))) as E
      by (unfold mousemove; rewrite Hd, Ha; reflexivity).
    set (s1 := mousemove mx my s) in *.
    assert (IsDragging s1 = true) as Hd1 by (rewrite E; exact Hd).
    assert (IsTransformActive s1 = false) as Ha1 by (rewrite E; exact Ha).
    destruct (IH s1 Hd1 Ha1) as (Ht & Hp & Hr & He & Hdr & Hprev).
    rewrite last_cons.
    assert (PreviousMousePosition s1 = (mx, my)) as Hp1 by (rewrite E; reflexivity).
    rewrite Hp1 in *. simpl in Ht, Hp.
    assert (Theta s1 = Theta s - (mx - fst (PreviousMousePosition s)) * 0.005)
      as Ht1 by (rewrite E; reflexivity).
    assert (Phi s1 = Phi s - (my - snd (PreviousMousePosition s)) * 0.005)
      as Hph1 by (rewrite E; reflexivity).
    assert (Radius s1 = Radius s) as Hr1 by (rewrite E; reflexivity).
    assert (editor s1 = editor s) as He1 by (rewrite E; reflexivity).
    split_and!; try done; try congruence; lra.
Qed.

(** X1: a drag with the right button, started while the gizmo is idle, turns
    the camera by 0.005 radian per pixel between the point of the press and
    the last point reported, whatever path the pointer took in between;
    [Theta] follows the horizontal and [Phi] the vertical displacement, and
    neither the radius nor the editor changes. *)
Theorem X1_drag_rotates_by_displacement
    (s : State) (x0 y0 : R) (moves : list (R * R)) :
  IsTransformActive s = false →
  let s' := (run (dragEvents x0 y0 moves) s).2 in
  let final := List.last moves (x0, y0) in
  (run (dragEvents x0 y0 moves) s).1 = Returned ∧
  Theta s' = Theta s - (fst final - x0) * 0.005 ∧
  Phi s' = Phi s - (snd final - y0) * 0.005 ∧
  Radius s' = Radius s ∧ editor s' = editor s ∧
  PreviousMousePosition s' = final.
Proof.
  intros Ha. unfold dragEvents. cbn [run dispatch].
  assert (mousedown 2 x0 y0 s
          = with_PreviousMousePosition (x0, y0) (with_IsDragging true s)) as E
    by (unfold mousedown; rewrite Ha; reflexivity).
  set (s1 := mousedown 2 x0 y0 s) in *.
  destruct (run_moves_dragging moves s1) as (Ht & Hp & Hr & He & _ & Hprev);
    [by rewrite E|by rewrite E|].
  assert (PreviousMousePosition s1 = (x0, y0)) as Hp1 by (rewrite E; reflexivity).
  rewrite Hp1 in *. simpl in Ht, Hp.
  split.
  - clear. generalize s1. induction moves as [|[mx my] rest IH]; intros s0;
      [reflexivity|]. cbn [map run dispatch]. apply IH.
  - rewrite Ht, Hp, Hr, He, Hprev, E. split_and!; reflexivity.
Qed.

(** X1, witness: press at (100,100), move through (130,90) to (160,140). *)
Lemma X1_drag_rotates_by_displacement_witness :
  Theta (run (dragEvents 100 100 [(130, 90); (160, 140)])
             (initialState 800 600)).2
  = PI / 4 - (160 - 100) * 0.005.
Proof.
  destruct (X1_drag_rotates_by_displacement (initialState 800 600) 100 100
              [(130, 90); (160, 140)] eq_refl) as (_ & H & _).
  exact H.
Defined.

Lemma run_moves_idle (moves : list (R * R)) (s : State) :
  IsDragging s = false →
  run (map (λ p, MouseMove p.1 p.2) moves) s = (Returned, s).
Proof.
  intros Hd. induction moves as [|[mx my] rest IH]; [reflexivity|].
  cbn [map run dispatch fst snd].
  assert (mousemove mx my s = s) as -> by (unfold mousemove; by rewrite Hd).
  exact IH.
Qed.

(** X2: once the button is released or the pointer leaves the canvas,
    moving the mouse no longer changes anything, and a press of another
    button than the right one does not start a drag. *)
Theorem X2_no_rotation_without_drag
    (s : State) (button : Z) (x0 y0 : R) (moves : list (R * R)) :
  run (map (λ p, MouseMove p.1 p.2) moves) (dispatch MouseUp s).2
  = (Returned, (dispatch MouseUp s).2) ∧
  run (map (λ p, MouseMove p.1 p.2) moves) (dispatch MouseLeave s).2
  = (Returned, (dispatch MouseLeave s).2) ∧
  (button ≠ 2%Z → IsDragging s = false →
   run (MouseDown button x0 y0 :: map (λ p, MouseMove p.1 p.2) moves) s
   = (Returned, s)).
Proof.
  split_and!.
  - by apply run_moves_idle.
  - by apply run_moves_idle.
  - intros Hb Hd. cbn [run dispatch].
    assert (mousedown button x0 y0 s = s) as ->.
    { unfold mousedown. by destruct (Z.eqb_spec button 2). }
    by apply run_moves_idle.
Qed.

(** X2, witness: a left-button press and two moves on the fresh page. *)
Lemma X2_no_rotation_without_drag_witness :
  run (MouseDown 0 100 100
         :: map (λ p, MouseMove p.1 p.2) [(130, 90); (160, 140)])
      (initialState 800 600)
  = (Returned, initialState 800 600).
Proof.
  destruct (X2_no_rotation_without_drag (initialState 800 600) 0 100 100
              [(130, 90); (160, 140)]) as (_ & _ & H).
  apply H; [discriminate|reflexivity].
Defined.



(** X5: a wheel event within the range of finite numbers.  With the gizmo
    idle, the radius at or above its floor and small enough for the
    zoomed-out radius to be a finite number
    ([1.05 * Radius <= Number.MAX_VALUE]), a scroll-down event raises the
    radius by at least 0.05 and by at most 5 percent, so it stays finite; a
    scroll-up event lowers it without going below 1.1, and leaves it
    unchanged only at the floor itself; the angles are never touched. *)
Theorem X5_wheel_progress (s : State) (deltaY : R) :
  IsTransformActive s = false →
  1.1 <= Radius s → 1.05 * Radius s <= MAX_VALUE →
  let s' := (dispatch (Wheel deltaY) s).2 in
  Theta s' = Theta s ∧ Phi s' = Phi s ∧ editor s' = editor s ∧
  1.1 <= Radius s' <= MAX_VALUE ∧
  (0 < deltaY →
   Radius s' = Radius s + 0.5 * Rmax 0.1 ((Radius s - 1) / 10) ∧
   Radius s + 0.05 <= Radius s' <= 1.05 * Radius s) ∧
  (deltaY <= 0 →
   1.1 <= Radius s' <= Radius s ∧
   (Radius s' = Radius s ↔ Radius s = 1.1)).
Proof.
  intros Ha Hr HM. cbv zeta. cbn [dispatch snd].
  pose proof (wheel_growth deltaY s Hr) as [Hlo Hhi].
  split; [|split; [|split; [|split]]].
  1-3: unfold wheel; rewrite Ha; reflexivity.
  { split; [exact Hlo|]. by apply Rle_trans with (1.05 * Radius s). }
  revert Hlo Hhi. clear HM. rewrite (wheel_Radius deltaY s Ha).
  intros Hlo Hhi. revert Hlo Hhi.
  destruct (Rmax_cases 0.1 ((Radius s - 1) / 10)) as [[? ->]|[? ->]];
    destruct (Rlt_dec 0 deltaY); intros Hlo Hhi; split; intros Hd; try lra;
    revert Hlo Hhi;
    match goal with |- context [Rmax ?a ?b] =>
      destruct (Rmax_cases a b) as [[? ->]|[? ->]] end;
    intros Hlo Hhi; repeat split; try lra; intros; lra.
Qed.

(** X5, witness: one scroll-up event on the fresh page. *)
Lemma X5_wheel_progress_witness :
  1.1 <= Radius (dispatch (Wheel (-100)) (initialState 800 600)).2 <= 10.
Proof.
  destruct (X5_wheel_progress (initialState 800 600) (-100) eq_refl)
    as (_ & _ & _ & _ & _ & H).
  - simpl. lra.
  - apply Rle_trans with (10 * 1.05 ^ MAX_WHEEL_EVENTS);
      [|apply MAX_VALUE_bound].
    assert (1.05 ^ 1 <= 1.05 ^ MAX_WHEEL_EVENTS) as H1
      by (apply Rle_pow; [lra|apply Nat.leb_le; vm_compute; reflexivity]).
    rewrite pow_1 in H1. revert H1. generalize (1.05 ^ MAX_WHEEL_EVENTS). intros p H1.
    cbn [Radius initialState UpdateCameraPosition with_Camera]. simpl. lra.
  - destruct H as (H & _); [lra|]. exact H.
Defined.

End OrbitExtras.

(** ** Texture filters and the keyboard *)

(** *** Texture filters *)

Lemma ObjectPrototypeKeys_spec FilterType :
  existsb (String.eqb FilterType) ObjectPrototypeKeys = true
  ↔ FilterType ∈ ObjectPrototypeKeys.
Proof.
  rewrite existsb_exists. split.
  - intros (k & Hk & ->%String.eqb_eq). by apply list_elem_of_In.
  - intros Hk. exists FilterType. split; [by apply list_elem_of_In|].
    apply String.eqb_refl.
Qed.

Lemma TextureFilters_known FilterType :
  is_Some (TextureFilters FilterType) ↔
  FilterType ∈ ["Nearest Neighbor"; "Bilinear"; "Trilinear"]%string
  ∨ FilterType ∈ ObjectPrototypeKeys.
Proof.
  unfold TextureFilters.
  destruct (String.eqb_spec FilterType "Nearest Neighbor") as [->|H1];
    [split; [left; constructor|by eexists]|].
  destruct (String.eqb_spec FilterType "Bilinear") as [->|H2];
    [split; [left; do 2 constructor|by eexists]|].
  destruct (String.eqb_spec FilterType "Trilinear") as [->|H3];
    [split; [left; do 3 constructor|by eexists]|].
  destruct (existsb _ _) eqn:E.
  - split; [|by eexists]. intros _. right. by apply ObjectPrototypeKeys_spec.
  - split; [by intros [? ?]|]. intros [Hk|Hk].
    + repeat (apply elem_of_cons in Hk as [->|Hk]); try done.
      by apply elem_of_nil in Hk.
    + apply ObjectPrototypeKeys_spec in Hk. congruence.
Qed.

Lemma TextureFilters_inherited FilterType :
  FilterType ∈ ObjectPrototypeKeys →
  TextureFilters FilterType = Some (None, None).
Proof.
  intros Hk.
  repeat (apply elem_of_cons in Hk as [->|Hk]); try reflexivity.
  by apply elem_of_nil in Hk.
Qed.

(** X6: [ApplyTextureFilter] and the names it reacts to.  The lookup in
    [TextureFilters] succeeds for the three filter names and for the
    property names inherited from [Object.prototype], and for no other.
    For a name it does not find, the texture is left untouched.  For an
    inherited name both filters become [undefined], mipmaps are switched
    off and the texture is flagged for upload.  Whenever the lookup
    succeeds the result does not depend on what the texture carried before,
    so the name applied last wins and applying it again changes nothing,
    the filters are the ones looked up, the texture is flagged for upload,
    and mipmaps are generated for "Trilinear" only. *)
Theorem X6_ApplyTextureFilter (T T' : Texture) (FilterType Earlier : string) :
  (is_Some (TextureFilters FilterType) ↔
   FilterType ∈ ["Nearest Neighbor"; "Bilinear"; "Trilinear"]%string
   ∨ FilterType ∈ ObjectPrototypeKeys) ∧
  (TextureFilters FilterType = None → ApplyTextureFilter T FilterType = T) ∧
  (FilterType ∈ ObjectPrototypeKeys →
   ApplyTextureFilter T FilterType = mkTexture None None false true) ∧
  (is_Some (TextureFilters FilterType) →
   ApplyTextureFilter T FilterType = ApplyTextureFilter T' FilterType ∧
   ApplyTextureFilter (ApplyTextureFilter T Earlier) FilterType
   = ApplyTextureFilter T FilterType ∧
   TextureFilters FilterType
   = Some (minFilter (ApplyTextureFilter T FilterType),
           magFilter (ApplyTextureFilter T FilterType)) ∧
   needsUpdate (ApplyTextureFilter T FilterType) = true ∧
   (generateMipmaps (ApplyTextureFilter T FilterType) = true
    ↔ FilterType = "Trilinear"%string)).
Proof.
  split; [apply TextureFilters_known|]. split; [|split].
  - intros H. unfold ApplyTextureFilter. by rewrite H.
  - intros Hk. unfold ApplyTextureFilter.
    rewrite (TextureFilters_inherited _ Hk).
    repeat (apply elem_of_cons in Hk as [->|Hk]); try reflexivity.
    by apply elem_of_nil in Hk.
  - intros [[mn mg] H]. unfold ApplyTextureFilter. rewrite H. simpl.
    split_and!; try done.
    destruct (String.eqb_spec FilterType "Trilinear"); split; done.
Qed.

(** X6, witness: the inherited name "constructor" wipes the filters of a
    texture that had "Nearest Neighbor", and "Trilinear" after it wins. *)
Lemma X6_ApplyTextureFilter_witness :
  ApplyTextureFilter (ApplyTextureFilter sampleTexture "Nearest Neighbor")
                     "constructor"
  = mkTexture None None false true ∧
  ApplyTextureFilter (ApplyTextureFilter sampleTexture "constructor")
                     "Trilinear"
  = ApplyTextureFilter sampleTexture "Trilinear".
Proof.
  split.
  - destruct (X6_ApplyTextureFilter
                (ApplyTextureFilter sampleTexture "Nearest Neighbor")
                sampleTexture "constructor" "Bilinear") as (_ & _ & H & _).
    apply H. constructor.
  - destruct (X6_ApplyTextureFilter sampleTexture sampleTexture
                "Trilinear" "constructor") as (_ & _ & _ & H).
    destruct H as (_ & H & _); [by eexists|]. exact H.
Defined.

(** *** Delete key, Backspace key and delete button *)

(** X10: the Delete key, the Backspace key and the delete button are one
    and the same operation on the editor; when the user confirms it is
    [DeleteSelectedSprite], when the user declines nothing changes. *)
Theorem X10_delete_triggers_agree (confirmed : bool) (e : Editor) :
  keydown "Delete" confirmed e = (Returned, deleteBtn_click confirmed e) ∧
  keydown "Backspace" confirmed e = (Returned, deleteBtn_click confirmed e) ∧
  deleteBtn_click true e = DeleteSelectedSprite e ∧
  deleteBtn_click false e = e.
Proof.
  assert (∀ c, deleteBtn_click c e
               = if c then DeleteSelectedSprite e else e) as Hb.
  { intros c. unfold deleteBtn_click, ShowDeleteConfirmation.
    destruct (SelectedSprite e) eqn:E; simpl; [done|].
    destruct c; [|done]. unfold DeleteSelectedSprite. by rewrite E. }
  split_and!; [| |apply Hb|apply Hb].
  - unfold keydown, keydown_first, keydown_second.
    rewrite !(cycleMode_other "Delete") by done. reflexivity.
  - unfold keydown, keydown_first, keydown_second.
    rewrite !(cycleMode_other "Backspace") by done. reflexivity.
Qed.

(** *** Index arithmetic of Tab and Delete *)

Lemma indexOf_lt (l : list ref) x : (indexOf l x < Z.of_nat (length l))%Z.
Proof.
  induction l as [|y l IH]; simpl; [lia|].
  case_decide; [lia|]. destruct (Z.ltb_spec (indexOf l x) 0); lia.
Qed.

Lemma nextSprite_in_range e :
  Sprites e ≠ [] → ∃ g, nextSprite e = Some g ∧ g ∈ Sprites e.
Proof.
  intros Hne.
  assert (0 < length (Sprites e)) as Hlen
    by (destruct (Sprites e); simpl; [done|lia]).
  unfold nextSprite. destruct (SelectedSprite e) as [sel|].
  - pose proof (indexOf_ge (Sprites e) sel).
    pose proof (indexOf_lt (Sprites e) sel).
    set (n := Z.of_nat (length (Sprites e))) in *.
    assert (0 ≤ Z.rem (indexOf (Sprites e) sel + 1) n < n)%Z as Hr.
    { rewrite Z.rem_mod_nonneg by lia. apply Z.mod_pos_bound. lia. }
    unfold at_index. destruct (Z.ltb_spec (Z.rem (indexOf (Sprites e) sel + 1) n) 0);
      [lia|].
    destruct (lookup_lt_is_Some_2 (Sprites e)
                (Z.to_nat (Z.rem (indexOf (Sprites e) sel + 1) n))) as (g & Hg);
      [lia|].
    exists g. split; [done|]. by eapply list_elem_of_lookup_2.
  - destruct (lookup_lt_is_Some_2 (Sprites e) 0) as (g & Hg); [lia|].
    exists g. split; [done|]. by eapply list_elem_of_lookup_2.
Qed.

(** X16: whatever the editor state, Tab with a non-empty collection calls
    [SelectSprite] on a sprite of the collection, never on [undefined]: the
    index (CurrentIndex + 1) % length stays inside the array, and a
    selection that is not in the array (index -1) sends Tab to index 0. *)
Theorem X16_tab_stays_in_range (e : Editor) :
  Sprites e ≠ [] →
  (∃ g, g ∈ Sprites e ∧ cycleNext e = SelectSprite (Some g) e) ∧
  (∀ sel, SelectedSprite e = Some sel → sel ∉ Sprites e →
          cycleNext e = SelectSprite (Sprites e !! 0) e).
Proof.
  intros Hne. rewrite cycleNext_unfold.
  destruct (Sprites e) as [|g0 l] eqn:E; [done|]. rewrite <- E. split.
  - destruct (nextSprite_in_range e) as (g & -> & Hg); [by rewrite E|].
    by exists g.
  - intros sel Hs Hnot. unfold nextSprite. rewrite Hs.
    rewrite (indexOf_not_elem _ _ Hnot). rewrite E. simpl. reflexivity.
Qed.

(** X16, witness: three sprites, nothing selected. *)
Lemma X16_tab_stays_in_range_witness :
  ∃ g, g ∈ Sprites threeSpritesIdle ∧
       cycleNext threeSpritesIdle = SelectSprite (Some g) threeSpritesIdle.
Proof.
  destruct (X16_tab_stays_in_range threeSpritesIdle) as (H & _).
  - vm_compute. discriminate.
  - exact H.
Defined.

Lemma splice1_indexOf_others (l : list ref) x y :
  y ≠ x → y ∈ splice1 (indexOf l x) l ↔ y ∈ l.
Proof.
  intros Hne. induction l as [|z l IH]; [done|].
  simpl. case_decide as Hz.
  - subst. unfold splice1. simpl. rewrite elem_of_cons. naive_solver.
  - pose proof (indexOf_ge l x). unfold splice1 in *.
    destruct (Z.ltb_spec (indexOf l x) 0) as [Hn|Hn]; simpl; [done|].
    destruct (Z.ltb_spec (indexOf l x + 1) 0); [lia|].
    replace (Z.to_nat (indexOf l x + 1)) with (S (Z.to_nat (indexOf l x)))
      by lia.
    simpl. rewrite !elem_of_cons. by rewrite IH.
Qed.

Lemma splice1_indexOf_length (l : list ref) x :
  length (splice1 (indexOf l x) l)
  = if decide (x ∈ l) then length l - 1 else length l.
Proof.
  induction l as [|z l IH]; [done|].
  simpl. destruct (decide (z = x)) as [->|Hz].
  - rewrite decide_True by constructor. unfold splice1. simpl. lia.
  - pose proof (indexOf_ge l x). unfold splice1 in *.
    destruct (Z.ltb_spec (indexOf l x) 0) as [Hn|Hn]; simpl.
    + rewrite decide_False; [done|].
      intros [?|Hin]%elem_of_cons; [congruence|].
      pose proof (indexOf_elem _ _ Hin). lia.
    + destruct (Z.ltb_spec (indexOf l x + 1) 0); [lia|].
      replace (Z.to_nat (indexOf l x + 1)) with (S (Z.to_nat (indexOf l x)))
        by lia.
      simpl. rewrite IH.
      destruct (decide (x ∈ l)) as [Hin|Hin].
      * rewrite decide_True by (by constructor).
        destruct l; [by apply elem_of_nil in Hin|simpl; lia].
      * pose proof (indexOf_not_elem _ _ Hin). lia.
Qed.

(** X17: whatever the editor state, [DeleteSelectedSprite] takes at most the
    selected sprite out of [Sprites] and keeps every other sprite, in
    particular when the selected sprite is not in the array: the guard
    [Index > -1] keeps [splice(-1, 1)] from dropping the last element. *)
Theorem X17_delete_keeps_other_sprites (e : Editor) (sel : ref) :
  SelectedSprite e = Some sel →
  let e' := DeleteSelectedSprite e in
  SelectedSprite e' = None ∧
  object (TransformControls e') = None ∧
  (∀ g, g ≠ sel → g ∈ Sprites e' ↔ g ∈ Sprites e) ∧
  length (Sprites e')
  = (if decide (sel ∈ Sprites e) then length (Sprites e) - 1
     else length (Sprites e)) ∧
  (sel ∉ Sprites e → Sprites e' = Sprites e).
Proof.
  intros Hs.
  assert (Sprites (DeleteSelectedSprite e)
          = splice1 (indexOf (Sprites e) sel) (Sprites e)) as Hsp.
  { unfold DeleteSelectedSprite. rewrite Hs.
    pose proof (indexOf_ge (Sprites e) sel).
    destruct (selectionOutline _); simpl;
      destruct (Z.gtb_spec (indexOf (Sprites e) sel) (-1)); simpl; try done;
      unfold splice1; destruct (Z.ltb_spec (indexOf (Sprites e) sel) 0);
      try done; lia. }
  simpl. rewrite Hsp. split_and!.
  - unfold DeleteSelectedSprite. by rewrite Hs.
  - unfold DeleteSelectedSprite. rewrite Hs.
    destruct (selectionOutline _); simpl;
      by destruct (Z.gtb (indexOf (Sprites e) sel) (-1)).
  - intros g Hg. by apply splice1_indexOf_others.
  - apply splice1_indexOf_length.
  - intros Hnot. rewrite (indexOf_not_elem _ _ Hnot). reflexivity.
Qed.

(** X17, witness: deleting the second of two sprites keeps the first. *)
Lemma X17_delete_keeps_other_sprites_witness :
  4 ∈ Sprites (DeleteSelectedSprite twoSprites) ↔ 4 ∈ Sprites twoSprites.
Proof.
  destruct (X17_delete_keeps_other_sprites twoSprites 8) as (_ & _ & H & _).
  - vm_compute. reflexivity.
  - apply H. discriminate.
Defined.

(** *** Escape *)

Lemma DeselectCurrentSprite_idle e :
  SelectedSprite e = None → DeselectCurrentSprite e = e.
Proof. intros H. unfold DeselectCurrentSprite. by rewrite H. Qed.

(** X9: Escape runs both listeners, the gizmo's [detach] of the first and
    [DeselectCurrentSprite] of the second, and together they are exactly
    [DeselectCurrentSprite]: nothing is selected afterwards, the gizmo is
    detached, the scene holds no outline, the collection and the mode index
    are as before, and a second Escape changes nothing more. *)
Theorem X9_escape_deselects (confirmed : bool) (e : Editor) :
  Inv e →
  let e' := DeselectCurrentSprite e in
  keydown "Escape" confirmed e = (Returned, e') ∧
  keydown "Escape" confirmed e' = (Returned, e') ∧
  SelectedSprite e' = None ∧
  object (TransformControls e') = None ∧
  sceneOutlines e' = [] ∧
  Sprites e' = Sprites e ∧
  CurrentModeIndex e' = CurrentModeIndex e ∧
  mode (TransformControls e') = mode (TransformControls e) ∧
  (SelectedSprite e = None → e' = e).
Proof.
  intros HI.
  destruct (DeselectCurrentSprite_spec e HI)
    as (HI' & Hs & Hsp & Hm & _ & _ & _ & _).
  assert (∀ e0, Inv e0 →
            keydown "Escape" confirmed e0
            = (Returned, DeselectCurrentSprite e0)) as Hk.
  { intros e0 HI0. unfold keydown, keydown_first, keydown_second.
    rewrite !(cycleMode_other "Escape") by done.
    change (String.eqb "Escape" "Escape") with true.
    cbn iota. rewrite (DeselectCurrentSprite_detached e0 HI0).
    change (String.eqb "Escape" "Delete") with false.
    change (String.eqb "Escape" "Backspace") with false.
    change (String.eqb "Escape" "Tab") with false.
    reflexivity. }
  simpl. split_and!; try done.
  - by apply Hk.
  - rewrite (Hk _ HI'). by rewrite (DeselectCurrentSprite_idle _ Hs).
  - by rewrite (inv_attached _ HI').
  - by rewrite (sceneOutlines_Inv _ HI'), Hs.
  - rewrite (inv_mode _ HI'), (inv_mode _ HI). by rewrite Hm.
  - apply DeselectCurrentSprite_idle.
Qed.

(** X9, witness: Escape with the second of two sprites selected. *)
Lemma X9_escape_deselects_witness :
  keydown "Escape" false twoSprites
  = (Returned, DeselectCurrentSprite twoSprites).
Proof.
  destruct (X9_escape_deselects false twoSprites Inv_twoSprites) as (H & _).
  exact H.
Defined.

(** *** Gizmo mode *)

Lemma Editor_eta e :
  mkEditor (heap e) (nextRef e) (TransformControls e) (CurrentModeIndex e)
           (Sprites e) (SelectedSprite e) (UserTexture e) (CurrentFilterType e)
  = e.
Proof. by destruct e. Qed.

Lemma pair_snd_eq {A B} (a a' : A) (b b' : B) : (a, b) = (a', b') → b = b'.
Proof. congruence. Qed.

Lemma keydown_Space_selected_state confirmed e :
  Inv e → is_Some (SelectedSprite e) →
  keydown "Space" confirmed e
  = (Returned,
     with_TransformControls
       (mkControls (object (TransformControls e))
                   (TransformModes !! ((CurrentModeIndex e + 2) mod 3)))
       (with_CurrentModeIndex ((CurrentModeIndex e + 2) mod 3) e)).
Proof.
  intros HI Hsel. rewrite <- (inv_attached e HI) in Hsel.
  unfold keydown, keydown_first, keydown_second.
  rewrite (cycleMode_attached e Hsel).
  rewrite cycleMode_attached by done.
  change (String.eqb "Space" "Escape") with false.
  change (String.eqb "Space" "Delete") with false.
  change (String.eqb "Space" "Backspace") with false.
  change (String.eqb "Space" "Tab") with false.
  cbn [orb andb].
  cbn [CurrentModeIndex TransformControls SelectedSprite mode object
       with_TransformControls with_CurrentModeIndex setMode
       heap nextRef Sprites UserTexture CurrentFilterType].
  rewrite Nat.Div0.add_mod_idemp_l.
  replace (CurrentModeIndex e + 1 + 1) with (CurrentModeIndex e + 2) by lia.
  reflexivity.
Qed.

(** X12: with a sprite selected, Space moves the mode index by two (both
    listeners run), so the modes come in the order translate, scale, rotate;
    the third press brings the editor back to exactly the state before the
    first. *)
Theorem X12_space_has_period_three (confirmed : bool) (e : Editor) :
  Inv e → is_Some (SelectedSprite e) →
  (∃ e1, keydownTimes "Space" confirmed 1 e = (Returned, e1) ∧
         CurrentModeIndex e1 = (CurrentModeIndex e + 2) mod 3 ∧
         mode (TransformControls e1)
         = TransformModes !! ((CurrentModeIndex e + 2) mod 3) ∧
         e1 ≠ e) ∧
  (∃ e2, keydownTimes "Space" confirmed 2 e = (Returned, e2) ∧
         CurrentModeIndex e2 = (CurrentModeIndex e + 1) mod 3 ∧
         mode (TransformControls e2)
         = TransformModes !! ((CurrentModeIndex e + 1) mod 3) ∧
         e2 ≠ e) ∧
  keydownTimes "Space" confirmed 3 e = (Returned, e).
Proof.
  intros HI Hsel.
  pose proof (inv_mode_index e HI) as Hlt. simpl in Hlt.
  destruct (keydown_spec "Space" confirmed e HI) as (e1 & He1 & HI1 & _).
  pose proof (keydown_Space_selected_state confirmed e HI Hsel) as E1.
  rewrite He1 in E1. apply pair_snd_eq in E1.
  assert (is_Some (SelectedSprite e1)) as Hsel1 by (by rewrite E1).
  destruct (keydown_spec "Space" confirmed e1 HI1) as (e2 & He2 & HI2 & _).
  pose proof (keydown_Space_selected_state confirmed e1 HI1 Hsel1) as E2.
  rewrite He2 in E2. apply pair_snd_eq in E2.
  assert (is_Some (SelectedSprite e2)) as Hsel2 by (by rewrite E2).
  pose proof (keydown_Space_selected_state confirmed e2 HI2 Hsel2) as E3.
  assert (CurrentModeIndex e1 = (CurrentModeIndex e + 2) mod 3) as C1
    by (by rewrite E1).
  assert (CurrentModeIndex e2 = (CurrentModeIndex e + 1) mod 3) as C2.
  { rewrite E2. cbn [CurrentModeIndex with_TransformControls
                     with_CurrentModeIndex]. rewrite C1.
    rewrite Nat.Div0.add_mod_idemp_l.
    replace (CurrentModeIndex e + 2 + 2) with (CurrentModeIndex e + 1 + 1 * 3)
      by lia.
    by rewrite Nat.Div0.mod_add. }
  assert ((CurrentModeIndex e2 + 2) mod 3 = CurrentModeIndex e) as C3.
  { rewrite C2, Nat.Div0.add_mod_idemp_l.
    replace (CurrentModeIndex e + 1 + 2) with (CurrentModeIndex e + 1 * 3)
      by lia.
    rewrite Nat.Div0.mod_add. by apply Nat.mod_small. }
  split_and!.
  - exists e1. cbn [keydownTimes]. rewrite He1. split_and!; try done.
    + by rewrite (inv_mode e1 HI1), C1.
    + intros Heq. rewrite Heq in C1. revert C1 Hlt. clear.
      generalize (CurrentModeIndex e). intros [|[|[|?]]]; simpl; lia.
  - exists e2. cbn [keydownTimes]. rewrite He1. cbn [keydownTimes].
    rewrite He2. split_and!; try done.
    + by rewrite (inv_mode e2 HI2), C2.
    + intros Heq. rewrite Heq in C2. revert C2 Hlt. clear.
      generalize (CurrentModeIndex e). intros [|[|[|?]]]; simpl; lia.
  - cbn [keydownTimes]. rewrite He1. cbn [keydownTimes]. rewrite He2.
    cbn [keydownTimes]. rewrite E3. f_equal. rewrite C3.
    rewrite E2, E1.
    cbn [CurrentModeIndex TransformControls SelectedSprite mode object
         with_TransformControls with_CurrentModeIndex setMode
         heap nextRef Sprites UserTexture CurrentFilterType].
    unfold with_TransformControls, with_CurrentModeIndex.
    cbn [CurrentModeIndex TransformControls SelectedSprite mode object
         heap nextRef Sprites UserTexture CurrentFilterType].
    rewrite <- (inv_mode e HI).
    replace (mkControls (object (TransformControls e))
                        (mode (TransformControls e)))
      with (TransformControls e) by (by destruct (TransformControls e)).
    apply Editor_eta.
Qed.

(** X12, witness: three presses of Space with one sprite selected. *)
Lemma X12_space_has_period_three_witness :
  keydownTimes "Space" false 3 oneSprite = (Returned, oneSprite).
Proof.
  destruct (X12_space_has_period_three false oneSprite Inv_oneSprite)
    as (_ & _ & H).
  - apply (bool_decide_unpack _). vm_compute. exact I.
  - exact H.
Defined.

(** ** Textures *)

(** *** Textures are left alone by the selection code *)

Lemma texturePart_modify f r h r' :
  (∀ o, texturePart (f o) = texturePart o) →
  texturePart (modify f r h !!! r') = texturePart (h !!! r').
Proof. intros Hf. rewrite modify_lookup. case_decide; subst; by rewrite ?Hf. Qed.

Lemma texturePart_remove this obj h r :
  texturePart (THREE.remove this obj h !!! r) = texturePart (h !!! r).
Proof.
  unfold THREE.remove. destruct (_ =? _)%Z; [done|].
  rewrite !texturePart_modify; done.
Qed.

Lemma texturePart_add this obj h r :
  texturePart (THREE.add this obj h !!! r) = texturePart (h !!! r).
Proof.
  unfold THREE.add. case_decide; [done|].
  rewrite !texturePart_modify by done.
  destruct (parent (h !!! obj)); [apply texturePart_remove|done].
Qed.

Lemma texturePart_outlineCleared e r :
  texturePart (outlineCleared e !!! r) = texturePart (heap e !!! r).
Proof.
  unfold outlineCleared. destruct (SelectedSprite e); [|done].
  destruct (selectionOutline _); [|done].
  unfold clearOutline. rewrite texturePart_modify by done.
  apply texturePart_remove.
Qed.

Lemma texturePart_addOutline g n h r :
  r ≠ n → texturePart (addOutline g n h !!! r) = texturePart (h !!! r).
Proof.
  intros Hne. unfold addOutline. rewrite texturePart_modify by done.
  rewrite texturePart_add. rewrite insert_lookup. by rewrite decide_False.
Qed.

Lemma texturePart_DeleteSelectedSprite e r :
  texturePart (heap (DeleteSelectedSprite e) !!! r) = texturePart (heap e !!! r).
Proof.
  unfold DeleteSelectedSprite. destruct (SelectedSprite e) as [sel|]; [|done].
  destruct (selectionOutline _); simpl;
    destruct (Z.gtb _ _); simpl; by rewrite !texturePart_remove.
Qed.

Lemma SelectSprite_texturePart e g e' r :
  Inv e → g ∈ Sprites e → SelectSprite (Some g) e = (Returned, e') →
  r ≠ nextRef e →
  texturePart (heap e' !!! r) = texturePart (heap e !!! r).
Proof.
  intros HI Hg He Hr.
  destruct (SelectSprite_spec e g HI Hg) as (e'' & He'' & _ & _ & _ & _ & _ & Hh & _).
  assert (e'' = e') as -> by congruence. rewrite Hh.
  rewrite texturePart_addOutline by done. apply texturePart_outlineCleared.
Qed.

Lemma texturePart_eq o o' :
  texturePart o = texturePart o' →
  material_map o = material_map o' ∧
  visiblePlane (userData o) = visiblePlane (userData o') ∧
  filterType (userData o) = filterType (userData o') ∧
  isSprite (userData o) = isSprite (userData o').
Proof. unfold texturePart. intros H. inversion H. auto. Qed.

Lemma TexInv_frame e e' :
  Inv e → TexInv e →
  (∀ g : ref, g ∈ Sprites e' → g ∈ Sprites e) →
  (∀ r : ref, r < nextRef e →
        texturePart (heap e' !!! r) = texturePart (heap e !!! r)) →
  TexInv e'.
Proof.
  intros HI HT Hs Hf g Hg. specialize (Hs g Hg).
  destruct (HT g Hs) as (p & T & Hp & HTp).
  destruct (shape_sprites _ _ _ _ (inv_shape e HI) g Hs)
    as (Hlt & _ & _ & _ & p' & b & Hp' & Hpl & _).
  rewrite Hp in Hp'. simplify_eq.
  destruct (texturePart_eq _ _ (Hf g Hlt)) as (_ & E2 & _).
  destruct (texturePart_eq _ _ (Hf p' Hpl)) as (E1 & _).
  exists p', T. by rewrite E2, E1.
Qed.

Lemma SelectSprite_TexInv e g e' :
  Inv e → TexInv e → g ∈ Sprites e →
  SelectSprite (Some g) e = (Returned, e') → TexInv e'.
Proof.
  intros HI HT Hg He.
  destruct (SelectSprite_spec e g HI Hg) as (e'' & He'' & _ & _ & Hsp & _).
  assert (e'' = e') as -> by congruence.
  apply (TexInv_frame e e' HI HT); [by rewrite Hsp|].
  intros r Hr. apply (SelectSprite_texturePart e g e' r HI Hg He). lia.
Qed.

Lemma DeselectCurrentSprite_TexInv e :
  Inv e → TexInv e → TexInv (DeselectCurrentSprite e).
Proof.
  intros HI HT.
  destruct (DeselectCurrentSprite_spec e HI) as (_ & _ & Hsp & _ & _ & Hh & _).
  apply (TexInv_frame e _ HI HT); [by rewrite Hsp|].
  intros r _. rewrite Hh. apply texturePart_outlineCleared.
Qed.

Lemma DeleteSelectedSprite_TexInv e :
  Inv e → TexInv e → TexInv (DeleteSelectedSprite e).
Proof.
  intros HI HT. apply (TexInv_frame e _ HI HT).
  - destruct (SelectedSprite e) as [sel|] eqn:E.
    + destruct (DeleteSelectedSprite_spec e sel HI E) as (_ & _ & -> & _).
      by intros g [_ ?]%list_elem_of_filter.
    + unfold DeleteSelectedSprite. by rewrite E.
  - intros r _. apply texturePart_DeleteSelectedSprite.
Qed.

Lemma cycleNext_TexInv e e' :
  Inv e → TexInv e → cycleNext e = (Returned, e') → TexInv e'.
Proof.
  intros HI HT. rewrite cycleNext_unfold.
  destruct (Sprites e) as [|g0 l] eqn:E; [by intros [= <-]|].
  destruct (nextSprite_is_Some e HI) as (g & -> & Hg); [by rewrite E|].
  by apply SelectSprite_TexInv.
Qed.

Lemma TexInv_same_heap e e' :
  TexInv e → heap e' = heap e → Sprites e' = Sprites e → TexInv e'.
Proof. intros HT Hh Hs g. rewrite Hh, Hs. apply HT. Qed.

Lemma cycleMode_TexInv code e : TexInv e → TexInv (cycleMode code e).
Proof.
  intros HT. unfold cycleMode. destruct (_ && _); [|done].
  by apply (TexInv_same_heap e).
Qed.

Lemma keydown_TexInv code confirmed e e' :
  Inv e → TexInv e → keydown code confirmed e = (Returned, e') → TexInv e'.
Proof.
  intros HI HT. unfold keydown, keydown_first, keydown_second.
  destruct (String.eqb_spec code "Escape") as [->|HnE].
  - rewrite !(cycleMode_other "Escape") by done.
    rewrite (DeselectCurrentSprite_detached e HI).
    change (String.eqb "Escape" "Delete") with false.
    change (String.eqb "Escape" "Backspace") with false.
    change (String.eqb "Escape" "Tab") with false.
    cbn [orb andb]. intros [= <-]. by apply DeselectCurrentSprite_TexInv.
  - destruct (cycleMode_spec code e HI) as (HI1 & _).
    destruct (cycleMode_spec code _ HI1) as (HI2 & _).
    pose proof (cycleMode_TexInv code _ (cycleMode_TexInv code e HT)) as HT2.
    set (e2 := cycleMode code (cycleMode code e)) in *.
    set (e3 := if (_ || _) && _ then _ else e2).
    assert (Inv e3 ∧ TexInv e3) as [HI3 HT3].
    { subst e3. destruct (_ && _); [|done].
      destruct (ShowDeleteConfirmation_spec confirmed e2 HI2) as (? & _).
      split; [done|]. unfold ShowDeleteConfirmation.
      destruct confirmed; [|done]. by apply DeleteSelectedSprite_TexInv. }
    destruct (String.eqb code "Tab").
    + by apply cycleNext_TexInv.
    + by intros [= <-].
Qed.

Lemma pick_TexInv Intersects e e' :
  Inv e → TexInv e →
  (∀ r, r ∈ Intersects → r ∈ sceneObjects e) →
  pick Intersects e = (Returned, e') → TexInv e'.
Proof.
  intros HI HT Hv.
  destruct (findSpriteToSelect_spec e Intersects (inv_shape e HI) Hv)
    as (x & Hx & HTx).
  unfold pick. rewrite Hx. destruct x as [T|].
  - destruct (HTx T eq_refl) as (? & _). by apply SelectSprite_TexInv.
  - intros [= <-]. by apply DeselectCurrentSprite_TexInv.
Qed.

Lemma applyFilterBtn_click_TexInv value e :
  TexInv e → TexInv (applyFilterBtn_click value e).
Proof.
  intros HT. unfold applyFilterBtn_click.
  set (e1 := with_CurrentFilterType value e).
  set (e2 := match UserTexture e1 with
             | Some T => with_UserTexture
                           (Some (ApplyTextureFilter T (CurrentFilterType e1))) e1
             | None => e1
             end).
  assert (heap e2 = heap e ∧ Sprites e2 = Sprites e) as (Hh & Hs)
    by (subst e2 e1; simpl; destruct (UserTexture e); done).
  assert (TexInv e2) as HT2 by (by apply (TexInv_same_heap e)).
  destruct (SelectedSprite e2) as [sel|]; [|done].
  destruct (visiblePlane _) as [plane|]; [|done].
  destruct (material_map _) as [T|]; [|done].
  intros g Hg. destruct (HT2 g Hg) as (p & T' & Hp & HTp).
  cbn [heap with_heap Sprites] in *.
  destruct (decide (p = plane)) as [->|Hne].
  - exists plane. eexists. rewrite !modify_lookup.
    rewrite (decide_True (P := plane = plane)) by done.
    split; [case_decide; subst; done|reflexivity].
  - exists p, T'. rewrite !modify_lookup.
    rewrite (decide_False (P := p = plane)) by done.
    split; [case_decide; subst; done|done].
Qed.

Lemma SelectSprite_CurrentFilterType Sprite e :
  CurrentFilterType (SelectSprite Sprite e).2 = CurrentFilterType e.
Proof. unfold SelectSprite. by repeat case_match. Qed.

(** *** Adding a sprite *)

(** The editor between [Sprites.push] and the call of [SelectSprite]. *)
Lemma addSpriteBtn_click_stage e T :
  Inv e → UserTexture e = Some T →
  ∃ e3, addSpriteBtn_click e = SelectSprite (Some (nextRef e)) e3 ∧
        Inv e3 ∧ nextRef e3 = S (S (S (nextRef e))) ∧
        Sprites e3 = Sprites e ++ [nextRef e] ∧
        UserTexture e3 = UserTexture e ∧
        CurrentFilterType e3 = CurrentFilterType e ∧
        CurrentModeIndex e3 = CurrentModeIndex e ∧
        (∀ r : ref, r < nextRef e →
           texturePart (heap e3 !!! r) = texturePart (heap e !!! r)) ∧
        texturePart (heap e3 !!! nextRef e)
        = (None, Some (S (nextRef e)), Some (CurrentFilterType e), true) ∧
        material_map (heap e3 !!! S (nextRef e))
        = Some (ApplyTextureFilter T (CurrentFilterType e)).
Proof.
  intros HI HT. unfold addSpriteBtn_click.
  destruct (CreatePlaneSprite e) as [[g|] e1] eqn:Hc;
    [|unfold CreatePlaneSprite in Hc; rewrite HT in Hc; done].
  destruct HI as [HS Hsel Hatt Hmi Hm].
  destruct (shape_create e _ T e1 g HS Hsel HT Hc) as (-> & HS' & Ht').
  assert (Sprites e1 = Sprites e ∧ SelectedSprite e1 = SelectedSprite e ∧
          TransformControls e1 = TransformControls e ∧
          CurrentModeIndex e1 = CurrentModeIndex e ∧
          UserTexture e1 = UserTexture e ∧
          CurrentFilterType e1 = CurrentFilterType e ∧
          nextRef e1 = S (S (S (nextRef e))))
    as (Hs1 & Hse1 & Htc1 & Hm1 & Hu1 & Hf1 & Hn1).
  { unfold CreatePlaneSprite in Hc. rewrite HT in Hc. by simplify_eq. }
  pose proof (shape_next _ _ _ _ HS) as Hn4.
  pose proof (λ r, proj2 (proj2 (create_lookup e T e1 (nextRef e) r HT Hc Hn4)))
    as L.
  eexists. split; [reflexivity|].
  cbn [heap nextRef Sprites SelectedSprite TransformControls CurrentModeIndex
       UserTexture CurrentFilterType with_heap with_Sprites].
  rewrite ?Hs1, ?Hse1, ?Htc1, ?Hm1, ?Hu1, ?Hf1, ?Hn1.
  split_and!; try done.
  - split; simpl; rewrite ?Hs1, ?Hse1, ?Htc1, ?Hm1, ?Hn1; try done.
    + by rewrite Hn1 in HS'.
    + intros g0 Hg0. apply elem_of_app. left. by apply Hsel.
  - intros r Hr. rewrite L.
    assert (Scene ≠ nextRef e) by (unfold Scene; lia).
    repeat case_decide; subst; try lia; done.
  - rewrite L. rewrite decide_False by (unfold Scene; lia).
    by rewrite decide_True.
  - rewrite L. rewrite decide_False by (unfold Scene; lia).
    rewrite decide_False by lia. by rewrite decide_True.
Qed.

Lemma addSpriteBtn_click_TexInv e e' :
  Inv e → TexInv e → addSpriteBtn_click e = (Returned, e') → TexInv e'.
Proof.
  intros HI HT He.
  destruct (UserTexture e) as [T|] eqn:HU.
  2:{ unfold addSpriteBtn_click, CreatePlaneSprite in He. rewrite HU in He.
      by simplify_eq. }
  destruct (addSpriteBtn_click_stage e T HI HU)
    as (e3 & E & HI3 & Hn3 & Hs3 & _ & _ & _ & Hold & Hnew & Hplane).
  rewrite E in He. apply (SelectSprite_TexInv e3 (nextRef e) e' HI3);
    [|rewrite Hs3; apply elem_of_app; right; by left|done].
  intros g Hg. rewrite Hs3 in Hg.
  apply elem_of_app in Hg as [Hg| ->%list_elem_of_singleton].
  - destruct (HT g Hg) as (p & T' & Hp & HTp).
    destruct (shape_sprites _ _ _ _ (inv_shape e HI) g Hg)
      as (Hlt & _ & _ & _ & p' & b & Hp' & Hpl & _).
    rewrite Hp in Hp'. simplify_eq.
    destruct (texturePart_eq _ _ (Hold g Hlt)) as (_ & E2 & _).
    destruct (texturePart_eq _ _ (Hold p' Hpl)) as (E1 & _).
    exists p', T'. by rewrite E2, E1.
  - exists (S (nextRef e)). eexists. split; [|exact Hplane].
    unfold texturePart in Hnew. by inversion Hnew.
Qed.

Lemma dispatch_TexInv ev s s' :
  Inv (editor s) → TexInv (editor s) → valid_event ev s →
  dispatch ev s = (Returned, s') → TexInv (editor s').
Proof.
  intros HI HT Hv.
  destruct ev as [b x y| | |x y|d|v|code confirmed|w h|T|value| |b x y Is|i|c];
    simpl; try (by intros [= <-]).
  - intros [= <-]. unfold mousedown. by repeat case_match.
  - intros [= <-]. unfold mousemove. by repeat case_match.
  - intros [= <-]. unfold wheel. by repeat case_match.
  - unfold onEditor. destruct (keydown code confirmed (editor s)) as [st e'] eqn:E.
    simpl. intros [= -> <-]. simpl. by eapply keydown_TexInv.
  - intros [= <-]. simpl. by apply applyFilterBtn_click_TexInv.
  - unfold onEditor. destruct (addSpriteBtn_click (editor s)) as [st e'] eqn:E.
    simpl. intros [= -> <-]. simpl. by eapply addSpriteBtn_click_TexInv.
  - unfold click. destruct (_ || _); [by intros [= <-]|].
    cbn [editor with_Mouse]. destruct (pick Is (editor s)) as [st e'] eqn:E.
    simpl. intros [= -> <-]. simpl. by eapply pick_TexInv.
  - destruct (ModeButtons !! i) as [[[Id Mode] Index]|]; [|by intros [= <-]].
    intros [= <-]. simpl. unfold modeBtn_click. by destruct (bool_decide _).
  - intros [= <-]. simpl. unfold deleteBtn_click, ShowDeleteConfirmation.
    destruct (bool_decide _); [|done]. destruct c; [|done].
    by apply DeleteSelectedSprite_TexInv.
Qed.

Lemma reachable_TexInv width height s :
  reachable width height s → TexInv (editor s).
Proof.
  unfold reachable. induction 1 as [|s ev st s' Hsteps IH Hv Hd _].
  - intros g Hg. by apply elem_of_nil in Hg.
  - pose proof (reachable_Inv _ _ _ Hsteps) as HI.
    destruct (dispatch_spec ev s HI Hv) as (s'' & Hd' & _).
    rewrite Hd in Hd'. simplify_eq. by eapply dispatch_TexInv.
Qed.

(** X15: in every state the page can reach, each sprite of the collection
    has a visible plane that is a textured mesh of its own group: the
    guards of the filter button ([SelectedSprite.userData.visiblePlane],
    [Material && Material.map]) never fail for a selected sprite. *)
Theorem X15_sprites_are_textured (width height : R) (s : State) (g : ref) :
  reachable width height s →
  g ∈ Sprites (editor s) →
  ∃ (plane : ref) (T : Texture),
    visiblePlane (userData (heap (editor s) !!! g)) = Some plane ∧
    material_map (heap (editor s) !!! plane) = Some T ∧
    otype (heap (editor s) !!! plane) = MeshT ∧
    parent (heap (editor s) !!! plane) = Some g ∧
    plane ∈ children (heap (editor s) !!! g).
Proof.
  intros Hr Hg.
  destruct (reachable_TexInv _ _ _ Hr g Hg) as (p & T & Hp & HT).
  pose proof (reachable_Inv _ _ _ Hr) as HI.
  destruct (shape_sprites _ _ _ _ (inv_shape _ HI) g Hg)
    as (_ & _ & _ & _ & p' & b & Hp' & _ & _ & Hl & _ & Hc).
  rewrite Hp in Hp'. simplify_eq.
  exists p', T. destruct Hl as (Ho & Hpa & _).
  split_and!; try done.
  case_decide.
  - destruct Hc as (ol & _ & _ & -> & _). constructor.
  - destruct Hc as (_ & ->). constructor.
Qed.

Lemma X15_sprites_are_textured_witness :
  ∃ (plane : ref) (T : Texture),
    visiblePlane (userData (heap (editor draggingState) !!! 4)) = Some plane ∧
    material_map (heap (editor draggingState) !!! plane) = Some T ∧
    otype (heap (editor draggingState) !!! plane) = MeshT ∧
    parent (heap (editor draggingState) !!! plane) = Some 4 ∧
    plane ∈ children (heap (editor draggingState) !!! 4).
Proof.
  apply (X15_sprites_are_textured 800 600 draggingState 4
           reachable_draggingState).
  assert (Sprites oneSprite = [4]) as E by (vm_compute; reflexivity).
  unfold draggingState. cbn [editor with_IsTransformActive with_editor].
  rewrite E. constructor.
Defined.

(** X14: the filter button with a sprite selected.  The chosen value becomes
    the current filter type, the uploaded texture (if any) and the texture
    of the selected sprite's visible plane are re-filtered with it, and
    nothing else changes: every other object, and the plane's place in the
    scene graph, the selection, the collection, the gizmo and the
    [filterType] recorded on the sprite when it was created stay as they
    were. *)
Theorem X14_filter_button_refilters_selection
    (value : string) (e : Editor) (sel plane : ref) (T : Texture) :
  SelectedSprite e = Some sel →
  visiblePlane (userData (heap e !!! sel)) = Some plane →
  material_map (heap e !!! plane) = Some T →
  let e' := applyFilterBtn_click value e in
  CurrentFilterType e' = value ∧
  UserTexture e' = (λ U, ApplyTextureFilter U value) <$> UserTexture e ∧
  heap e' !!! plane
  = set_material_map (Some (ApplyTextureFilter T value)) (heap e !!! plane) ∧
  (∀ r : ref, r ≠ plane → heap e' !!! r = heap e !!! r) ∧
  filterType (userData (heap e' !!! sel)) = filterType (userData (heap e !!! sel)) ∧
  Sprites e' = Sprites e ∧ SelectedSprite e' = Some sel ∧
  TransformControls e' = TransformControls e ∧
  CurrentModeIndex e' = CurrentModeIndex e ∧ nextRef e' = nextRef e.
Proof.
  intros Hsel Hp HT. unfold applyFilterBtn_click.
  set (e1 := with_CurrentFilterType value e).
  set (e2 := match UserTexture e1 with
             | Some U => with_UserTexture
                           (Some (ApplyTextureFilter U (CurrentFilterType e1))) e1
             | None => e1
             end).
  assert (heap e2 = heap e ∧ nextRef e2 = nextRef e ∧ Sprites e2 = Sprites e ∧
          SelectedSprite e2 = SelectedSprite e ∧
          TransformControls e2 = TransformControls e ∧
          CurrentModeIndex e2 = CurrentModeIndex e ∧
          CurrentFilterType e2 = value ∧
          UserTexture e2 = (λ U, ApplyTextureFilter U value) <$> UserTexture e)
    as (Hh & Hn & Hs & Hse & Htc & Hci & Hf & Hu)
    by (subst e2 e1; simpl; destruct (UserTexture e) eqn:EU; simpl;
        rewrite ?EU; split_and!; reflexivity).
  rewrite Hse, Hsel, Hh, Hp, HT, Hf.
  cbn [heap with_heap CurrentFilterType UserTexture Sprites SelectedSprite
       TransformControls CurrentModeIndex nextRef].
  rewrite ?Hh, ?Hn, ?Hs, ?Hse, ?Htc, ?Hci, ?Hf, ?Hu.
  split_and!; try done.
  - rewrite modify_lookup. by rewrite decide_True.
  - intros r Hr. rewrite modify_lookup. by rewrite decide_False.
  - rewrite modify_lookup. case_decide as Hd; [rewrite Hd|]; done.
Qed.

(** X14, witness: the inherited name "constructor" chosen with the one
    sprite of [oneSprite] selected. *)
Lemma X14_filter_button_refilters_selection_witness :
  CurrentFilterType (applyFilterBtn_click "constructor" oneSprite)
  = "constructor"%string ∧
  material_map (heap (applyFilterBtn_click "constructor" oneSprite) !!! 5)
  = Some (mkTexture None None false true) ∧
  filterType
    (userData (heap (applyFilterBtn_click "constructor" oneSprite) !!! 4))
  = Some "Bilinear"%string.
Proof.
  destruct (X14_filter_button_refilters_selection "constructor" oneSprite
              4 5 (mkTexture (Some LinearFilter) (Some LinearFilter)
                     false true))
    as (H1 & _ & H3 & _ & H5 & _).
  - vm_compute; reflexivity.
  - vm_compute; reflexivity.
  - vm_compute; reflexivity.
  - split; [exact H1|]. split.
    + etrans; [exact (f_equal material_map H3)|vm_compute; reflexivity].
    + etrans; [exact H5|vm_compute; reflexivity].
Defined.

(** What the add-sprite button does once a texture has been uploaded. *)
Lemma addSpriteBtn_click_textured (e : Editor) (T : Texture) :
  Inv e → UserTexture e = Some T →
  ∃ e', addSpriteBtn_click e = (Returned, e') ∧ Inv e' ∧
    let g : ref := nextRef e in
    let plane : ref := S g in
    (g ∉ Sprites e) ∧
    Sprites e' = Sprites e ++ [g] ∧
    children (heap e' !!! Scene) = children (heap e !!! Scene) ++ [g] ∧
    SelectedSprite e' = Some g ∧
    object (TransformControls e') = Some g ∧
    mode (TransformControls e') = mode (TransformControls e) ∧
    isSprite (userData (heap e' !!! g)) = true ∧
    visiblePlane (userData (heap e' !!! g)) = Some plane ∧
    filterType (userData (heap e' !!! g)) = Some (CurrentFilterType e) ∧
    material_map (heap e' !!! plane)
    = Some (ApplyTextureFilter T (CurrentFilterType e)) ∧
    UserTexture e' = Some T ∧
    CurrentFilterType e' = CurrentFilterType e ∧
    ∀ r : ref, r < nextRef e →
      material_map (heap e' !!! r) = material_map (heap e !!! r).
Proof.
  intros HI HU.
  destruct (addSpriteBtn_click_stage e T HI HU)
    as (e3 & E & HI3 & Hn3 & Hs3 & Hu3 & Hf3 & Hci3 & Hold & Hnew & Hplane).
  assert (nextRef e ∈ Sprites e3) as Hin
    by (rewrite Hs3; apply elem_of_app; right; constructor).
  destruct (SelectSprite_spec e3 (nextRef e) HI3 Hin)
    as (e' & E' & HI' & Hsel' & Hs' & Hci' & Hu' & Hh' & Hn' & Hx').
  pose proof (λ r, SelectSprite_texturePart e3 (nextRef e) e' r HI3 Hin E') as Htp.
  pose proof (SelectSprite_CurrentFilterType (Some (nextRef e)) e3) as Hf'.
  rewrite E' in Hf'. simpl in Hf'.
  exists e'. rewrite E. split; [exact E'|]. split; [exact HI'|]. cbv zeta.
  pose proof (shape_scene_children _ _ _ _ (inv_shape _ HI)) as Hc.
  pose proof (shape_scene_children _ _ _ _ (inv_shape _ HI')) as Hc'.
  assert (nextRef e ∉ Sprites e) as Hfresh.
  { intros Hg.
    destruct (shape_sprites _ _ _ _ (inv_shape _ HI) _ Hg) as (Hlt & _). lia. }
  destruct (texturePart_eq _ _ (Htp (nextRef e) ltac:(lia)))
    as (_ & Hvp & Hft & His).
  destruct (texturePart_eq _ _ (Htp (S (nextRef e)) ltac:(lia))) as (Hmm & _).
  unfold texturePart in Hnew.
  split_and!.
  - exact Hfresh.
  - by rewrite Hs', Hs3.
  - rewrite Hc', Hc, Hs', Hs3. by rewrite app_assoc.
  - exact Hsel'.
  - by rewrite (inv_attached _ HI').
  - by rewrite (inv_mode _ HI'), (inv_mode _ HI), Hci', Hci3.
  - rewrite His. by inversion Hnew.
  - rewrite Hvp. by inversion Hnew.
  - rewrite Hft. by inversion Hnew.
  - by rewrite Hmm.
  - by rewrite Hu', Hu3.
  - by rewrite Hf', Hf3.
  - intros r Hr.
    destruct (texturePart_eq _ _ (Htp r ltac:(lia))) as (-> & _).
    by destruct (texturePart_eq _ _ (Hold r Hr)) as (-> & _).
Qed.

(** X7: the add-sprite button.  Without an uploaded texture it changes
    nothing.  With one, it returns normally and the new sprite is a fresh
    group, appended to the collection and to the scene, selected with the
    gizmo attached in the current mode; its visible plane carries a copy of
    the uploaded texture filtered with the current filter type, which is
    also recorded on the group; the uploaded texture and the textures of
    all earlier objects are left as they were. *)
Theorem X7_add_sprite (e : Editor) :
  Inv e →
  (UserTexture e = None → addSpriteBtn_click e = (Returned, e)) ∧
  ∀ T, UserTexture e = Some T →
    ∃ e', addSpriteBtn_click e = (Returned, e') ∧
      let g : ref := nextRef e in
      let plane : ref := S g in
      (g ∉ Sprites e) ∧
      Sprites e' = Sprites e ++ [g] ∧
      children (heap e' !!! Scene) = children (heap e !!! Scene) ++ [g] ∧
      SelectedSprite e' = Some g ∧
      object (TransformControls e') = Some g ∧
      mode (TransformControls e') = mode (TransformControls e) ∧
      isSprite (userData (heap e' !!! g)) = true ∧
      visiblePlane (userData (heap e' !!! g)) = Some plane ∧
      filterType (userData (heap e' !!! g)) = Some (CurrentFilterType e) ∧
      material_map (heap e' !!! plane)
      = Some (ApplyTextureFilter T (CurrentFilterType e)) ∧
      UserTexture e' = Some T ∧
      CurrentFilterType e' = CurrentFilterType e ∧
      ∀ r : ref, r < nextRef e →
        material_map (heap e' !!! r) = material_map (heap e !!! r).
Proof.
  intros HI. split.
  { intros HU. unfold addSpriteBtn_click, CreatePlaneSprite. by rewrite HU. }
  intros T HU.
  destruct (addSpriteBtn_click_textured e T HI HU) as (e' & E & _ & H).
  exists e'. split; [exact E|exact H].
Qed.

Lemma X7_add_sprite_witness :
  ∃ e', addSpriteBtn_click (textureLoaded sampleTexture initialEditor)
        = (Returned, e') ∧
        Sprites e' = [4] ∧ SelectedSprite e' = Some 4 ∧
        material_map (heap e' !!! 5)
        = Some (mkTexture (Some LinearFilter) (Some LinearFilter) false true).
Proof.
  pose (e := textureLoaded sampleTexture initialEditor).
  assert (Inv e) as HI
    by apply (textureLoaded_spec sampleTexture initialEditor Inv_initial).
  assert (UserTexture e = Some (mkTexture (Some LinearFilter) (Some LinearFilter) false true))
    as HU by (vm_compute; reflexivity).
  assert (nextRef e = 4) as Hn by (vm_compute; reflexivity).
  assert (Sprites e = []) as Hs by (vm_compute; reflexivity).
  assert (CurrentFilterType e = "Bilinear"%string) as Hf
    by (vm_compute; reflexivity).
  destruct (X7_add_sprite e HI) as (_ & H).
  destruct (H _ HU)
    as (e' & E & _ & H2 & _ & H4 & _ & _ & _ & _ & _ & H10 & _).
  exists e'. split; [exact E|].
  rewrite Hn, ?Hs, ?Hf in H2, H4, H10.
  split; [exact H2|]. split; [exact H4|].
  etrans; [exact H10|]. vm_compute. reflexivity.
Defined.

(** ** Picking, buttons and the scene graph *)

(** *** Picking *)

Lemma topLevelParent_fixed e (x : ref) :
  Shape (heap e) (nextRef e) (Sprites e) (SelectedSprite e) →
  x ∈ [GridHelper; AxesHelper; TransformControlsObj] →
  topLevelParent (nextRef e) (heap e) x = Some x ∧
  isSprite (userData (heap e !!! x)) = false.
Proof.
  intros [Hst Hsc (_ & Pg & _) (_ & Pa & _) (_ & Pc & _) Hgd Had Hcd Hn Hnd Hspr] Hx.
  destruct (nextRef e) as [|fuel]; [lia|].
  repeat (apply elem_of_cons in Hx as [->|Hx]); try by apply elem_of_nil in Hx.
  all: split; [|done].
  all: simpl; rewrite ?Pg, ?Pa, ?Pc; by rewrite decide_True.
Qed.

Lemma topLevelParent_sprite_part e (g r : ref) :
  Shape (heap e) (nextRef e) (Sprites e) (SelectedSprite e) →
  g ∈ Sprites e → r = g ∨ r ∈ children (heap e !!! g) →
  topLevelParent (nextRef e) (heap e) r = Some g ∧
  isSprite (userData (heap e !!! g)) = true.
Proof.
  intros HS Hg Hr.
  destruct (shape_sprite_not_fixed _ _ _ _ g HS Hg) as (Hg0 & _).
  pose proof (shape_sprites _ _ _ _ HS g Hg) as Hok.
  pose proof (shape_next _ _ _ _ HS) as Hn.
  assert (parent (heap e !!! g) = Some Scene ∧
          isSprite (userData (heap e !!! g)) = true) as (Pg & Sg)
    by (destruct Hok as (_ & _ & ? & ? & _); done).
  split; [|done].
  destruct (nextRef e) as [|fuel] eqn:En; [lia|].
  destruct Hr as [->|Hr].
  - simpl. rewrite Pg. by rewrite decide_True.
  - rewrite <- En in Hok.
    destruct (sprite_children_leaves _ _ _ _ _ Hok Hr) as (Pr & _).
    simpl. rewrite Pr. rewrite decide_False by done.
    destruct fuel; simpl; rewrite Pg; by rewrite decide_True.
Qed.

Lemma findSpriteToSelect_first e (pre rest : list ref) (g r : ref) :
  Shape (heap e) (nextRef e) (Sprites e) (SelectedSprite e) →
  (∀ x, x ∈ pre → x ∈ [GridHelper; AxesHelper; TransformControlsObj]) →
  g ∈ Sprites e → r = g ∨ r ∈ children (heap e !!! g) →
  findSpriteToSelect (nextRef e) (heap e) (pre ++ r :: rest) = Some (Some g).
Proof.
  intros HS Hpre Hg Hr. induction pre as [|x pre IH]; simpl.
  - destruct (topLevelParent_sprite_part e g r HS Hg Hr) as (-> & ->). done.
  - destruct (topLevelParent_fixed e x HS (Hpre x ltac:(constructor)))
      as (-> & ->).
    apply IH. intros y Hy. apply Hpre. by constructor.
Qed.

(** X8: picking.  When the nearest intersections are helpers (grid, axes,
    gizmo) and the first other one is a part of a sprite (the group, its
    plane, its selection box or its outline), the click selects that
    sprite's group, whatever lies behind it: the listener returns normally
    with the sprite selected and the gizmo attached to it, and the
    collection is unchanged. *)
Theorem X8_pick_selects_nearest_sprite
    (e : Editor) (pre rest : list ref) (g r : ref) :
  Inv e →
  (∀ x, x ∈ pre → x ∈ [GridHelper; AxesHelper; TransformControlsObj]) →
  g ∈ Sprites e →
  r = g ∨ r ∈ children (heap e !!! g) →
  pick (pre ++ r :: rest) e = SelectSprite (Some g) e ∧
  ∃ e', pick (pre ++ r :: rest) e = (Returned, e') ∧
        SelectedSprite e' = Some g ∧
        object (TransformControls e') = Some g ∧
        Sprites e' = Sprites e ∧
        hasOutline e' g.
Proof.
  intros HI Hpre Hg Hr.
  assert (pick (pre ++ r :: rest) e = SelectSprite (Some g) e) as E.
  { unfold pick.
    by rewrite (findSpriteToSelect_first e pre rest g r (inv_shape _ HI)). }
  split; [exact E|]. rewrite E.
  destruct (SelectSprite_spec e g HI Hg)
    as (e' & E' & HI' & Hsel' & Hs' & _).
  exists e'. split_and!; try done.
  - by rewrite (inv_attached _ HI').
  - assert (g ∈ Sprites e') as Hg' by (by rewrite Hs').
    destruct (shape_sprites _ _ _ _ (inv_shape _ HI') g Hg')
      as (_ & _ & _ & _ & p & b & _ & _ & _ & _ & _ & Hc).
    rewrite decide_True in Hc by done.
    destruct Hc as (ol & _ & _ & Hch & (Ho & _)).
    exists ol. split; [|done]. rewrite Hch. do 2 constructor. constructor.
Qed.

Lemma X8_pick_selects_nearest_sprite_witness :
  ∃ e', pick ([GridHelper; AxesHelper] ++ 6 :: [8; 4; GridHelper]) twoSprites
        = (Returned, e') ∧ SelectedSprite e' = Some 4.
Proof.
  destruct (X8_pick_selects_nearest_sprite twoSprites [GridHelper; AxesHelper]
              [8; 4; GridHelper] 4 6 Inv_twoSprites)
    as (_ & e' & E & Hs & _).
  - intros x Hx. apply elem_of_cons in Hx as [->|Hx]; [constructor|].
    apply list_elem_of_singleton in Hx as ->. do 2 constructor.
  - apply (bool_decide_unpack _). vm_compute. exact I.
  - right. apply (bool_decide_unpack _). vm_compute. exact I.
  - exists e'. split; [exact E|exact Hs].
Defined.

(** *** The mode buttons *)

(** X11: the three mode buttons.  Each button's mode is the entry of
    [TransformModes] at the button's index, so a click with the gizmo
    attached leaves the gizmo mode and [CurrentModeIndex] in step; it
    changes nothing else, a second click on the same button changes
    nothing, and with the gizmo detached the click is ignored. *)
Theorem X11_mode_buttons
    (Id : string) (Mode : TransformMode) (Index : nat) (e : Editor) :
  (Id, Mode, Index) ∈ ModeButtons →
  let e' := modeBtn_click Mode Index e in
  TransformModes !! Index = Some Mode ∧
  (is_Some (object (TransformControls e)) →
     mode (TransformControls e') = Some Mode ∧
     CurrentModeIndex e' = Index ∧
     object (TransformControls e') = object (TransformControls e) ∧
     heap e' = heap e ∧ nextRef e' = nextRef e ∧ Sprites e' = Sprites e ∧
     SelectedSprite e' = SelectedSprite e ∧ UserTexture e' = UserTexture e ∧
     CurrentFilterType e' = CurrentFilterType e) ∧
  (object (TransformControls e) = None → e' = e) ∧
  modeBtn_click Mode Index e' = e' ∧
  (Inv e → Inv e').
Proof.
  intros Hin. cbv zeta.
  assert (TransformModes !! Index = Some Mode) as Htab.
  { repeat (apply elem_of_cons in Hin as [[= -> -> ->]|Hin]);
      try (by apply elem_of_nil in Hin); reflexivity. }
  split; [exact Htab|]. unfold modeBtn_click.
  destruct (object (TransformControls e)) as [g|] eqn:Ho.
  - rewrite bool_decide_eq_true_2 by (by eexists).
    cbn [TransformControls CurrentModeIndex with_CurrentModeIndex
         with_TransformControls object setMode mode heap nextRef Sprites
         SelectedSprite UserTexture CurrentFilterType].
    rewrite Ho. rewrite bool_decide_eq_true_2 by (by eexists).
    split_and!; try done.
    intros HI. apply (Inv_controls e); simpl; try done.
    apply lookup_lt_Some in Htab. exact Htab.
  - rewrite bool_decide_eq_false_2 by (by intros [? ?]).
    rewrite Ho. rewrite bool_decide_eq_false_2 by (by intros [? ?]).
    split_and!; done.
Qed.

Lemma X11_mode_buttons_witness :
  mode (TransformControls (modeBtn_click rotate 1 oneSprite)) = Some rotate ∧
  CurrentModeIndex (modeBtn_click rotate 1 oneSprite) = 1.
Proof.
  destruct (X11_mode_buttons "rotateBtn" rotate 1 oneSprite) as (_ & H & _).
  - do 1 constructor. constructor.
  - destruct H as (H1 & H2 & _); [|split; [exact H1|exact H2]].
    apply (bool_decide_unpack _). vm_compute. exact I.
Defined.

(** *** The scene graph *)

(** X13: the scene graph of every state the page can reach.  The children
    of the scene are the grid, the axes and the gizmo followed by the
    sprites of the collection in the same order, no sprite is listed twice,
    a selected sprite is in the collection, and each sprite is a group
    directly under the scene whose children are leaves: its plane and its
    selection box, and a third child (the outline) exactly when it is the
    selected sprite. *)
Theorem X13_scene_graph (width height : R) (s : State) :
  reachable width height s →
  let e := editor s in
  children (heap e !!! Scene)
  = [GridHelper; AxesHelper; TransformControlsObj] ++ Sprites e ∧
  NoDup (Sprites e) ∧
  (∀ g, SelectedSprite e = Some g → g ∈ Sprites e) ∧
  ∀ g : ref, g ∈ Sprites e →
    g < nextRef e ∧
    otype (heap e !!! g) = GroupT ∧
    parent (heap e !!! g) = Some Scene ∧
    isSprite (userData (heap e !!! g)) = true ∧
    length (children (heap e !!! g))
    = (if decide (SelectedSprite e = Some g) then 3 else 2) ∧
    ∀ c : ref, c ∈ children (heap e !!! g) →
      parent (heap e !!! c) = Some g ∧ children (heap e !!! c) = [].
Proof.
  intros Hr. cbv zeta. pose proof (reachable_Inv _ _ _ Hr) as HI.
  pose proof (inv_shape _ HI) as HS.
  split; [apply (shape_scene_children _ _ _ _ HS)|].
  split; [apply (shape_nodup _ _ _ _ HS)|].
  split; [apply (inv_selected _ HI)|].
  intros g Hg. pose proof (shape_sprites _ _ _ _ HS g Hg) as Hok.
  pose proof Hok as (Hlt & Ht & Hp & Hi & p & b & _ & _ & _ & _ & _ & Hc).
  split_and!; try done.
  - case_decide.
    + by destruct Hc as (ol & _ & _ & -> & _).
    + by destruct Hc as (_ & ->).
  - intros c Hin.
    by destruct (sprite_children_leaves _ _ _ _ _ Hok Hin) as (? & ? & _).
Qed.

Lemma X13_scene_graph_witness :
  children (heap (editor draggingState) !!! Scene)
  = [GridHelper; AxesHelper; TransformControlsObj]
    ++ Sprites (editor draggingState) ∧
  NoDup (Sprites (editor draggingState)).
Proof.
  destruct (X13_scene_graph 800 600 draggingState reachable_draggingState)
    as (H1 & H2 & _).
  split; [exact H1|exact H2].
Defined.

(** *** No listener fails *)

(** X18: in every state the page can reach, the listener of every event
    the browser can deliver returns normally: none throws (the Tab key
    never passes [undefined] to [SelectSprite], whose read of
    [Sprite.userData] would throw), the parent-climbing loop of the click
    listener terminates, and the state it leaves is again reachable. *)
Theorem X18_listeners_return (width height : R) (s : State) (ev : Event) :
  reachable width height s → valid_event ev s →
  ∃ s', dispatch ev s = (Returned, s') ∧ reachable width height s' ∧
        Inv (editor s') ∧ nextRef (editor s) ≤ nextRef (editor s').
Proof.
  intros Hr Hv.
  destruct (dispatch_spec ev s (reachable_Inv _ _ _ Hr) Hv)
    as (s' & Hd & HI' & Hle & _).
  exists s'. split_and!; try done. by eapply steps_step.
Qed.

Lemma X18_listeners_return_witness :
  ∃ s', dispatch (KeyDown "Tab" false) draggingState = (Returned, s') ∧
        reachable 800 600 s'.
Proof.
  destruct (X18_listeners_return 800 600 draggingState (KeyDown "Tab" false)
              reachable_draggingState I) as (s' & Hd & Hr & _).
  exists s'. split; [exact Hd|exact Hr].
Defined.

(** *** Uploading a texture *)

Lemma ApplyTextureFilter_idem T FilterType :
  ApplyTextureFilter (ApplyTextureFilter T FilterType) FilterType
  = ApplyTextureFilter T FilterType.
Proof.
  unfold ApplyTextureFilter.
  destruct (TextureFilters FilterType) as [[mn mg]|] eqn:E; rewrite ?E; done.
Qed.

(** X19: uploading an image.  The loaded texture becomes the uploaded
    texture, filtered with the current filter type; nothing in the scene
    changes, so sprites placed before keep the texture they were created
    with (each sprite owns a clone); the next sprite added shows the new
    image with the current filter. *)
Theorem X19_upload_then_add (T : Texture) (e : Editor) :
  Inv e →
  let e1 := textureLoaded T e in
  UserTexture e1 = Some (ApplyTextureFilter T (CurrentFilterType e)) ∧
  heap e1 = heap e ∧ Sprites e1 = Sprites e ∧
  SelectedSprite e1 = SelectedSprite e ∧
  TransformControls e1 = TransformControls e ∧
  CurrentFilterType e1 = CurrentFilterType e ∧
  ∃ e2, addSpriteBtn_click e1 = (Returned, e2) ∧
        let g : ref := nextRef e in
        let plane : ref := S g in
        Sprites e2 = Sprites e ++ [g] ∧
        visiblePlane (userData (heap e2 !!! g)) = Some plane ∧
        material_map (heap e2 !!! plane)
        = Some (ApplyTextureFilter T (CurrentFilterType e)) ∧
        ∀ r : ref, r < nextRef e →
          material_map (heap e2 !!! r) = material_map (heap e !!! r).
Proof.
  intros HI. cbv zeta.
  destruct (textureLoaded_spec T e HI) as (HI1 & _).
  split_and!; try reflexivity.
  destruct (addSpriteBtn_click_textured (textureLoaded T e)
              (ApplyTextureFilter T (CurrentFilterType e)) HI1 eq_refl)
    as (e2 & E & _ & _ & Hs & _ & _ & _ & _ & _ & Hvp & _ & Hm & _ & _ & Hold).
  exists e2. split; [exact E|]. split_and!.
  - exact Hs.
  - exact Hvp.
  - etrans; [exact Hm|]. f_equal. apply ApplyTextureFilter_idem.
  - exact Hold.
Qed.

Lemma X19_upload_then_add_witness :
  ∃ e2, addSpriteBtn_click (textureLoaded sampleTexture oneSprite)
        = (Returned, e2) ∧
        material_map (heap e2 !!! 5) = material_map (heap oneSprite !!! 5).
Proof.
  destruct (X19_upload_then_add sampleTexture oneSprite Inv_oneSprite)
    as (_ & _ & _ & _ & _ & _ & e2 & E & _ & _ & _ & Hold).
  exists e2. split; [exact E|]. apply Hold.
  apply (bool_decide_unpack _). vm_compute. exact I.
Defined.
